(** * extract_anatomy.py: a shallow embedding and its properties

    The script [scripts/blender/extract_anatomy.py] runs inside Blender.  It
    searches the scene for anatomical meshes, joins, decimates and cleans
    them, puts duplicates into two collections and exports each collection
    to a GLB file.

    The embedding follows the script function by function.  The scene graph
    ([bpy.data], [bpy.context]) is an explicit store of objects, mesh
    data-blocks and collections addressed by handles; every call into [bpy]
    is a step of a state-and-exception monad.  What the geometry engine
    computes (decimation, joining, baking of transforms, bounding boxes) is
    left to an interface, [Host], so that every theorem holds for every
    geometry engine. *)

From Stdlib Require Import ZArith QArith List String Ascii Bool Arith Lia.
From Stdlib Require Import DecimalString DecimalNat FinFun.
Import ListNotations.

Open Scope string_scope.
Open Scope list_scope.

(* ================================================================== *)
(** * Python strings *)
(* ================================================================== *)

(** A Python [str] is held as the UTF-8 encoding of its code points.  The
    substring test and [startswith] on the encodings agree with the tests on
    code points. *)

(** [str.lower] on ASCII letters.  Bytes of multi-byte sequences are left
    as they are: case folding of letters outside ASCII is not part of the
    model (every pattern of [MESH_PATTERNS] is lower case already). *)
Definition lower_ascii (c : ascii) : ascii :=
  let n := nat_of_ascii c in
  if (65 <=? n)%nat && (n <=? 90)%nat then ascii_of_nat (n + 32) else c.

Fixpoint lower (s : string) : string :=
  match s with
  | EmptyString => EmptyString
  | String c r => String (lower_ascii c) (lower r)
  end.

(** [needle in hay] *)
Fixpoint str_in (needle hay : string) : bool :=
  if String.prefix needle hay then true
  else match hay with
       | EmptyString => false
       | String _ r => str_in needle r
       end.

(** [s.startswith(p)] *)
Definition startswith (s p : string) : bool := String.prefix p s.

(** ["=" * 60] *)
Fixpoint str_repeat (s : string) (n : nat) : string :=
  match n with
  | O => EmptyString
  | S k => s ++ str_repeat s k
  end.

Definition mem (s : string) (l : list string) : bool :=
  existsb (String.eqb s) l.

Definition str_of_nat (n : nat) : string :=
  NilZero.string_of_uint (Nat.to_uint n).

(* ================================================================== *)
(** * Names of data-blocks *)
(* ================================================================== *)

(** Blender keeps the names of the data-blocks of one kind unique: a
    requested name that is taken gets the first free suffix [.001],
    [.002], ...  (The script only ever requests names that carry no numeric
    suffix of their own, so the stripping of such a suffix is not
    modelled.) *)
Definition pad3 (n : nat) : string :=
  let s := str_of_nat n in
  str_repeat "0" (3 - String.length s) ++ s.

Definition numbered (base : string) (n : nat) : string :=
  base ++ "." ++ pad3 n.

Fixpoint first_free (used : list string) (base : string) (n fuel : nat)
  : string :=
  match fuel with
  | O => numbered base n
  | S k => if mem (numbered base n) used
           then first_free used base (S n) k
           else numbered base n
  end.

Definition unique_name (used : list string) (req : string) : string :=
  if mem req used then first_free used req 1 (List.length used) else req.

(** The number a string of digits stands for. *)
Definition digits_value (s : string) : nat :=
  match NilEmpty.uint_of_string s with
  | Some u => Nat.of_uint u
  | None => 0
  end.

(* ================================================================== *)
(** * Configuration *)
(* ================================================================== *)

Definition MESH_PATTERNS : list (string * list string) :=
  [ ("Body",
     ["skin"; "peau"; "body"; "corps"; "integument"; "epiderm"; "dermis";
      "cutaneous"]);
    ("Veins",
     ["vein"; "veine"; "artery"; "artère"; "artere"; "vessel"; "vaisseau";
      "circulat"; "blood"; "sang"; "aorta"; "aorte"; "vascular";
      "cardiovascular"]);
    ("Brain",
     ["brain"; "cerveau"; "cerebr"; "encephal"; "cortex"; "cerebellum";
      "cervelet"; "neural"]);
    ("Heart",
     ["heart"; "coeur"; "cœur"; "cardiac"; "cardiaque"; "ventricle";
      "ventricul"; "atrium"; "auricle"]) ].

Definition TARGET_TRIANGLES : list (string * Z) :=
  [ ("Body", 20000%Z); ("Veins", 30000%Z); ("Brain", 15000%Z);
    ("Heart", 10000%Z) ].

(** [math.radians(d)], kept as the number of degrees. *)
Inductive angle := radians (degrees : Z) | zero_angle.

Definition POSE_TRANSFORMS : list (string * list (string * (angle * angle * angle))) :=
  [ ("open",
     [ ("shoulder_l", (zero_angle, zero_angle, radians (-80)));
       ("shoulder_r", (zero_angle, zero_angle, radians 80));
       ("arm_l", (zero_angle, zero_angle, zero_angle));
       ("arm_r", (zero_angle, zero_angle, zero_angle)) ]);
    ("closed",
     [ ("shoulder_l", (zero_angle, zero_angle, radians (-10)));
       ("shoulder_r", (zero_angle, zero_angle, radians 10));
       ("arm_l", (zero_angle, zero_angle, zero_angle));
       ("arm_r", (zero_angle, zero_angle, zero_angle)) ]) ].

(** [d.get(key, default)] on a dict held as an association list. *)
Fixpoint dict_get {A} (d : list (string * A)) (key : string) (default : A) : A :=
  match d with
  | [] => default
  | (k, v) :: r => if String.eqb k key then v else dict_get r key default
  end.

(** [d[key] = v]: the entry is replaced in place, or appended. *)
Fixpoint dict_set {A} (d : list (string * A)) (key : string) (v : A)
  : list (string * A) :=
  match d with
  | [] => [(key, v)]
  | (k, x) :: r =>
      if String.eqb k key then (k, v) :: r else (k, x) :: dict_set r key v
  end.

Definition keys {A} (d : list (string * A)) : list string := map fst d.
Definition values {A} (d : list (string * A)) : list A := map snd d.

(* ================================================================== *)
(** * The host: Blender's geometry engine *)
(* ================================================================== *)

(** Python floats that the script only passes on to Blender are kept as
    exact rationals. *)
Definition vec3 : Type := (Q * Q * Q)%type.

(** A modifier of an object's stack, with the fields the script sets. *)
Record Modifier := mkModifier {
  mod_name : string;
  mod_type : string;
  decimate_type : string;
  ratio : Q;
  use_collapse_triangulate : bool
}.

(** The [bpy.ops.mesh.primitive_*_add] operators the script calls. *)
Inductive Primitive :=
| primitive_uv_sphere (radius : Q) (segments ring_count : Z)
| primitive_cylinder (radius depth : Q)
| primitive_cube (size : Q).

(** What the script leaves to Blender.  Nothing is assumed about these
    operations. *)
Class Host := {
  Geom : Type;                      (* vertices and faces of a mesh *)
  Xform : Type;                     (* an object's [matrix_world] *)
  identity_matrix : Xform;
  cursor_matrix : Xform;            (* where a new primitive is placed *)
  loop_triangles : Geom -> list Modifier -> Z;
                                    (* triangles of the evaluated mesh *)
  modifier_apply_geom : Modifier -> Geom -> Geom;
  transform_apply_geom : Xform -> Geom -> Geom;
  join_geom : Geom * Xform -> list (Geom * Xform) -> Geom;
  origin_set_bounds : Geom -> Xform -> Geom * Xform;
  bound_box : Geom -> list vec3;
  matmul : Xform -> vec3 -> vec3;
  location_z : Xform -> Q;
  set_location_z : Q -> Xform -> Xform;
  set_scale : vec3 -> Xform -> Xform;
  set_location : vec3 -> Xform -> Xform;
  primitive_geom : Primitive -> Geom
}.

(* ================================================================== *)
(** * The scene graph *)
(* ================================================================== *)

(** [bpy.context.scene.collection] is not a member of
    [bpy.data.collections]; the other collections are. *)
Inductive CollRef := SceneCollection | DataCollection (cid : nat).

Definition CollRef_eqb (a b : CollRef) : bool :=
  match a, b with
  | SceneCollection, SceneCollection => true
  | DataCollection i, DataCollection j => Nat.eqb i j
  | _, _ => false
  end.

Section Model.
Context {host : Host}.

(** A mesh data-block.  Layers, materials and shape keys are held by
    name. *)
Record Mesh := mkMesh {
  did : nat;
  dname : string;
  geom : Geom;
  materials : list string;
  uv_layers : list string;
  vertex_colors : list string;
  shape_keys : list string
}.

(** An object.  [odata] is the handle of its data-block ([None] for an
    object with no data).  [users_collection] lists the collections the
    object is linked in. *)
Record Object := mkObject {
  oid : nat;
  oname : string;
  otype : string;
  odata : option nat;
  matrix_world : Xform;
  modifiers : list Modifier;
  selected : bool;
  users_collection : list CollRef
}.

Record Collection := mkCollection {
  cid_of : nat;
  cname : string
}.

Record Scene := mkScene {
  objects : list Object;            (* bpy.data.objects *)
  meshes : list Mesh;               (* bpy.data.meshes *)
  collections : list Collection;    (* bpy.data.collections *)
  scene_children : list nat;        (* scene.collection.children *)
  active_object : option nat;       (* view_layer.objects.active *)
  active_collection : CollRef       (* bpy.context.collection *)
}.

(** What a run does to the outside. *)
Inductive Path := PurePath (s : string) | Child (p : Path) (name : string).

(** The pieces of a formatted message: text, a float printed with [:.3f],
    [str(path)] and [path.absolute()]. *)
Inductive Part :=
| Str (s : string)
| Float3 (q : Q)
| PathStr (p : Path)
| Absolute (p : Path).

Inductive exn := Exception (cls msg : string) | SystemExit (code : Z).

(** One object as the exporter sees it. *)
Record Node := mkNode {
  node_name : string;
  node_type : string;
  node_geom : option Geom;
  node_modifiers : list Modifier;
  node_matrix : Xform
}.

Inductive Effect :=
| Printed (level : string) (message : list Part)
| Traceback (e : exn)
| Mkdir (p : Path)
| ExportGLB (filepath : Path) (nodes : list Node).

(** The state of a run.  [faults] is the schedule of host failures: every
    call into the host takes the head of the schedule, and fails with the
    exception named there if there is one.  An empty schedule is a host
    that never fails. *)
Record World := mkWorld {
  scene : Scene;
  trace : list Effect;
  faults : list (option (string * string))
}.

Inductive res (A : Type) :=
| Ok (a : A)
| Raise (e : exn)
| OutOfFuel.
Arguments Ok {A} a.
Arguments Raise {A} e.
Arguments OutOfFuel {A}.

Definition M (A : Type) : Type := World -> res A * World.

Definition ret {A} (a : A) : M A := fun w => (Ok a, w).

Definition bind {A B} (m : M A) (k : A -> M B) : M B := fun w =>
  match m w with
  | (Ok a, w') => k a w'
  | (Raise e, w') => (Raise e, w')
  | (OutOfFuel, w') => (OutOfFuel, w')
  end.

Definition raise {A} (e : exn) : M A := fun w => (Raise e, w).

End Model.

Arguments Ok {A} a.
Arguments Raise {A} e.
Arguments OutOfFuel {A}.

Declare Scope py_scope.
Delimit Scope py_scope with py.
Notation "x <- m ;; k" := (bind m (fun x => k))
  (at level 100, m at next level, right associativity) : py_scope.
Notation "m ;; k" := (bind m (fun _ => k))
  (at level 100, right associativity) : py_scope.
Open Scope py_scope.

(* ================================================================== *)
(** * Calls into [bpy] *)
(* ================================================================== *)

Section Bpy.
Context {host : Host}.

Definition fresh (ids : list nat) : nat := S (fold_right Nat.max 0%nat ids).

Definition str_of_Z (z : Z) : string := NilZero.string_of_int (Z.to_int z).

(** ** The store *)

Definition find_object (o : nat) (s : Scene) : option Object :=
  find (fun x => Nat.eqb (oid x) o) (objects s).

Definition find_mesh (d : nat) (s : Scene) : option Mesh :=
  find (fun x => Nat.eqb (did x) d) (meshes s).

Definition find_collection (c : nat) (s : Scene) : option Collection :=
  find (fun x => Nat.eqb (cid_of x) c) (collections s).

Definition set_objects (l : list Object) (s : Scene) : Scene :=
  mkScene l (meshes s) (collections s) (scene_children s) (active_object s)
          (active_collection s).

Definition set_meshes (l : list Mesh) (s : Scene) : Scene :=
  mkScene (objects s) l (collections s) (scene_children s) (active_object s)
          (active_collection s).

Definition set_active_object (a : option nat) (s : Scene) : Scene :=
  mkScene (objects s) (meshes s) (collections s) (scene_children s) a
          (active_collection s).

Definition update_object (o : nat) (f : Object -> Object) (s : Scene) : Scene :=
  set_objects (map (fun x => if Nat.eqb (oid x) o then f x else x) (objects s)) s.

Definition update_mesh (d : nat) (f : Mesh -> Mesh) (s : Scene) : Scene :=
  set_meshes (map (fun x => if Nat.eqb (did x) d then f x else x) (meshes s)) s.

Definition with_oname (n : string) (x : Object) : Object :=
  mkObject (oid x) n (otype x) (odata x) (matrix_world x) (modifiers x)
           (selected x) (users_collection x).

Definition with_matrix_world (m : Xform) (x : Object) : Object :=
  mkObject (oid x) (oname x) (otype x) (odata x) m (modifiers x)
           (selected x) (users_collection x).

Definition with_modifiers (l : list Modifier) (x : Object) : Object :=
  mkObject (oid x) (oname x) (otype x) (odata x) (matrix_world x) l
           (selected x) (users_collection x).

Definition with_selected (b : bool) (x : Object) : Object :=
  mkObject (oid x) (oname x) (otype x) (odata x) (matrix_world x)
           (modifiers x) b (users_collection x).

Definition with_users_collection (l : list CollRef) (x : Object) : Object :=
  mkObject (oid x) (oname x) (otype x) (odata x) (matrix_world x)
           (modifiers x) (selected x) l.

Definition with_dname (n : string) (m : Mesh) : Mesh :=
  mkMesh (did m) n (geom m) (materials m) (uv_layers m) (vertex_colors m)
         (shape_keys m).

Definition with_geom (g : Geom) (m : Mesh) : Mesh :=
  mkMesh (did m) (dname m) g (materials m) (uv_layers m) (vertex_colors m)
         (shape_keys m).

Definition with_materials (l : list string) (m : Mesh) : Mesh :=
  mkMesh (did m) (dname m) (geom m) l (uv_layers m) (vertex_colors m)
         (shape_keys m).

Definition with_uv_layers (l : list string) (m : Mesh) : Mesh :=
  mkMesh (did m) (dname m) (geom m) (materials m) l (vertex_colors m)
         (shape_keys m).

Definition with_vertex_colors (l : list string) (m : Mesh) : Mesh :=
  mkMesh (did m) (dname m) (geom m) (materials m) (uv_layers m) l
         (shape_keys m).

Definition with_shape_keys (l : list string) (m : Mesh) : Mesh :=
  mkMesh (did m) (dname m) (geom m) (materials m) (uv_layers m)
         (vertex_colors m) l.

(** The mesh data of an object, when it is a mesh object with data. *)
Definition mesh_of (s : Scene) (x : Object) : option Mesh :=
  match odata x with
  | Some d => find_mesh d s
  | None => None
  end.

(** The objects linked in a collection: [coll.objects]. *)
Definition linked_in (c : CollRef) (x : Object) : bool :=
  existsb (CollRef_eqb c) (users_collection x).

Definition collection_objects (c : CollRef) (s : Scene) : list Object :=
  filter (linked_in c) (objects s).

(** ** One call into the host *)

(** The failure the schedule holds for the next call, if any. *)
Definition next_fault (w : World) : option (string * string) :=
  match faults w with
  | Some e :: _ => Some e
  | _ => None
  end.

(** A call that also acts on the outside.  It fails when the schedule says
    so, and leaves the scene as it was; otherwise it does [f]. *)
Definition call_out {A} (f : Scene -> res A * Scene * list Effect) : M A :=
  fun w =>
    match next_fault w with
    | Some (cls, msg) =>
        (Raise (Exception cls msg), mkWorld (scene w) (trace w) (tl (faults w)))
    | None =>
        let '(r, s, out) := f (scene w) in
        (r, mkWorld s (trace w ++ out) (tl (faults w)))
    end.

(** A call that only reads or changes the scene. *)
Definition call {A} (f : Scene -> res A * Scene) : M A :=
  fun w =>
    match next_fault w with
    | Some (cls, msg) =>
        (Raise (Exception cls msg), mkWorld (scene w) (trace w) (tl (faults w)))
    | None =>
        let '(r, s) := f (scene w) in
        (r, mkWorld s (trace w) (tl (faults w)))
    end.

Definition ok {A} (a : A) (s : Scene) : res A * Scene := (Ok a, s).

Definition fail {A} (cls msg : string) (s : Scene) : res A * Scene :=
  (Raise (Exception cls msg), s).

Definition removed {A} : Scene -> res A * Scene :=
  fail "ReferenceError" "StructRNA has been removed".

(** A read of an attribute of a live object. *)
Definition read_object {A} (o : nat) (f : Scene -> Object -> A) : M A :=
  call (fun s => match find_object o s with
                 | Some x => ok (f s x) s
                 | None => removed s
                 end).

(** A write to a live object. *)
Definition write_object (o : nat) (f : Object -> Object) : M unit :=
  call (fun s => match find_object o s with
                 | Some _ => ok tt (update_object o f s)
                 | None => removed s
                 end).

Definition read_mesh {A} (d : nat) (f : Mesh -> A) : M A :=
  call (fun s => match find_mesh d s with
                 | Some m => ok (f m) s
                 | None => removed s
                 end).

Definition write_mesh (d : nat) (f : Mesh -> Mesh) : M unit :=
  call (fun s => match find_mesh d s with
                 | Some _ => ok tt (update_mesh d f s)
                 | None => removed s
                 end).

(** An attribute of [None]. *)
Definition the {A} (v : option A) : M A :=
  match v with
  | Some a => ret a
  | None => raise (Exception "AttributeError" "'NoneType' object has no attribute")
  end.

End Bpy.

Section Api.
Context {host : Host}.

Definition is_mesh (x : Object) : bool := String.eqb (otype x) "MESH".

Definition object_names (s : Scene) : list string := map oname (objects s).

(** The names held by the objects other than [o]. *)
Definition other_object_names (o : nat) (s : Scene) : list string :=
  map oname (filter (fun x => negb (Nat.eqb (oid x) o)) (objects s)).

Definition other_mesh_names (d : nat) (s : Scene) : list string :=
  map dname (filter (fun m => negb (Nat.eqb (did m) d)) (meshes s)).

(** [list(bpy.data.objects)] *)
Definition bpy_data_objects : M (list Object) :=
  call (fun s => ok (objects s) s).

(** [obj.name], [obj.type], [obj.data], [obj.matrix_world],
    [obj.users_collection] *)
Definition get_name (o : nat) : M string := read_object o (fun _ => oname).
Definition get_type (o : nat) : M string := read_object o (fun _ => otype).
Definition get_data (o : nat) : M (option nat) := read_object o (fun _ => odata).
Definition get_matrix_world (o : nat) : M Xform :=
  read_object o (fun _ => matrix_world).
Definition get_users_collection (o : nat) : M (list CollRef) :=
  read_object o (fun _ => users_collection).

(** [obj.name = name] *)
Definition set_name (o : nat) (name : string) : M unit :=
  call (fun s => match find_object o s with
                 | Some _ =>
                     ok tt (update_object o
                              (with_oname (unique_name (other_object_names o s) name)) s)
                 | None => removed s
                 end).

(** [mesh.name = name] *)
Definition set_mesh_name (d : nat) (name : string) : M unit :=
  call (fun s => match find_mesh d s with
                 | Some _ =>
                     ok tt (update_mesh d
                              (with_dname (unique_name (other_mesh_names d s) name)) s)
                 | None => removed s
                 end).

(** [obj.matrix_world = m] *)
Definition set_matrix_world (o : nat) (m : Xform) : M unit :=
  write_object o (with_matrix_world m).

(** [mesh.copy()] *)
Definition mesh_copy (d : nat) : M nat :=
  call (fun s => match find_mesh d s with
                 | Some m =>
                     let d' := fresh (map did (meshes s)) in
                     let m' := mkMesh d' (unique_name (map dname (meshes s)) (dname m))
                                      (geom m) (materials m) (uv_layers m)
                                      (vertex_colors m) (shape_keys m) in
                     ok d' (set_meshes (meshes s ++ [m']) s)
                 | None => removed s
                 end).

(** [bpy.data.objects.new(name, mesh)] *)
Definition objects_new (name : string) (d : nat) : M nat :=
  call (fun s => match find_mesh d s with
                 | Some _ =>
                     let o := fresh (map oid (objects s)) in
                     let x := mkObject o (unique_name (object_names s) name) "MESH"
                                       (Some d) identity_matrix [] false [] in
                     ok o (set_objects (objects s ++ [x]) s)
                 | None => removed s
                 end).

Definition collection_alive (c : CollRef) (s : Scene) : bool :=
  match c with
  | SceneCollection => true
  | DataCollection i => match find_collection i s with
                        | Some _ => true
                        | None => false
                        end
  end.

(** [coll.objects.link(obj)] *)
Definition collection_objects_link (c : CollRef) (o : nat) : M unit :=
  call (fun s =>
          if collection_alive c s then
            match find_object o s with
            | Some x =>
                if linked_in c x
                then fail "RuntimeError" "Object already in collection" s
                else ok tt (update_object o
                              (fun y => with_users_collection (users_collection y ++ [c]) y) s)
            | None => removed s
            end
          else removed s).

(** [coll.objects.unlink(obj)] *)
Definition collection_objects_unlink (c : CollRef) (o : nat) : M unit :=
  call (fun s =>
          if collection_alive c s then
            match find_object o s with
            | Some x =>
                if linked_in c x
                then ok tt (update_object o
                              (fun y => with_users_collection
                                          (filter (fun r => negb (CollRef_eqb c r))
                                                  (users_collection y)) y) s)
                else fail "RuntimeError" "Object not in collection" s
            | None => removed s
            end
          else removed s).

(** [bpy.context.collection] *)
Definition context_collection : M CollRef :=
  call (fun s => ok (active_collection s) s).

(** [bpy.ops.object.select_all(action="DESELECT")] *)
Definition select_all_DESELECT : M unit :=
  call (fun s => ok tt (set_objects (map (with_selected false) (objects s)) s)).

(** [obj.select_set(b)] *)
Definition select_set (o : nat) (b : bool) : M unit :=
  write_object o (with_selected b).

(** [bpy.context.view_layer.objects.active = obj] *)
Definition set_active (o : nat) : M unit :=
  call (fun s => match find_object o s with
                 | Some _ => ok tt (set_active_object (Some o) s)
                 | None => removed s
                 end).

(** [bpy.context.active_object] *)
Definition context_active_object : M (option nat) :=
  call (fun s => ok (active_object s) s).

Definition geom_and_matrix (s : Scene) (x : Object) : list (Geom * Xform) :=
  match mesh_of s x with
  | Some m => [(geom m, matrix_world x)]
  | None => []
  end.

Fixpoint dedup (l : list string) : list string :=
  match l with
  | [] => []
  | a :: r => if mem a r then dedup r else a :: dedup r
  end.

(** [bpy.ops.object.join()]: the selected mesh objects are merged into the
    active one and removed. *)
Definition ops_object_join : M unit :=
  call (fun s =>
    match active_object s with
    | None => fail "RuntimeError" "Operator bpy.ops.object.join.poll() failed" s
    | Some a =>
        match find_object a s with
        | None => removed s
        | Some ax =>
            match mesh_of s ax with
            | Some am =>
                if is_mesh ax && selected ax then
                  let others :=
                    filter (fun x => selected x && is_mesh x && negb (Nat.eqb (oid x) a))
                           (objects s) in
                  let parts := flat_map (fun x => match mesh_of s x with
                                                  | Some m => [m] | None => [] end) others in
                  let joined :=
                    mkMesh (did am) (dname am)
                      (join_geom (geom am, matrix_world ax)
                                 (flat_map (geom_and_matrix s) others))
                      (dedup (materials am ++ flat_map materials parts))
                      (dedup (uv_layers am ++ flat_map uv_layers parts))
                      (dedup (vertex_colors am ++ flat_map vertex_colors parts))
                      (dedup (shape_keys am ++ flat_map shape_keys parts)) in
                  let kept :=
                    filter (fun x => negb (selected x && is_mesh x && negb (Nat.eqb (oid x) a)))
                           (objects s) in
                  ok tt (update_mesh (did am) (fun _ => joined) (set_objects kept s))
                else fail "RuntimeError" "Active object is not a selected mesh" s
            | None => fail "RuntimeError" "Active object is not a selected mesh" s
            end
        end
    end).

(** [bpy.ops.object.transform_apply(location=True, rotation=True,
    scale=True)]: the matrix of every selected mesh object is baked into its
    mesh data. *)
Definition bake (s : Scene) (x : Object) : Scene :=
  match odata x with
  | Some d =>
      update_mesh d (fun m => with_geom (transform_apply_geom (matrix_world x) (geom m)) m) s
  | None => s
  end.

Definition ops_object_transform_apply : M unit :=
  call (fun s =>
    let sel := filter (fun x => selected x && is_mesh x) (objects s) in
    let s1 := fold_left bake sel s in
    ok tt (set_objects
             (map (fun x => if selected x && is_mesh x
                            then with_matrix_world identity_matrix x else x)
                  (objects s1)) s1)).

(** [bpy.ops.object.origin_set(type="ORIGIN_GEOMETRY", center="BOUNDS")] *)
Definition recentre (s : Scene) (x : Object) : Scene :=
  match mesh_of s x with
  | Some m =>
      let '(g, mw) := origin_set_bounds (geom m) (matrix_world x) in
      update_object (oid x) (with_matrix_world mw)
        (update_mesh (did m) (with_geom g) s)
  | None => s
  end.

Definition ops_object_origin_set : M unit :=
  call (fun s =>
    ok tt (fold_left recentre
             (filter (fun x => selected x && is_mesh x) (objects s)) s)).

(** [obj.modifiers.new(name=..., type=...)]; the handle of the modifier is
    its name in the stack of the object. *)
Definition modifiers_new (o : nat) (name type : string) : M string :=
  call (fun s =>
    match find_object o s with
    | Some x =>
        let n := unique_name (map mod_name (modifiers x)) name in
        let m := mkModifier n type "COLLAPSE" 1 false in
        ok n (update_object o (fun y => with_modifiers (modifiers y ++ [m]) y) s)
    | None => removed s
    end).

Definition has_modifier (n : string) (x : Object) : bool :=
  existsb (fun m => String.eqb (mod_name m) n) (modifiers x).

(** A write to a field of a modifier. *)
Definition write_modifier (o : nat) (n : string) (f : Modifier -> Modifier)
  : M unit :=
  call (fun s =>
    match find_object o s with
    | Some x =>
        if has_modifier n x then
          ok tt (update_object o
                   (fun y => with_modifiers
                               (map (fun m => if String.eqb (mod_name m) n then f m else m)
                                    (modifiers y)) y) s)
        else removed s
    | None => removed s
    end).

Definition with_decimate_type (t : string) (m : Modifier) : Modifier :=
  mkModifier (mod_name m) (mod_type m) t (ratio m) (use_collapse_triangulate m).

Definition with_ratio (r : Q) (m : Modifier) : Modifier :=
  mkModifier (mod_name m) (mod_type m) (decimate_type m) r (use_collapse_triangulate m).

Definition with_use_collapse_triangulate (b : bool) (m : Modifier) : Modifier :=
  mkModifier (mod_name m) (mod_type m) (decimate_type m) (ratio m) b.

(** [mod.name] *)
Definition modifier_name (o : nat) (n : string) : M string :=
  call (fun s =>
    match find_object o s with
    | Some x => if has_modifier n x then ok n s else removed s
    | None => removed s
    end).

(** [bpy.ops.object.modifier_apply(modifier=n)]: the modifier of that name
    of the active object is applied to its mesh and leaves the stack. *)
Definition ops_object_modifier_apply (n : string) : M unit :=
  call (fun s =>
    match active_object s with
    | None => fail "RuntimeError" "Operator bpy.ops.object.modifier_apply.poll() failed" s
    | Some a =>
        match find_object a s with
        | None => removed s
        | Some x =>
            match find (fun m => String.eqb (mod_name m) n) (modifiers x), mesh_of s x with
            | Some m, Some me =>
                ok tt (update_object a
                         (fun y => with_modifiers
                                     (filter (fun k => negb (String.eqb (mod_name k) n))
                                             (modifiers y)) y)
                         (update_mesh (did me)
                            (fun k => with_geom (modifier_apply_geom m (geom k)) k) s))
            | _, _ => fail "RuntimeError" "Error: Modifier cannot be applied" s
            end
        end
    end).

(** [bpy.context.evaluated_depsgraph_get()] *)
Definition evaluated_depsgraph_get : M unit := call (fun s => ok tt s).

(** [obj.evaluated_get(depsgraph)]: the mesh data and the modifier stack the
    evaluation sees. *)
Definition evaluated_get (o : nat) : M (option Geom * list Modifier) :=
  read_object o (fun s x => (option_map geom (mesh_of s x), modifiers x)).

(** [len(eval_obj.to_mesh().loop_triangles)] *)
Definition to_mesh_loop_triangles (e : option Geom * list Modifier) : M Z :=
  call (fun s => match fst e with
                 | Some g => ok (loop_triangles g (snd e)) s
                 | None => fail "RuntimeError" "Object does not have geometry data" s
                 end).

(** [eval_obj.to_mesh_clear()] *)
Definition to_mesh_clear : M unit := call (fun s => ok tt s).

(** The name Blender gives to a new primitive. *)
Definition primitive_name (p : Primitive) : string :=
  match p with
  | primitive_uv_sphere _ _ _ => "Sphere"
  | primitive_cylinder _ _ => "Cylinder"
  | primitive_cube _ => "Cube"
  end.

(** [bpy.ops.mesh.primitive_*_add(...)]: a new mesh object in the active
    collection; it becomes the only selected object and the active one. *)
Definition primitive_add (p : Primitive) : M unit :=
  call (fun s =>
    let d := fresh (map did (meshes s)) in
    let o := fresh (map oid (objects s)) in
    let m := mkMesh d (unique_name (map dname (meshes s)) (primitive_name p))
                    (primitive_geom p) [] ["UVMap"] [] [] in
    let x := mkObject o (unique_name (object_names s) (primitive_name p)) "MESH"
                      (Some d) cursor_matrix [] true [active_collection s] in
    ok tt (mkScene (map (with_selected false) (objects s) ++ [x])
                   (meshes s ++ [m]) (collections s) (scene_children s)
                   (Some o) (active_collection s))).

(** [obj.scale = v], [obj.location = v] *)
Definition set_object_scale (o : nat) (v : vec3) : M unit :=
  write_object o (fun x => with_matrix_world (set_scale v (matrix_world x)) x).

Definition set_object_location (o : nat) (v : vec3) : M unit :=
  write_object o (fun x => with_matrix_world (set_location v (matrix_world x)) x).

(** [obj.bound_box] *)
Definition get_bound_box (o : nat) : M (list vec3) :=
  read_object o (fun s x => match mesh_of s x with
                            | Some m => bound_box (geom m)
                            | None => repeat (0, 0, 0)%Q 8
                            end).

(** [obj.location.z], [obj.location.z = z] *)
Definition get_location_z (o : nat) : M Q :=
  read_object o (fun _ x => location_z (matrix_world x)).

Definition set_object_location_z (o : nat) (z : Q) : M unit :=
  write_object o (fun x => with_matrix_world (set_location_z z (matrix_world x)) x).

(** [mesh.materials.clear()] *)
Definition materials_clear (d : nat) : M unit := write_mesh d (with_materials []).

(** [mesh.uv_layers] and [mesh.vertex_colors], read as a list of layers. *)
Definition get_uv_layers (d : nat) : M (list string) := read_mesh d uv_layers.
Definition get_vertex_colors (d : nat) : M (list string) := read_mesh d vertex_colors.

(** The first occurrence of a layer is taken out. *)
Fixpoint remove_first (n : string) (l : list string) : list string :=
  match l with
  | [] => []
  | a :: r => if String.eqb a n then r else a :: remove_first n r
  end.

(** [layers.remove(layer)], for the UV layers or the vertex colours of a
    mesh. *)
Definition layers_remove (field : Mesh -> list string)
           (with_field : list string -> Mesh -> Mesh) (d : nat) (layer : string)
  : M unit :=
  call (fun s =>
    match find_mesh d s with
    | Some m =>
        if mem layer (field m)
        then ok tt (update_mesh d (fun k => with_field (remove_first layer (field k)) k) s)
        else fail "RuntimeError" "layer not found" s
    | None => removed s
    end).

(** [mesh.uv_layers.remove(layer)] *)
Definition uv_layers_remove : nat -> string -> M unit :=
  layers_remove uv_layers with_uv_layers.

(** [mesh.vertex_colors.remove(layer)] *)
Definition vertex_colors_remove : nat -> string -> M unit :=
  layers_remove vertex_colors with_vertex_colors.

(** [mesh.shape_keys], read as the list of key blocks ([None] is the empty
    list). *)
Definition get_shape_keys (d : nat) : M (list string) := read_mesh d shape_keys.

(** [obj.shape_key_clear()] *)
Definition shape_key_clear (o : nat) : M unit :=
  call (fun s =>
    match find_object o s with
    | Some x =>
        match odata x with
        | Some d => ok tt (update_mesh d (with_shape_keys []) s)
        | None => ok tt s
        end
    | None => removed s
    end).

(** [bpy.data.collections.new(name)] *)
Definition collections_new (name : string) : M nat :=
  call (fun s =>
    let c := fresh (map cid_of (collections s)) in
    let k := mkCollection c (unique_name (map cname (collections s)) name) in
    ok c (mkScene (objects s) (meshes s) (collections s ++ [k])
                  (scene_children s) (active_object s) (active_collection s))).

(** [bpy.context.scene.collection.children.link(collection)] *)
Definition scene_collection_children_link (c : nat) : M unit :=
  call (fun s =>
    match find_collection c s with
    | Some _ =>
        if existsb (Nat.eqb c) (scene_children s)
        then fail "RuntimeError" "Collection already in collection" s
        else ok tt (mkScene (objects s) (meshes s) (collections s)
                            (scene_children s ++ [c]) (active_object s)
                            (active_collection s))
    | None => removed s
    end).

(** [list(bpy.data.collections)] *)
Definition bpy_data_collections : M (list nat) :=
  call (fun s => ok (map cid_of (collections s)) s).

(** [coll.name] *)
Definition collection_name (c : nat) : M string :=
  call (fun s => match find_collection c s with
                 | Some k => ok (cname k) s
                 | None => removed s
                 end).

(** [list(coll.objects)] *)
Definition list_collection_objects (c : CollRef) : M (list nat) :=
  call (fun s => if collection_alive c s
                 then ok (map oid (collection_objects c s)) s
                 else removed s).

(** [bpy.data.objects.remove(obj, do_unlink=True)] *)
Definition objects_remove (o : nat) : M unit :=
  call (fun s =>
    match find_object o s with
    | Some _ =>
        ok tt (mkScene (filter (fun x => negb (Nat.eqb (oid x) o)) (objects s))
                       (meshes s) (collections s) (scene_children s)
                       (match active_object s with
                        | Some a => if Nat.eqb a o then None else Some a
                        | None => None
                        end)
                       (active_collection s))
    | None => removed s
    end).

(** [bpy.data.collections.remove(coll)]: the objects that were linked in it
    stay in [bpy.data.objects], unlinked from it. *)
Definition collections_remove (c : nat) : M unit :=
  call (fun s =>
    match find_collection c s with
    | Some _ =>
        ok tt (mkScene
                 (map (fun x => with_users_collection
                                  (filter (fun r => negb (CollRef_eqb (DataCollection c) r))
                                          (users_collection x)) x)
                      (objects s))
                 (meshes s)
                 (filter (fun k => negb (Nat.eqb (cid_of k) c)) (collections s))
                 (filter (fun k => negb (Nat.eqb k c)) (scene_children s))
                 (active_object s)
                 (if CollRef_eqb (DataCollection c) (active_collection s)
                  then SceneCollection else active_collection s))
    | None => removed s
    end).

Definition node_of (s : Scene) (x : Object) : Node :=
  mkNode (oname x) (otype x) (option_map geom (mesh_of s x)) (modifiers x)
         (matrix_world x).

(** [bpy.ops.export_scene.gltf(filepath=..., export_format="GLB",
    use_selection=True, ...)]: the selected objects go to the file. *)
Definition export_scene_gltf (filepath : Path) : M unit :=
  call_out (fun s =>
    (Ok tt, s, [ExportGLB filepath (map (node_of s) (filter selected (objects s)))])).

(** [path.mkdir(parents=True, exist_ok=True)] *)
Definition mkdir (p : Path) : M unit :=
  call_out (fun s => (Ok tt, s, [Mkdir p])).

End Api.

(* ================================================================== *)
(** * The script *)
(* ================================================================== *)

Section Script.
Context {host : Host}.

(** ** Control *)

Fixpoint for_each {A} (l : list A) (body : A -> M unit) : M unit :=
  match l with
  | [] => ret tt
  | a :: r => body a ;; for_each r body
  end.

Fixpoint for_collect {A B} (l : list A) (body : A -> M B) : M (list B) :=
  match l with
  | [] => ret []
  | a :: r => b <- body a ;; bs <- for_collect r body ;; ret (b :: bs)
  end.

Fixpoint for_fold {A S} (l : list A) (acc : S) (body : S -> A -> M S) : M S :=
  match l with
  | [] => ret acc
  | a :: r => acc' <- body acc a ;; for_fold r acc' body
  end.

(** [while cond: body], with the fuel a total function needs. *)
Fixpoint while (fuel : nat) (cond : M bool) (body : M unit) : M unit :=
  match fuel with
  | O => fun w => (OutOfFuel, w)
  | S k => c <- cond ;; if c then (body ;; while k cond body) else ret tt
  end.

Definition is_Exception (e : exn) : bool :=
  match e with
  | Exception _ _ => true
  | SystemExit _ => false
  end.

Definition finally_ {A} (r : res A) (final : M unit) : M A := fun w =>
  match final w with
  | (Ok _, w') => (r, w')
  | (Raise e, w') => (Raise e, w')
  | (OutOfFuel, w') => (OutOfFuel, w')
  end.

(** [try: body / except Exception as e: handler(e) / finally: final] *)
Definition try_except_finally {A} (body : M A) (handler : exn -> M A)
           (final : M unit) : M A := fun w =>
  match body w with
  | (OutOfFuel, w1) => (OutOfFuel, w1)
  | (Ok a, w1) => finally_ (Ok a) final w1
  | (Raise e, w1) =>
      if is_Exception e then
        match handler e w1 with
        | (OutOfFuel, w2) => (OutOfFuel, w2)
        | (r, w2) => finally_ r final w2
        end
      else finally_ (Raise e) final w1
  end.

(** [sys.exit(code)] *)
Definition sys_exit {A} (code : Z) : M A := raise (SystemExit code).

(** [traceback.print_exc()] *)
Definition traceback_print_exc (e : exn) : M unit := fun w =>
  (Ok tt, mkWorld (scene w) (trace w ++ [Traceback e]) (faults w)).

(** [str(e)] *)
Definition str_of_exn (e : exn) : string :=
  match e with
  | Exception _ msg => msg
  | SystemExit code => str_of_Z code
  end.

(** ** Utility functions *)

Definition log (message : list Part) (level : string) : M unit := fun w =>
  (Ok tt, mkWorld (scene w) (trace w ++ [Printed level message]) (faults w)).

(** The inner loop of [find_meshes_by_pattern], with its [break]. *)
Fixpoint any_pattern (patterns : list string) (name_lower : string) : bool :=
  match patterns with
  | [] => false
  | pattern :: rest =>
      if str_in (lower pattern) name_lower then true
      else any_pattern rest name_lower
  end.

(** The outer loop, with its [continue]. *)
Fixpoint matches (patterns : list string) (objs : list Object) : list Object :=
  match objs with
  | [] => []
  | obj :: rest =>
      if negb (String.eqb (otype obj) "MESH") then matches patterns rest
      else if any_pattern patterns (lower (oname obj))
           then obj :: matches patterns rest
           else matches patterns rest
  end.

Definition find_meshes_by_pattern (patterns : list string) : M (list nat) :=
  objs <- bpy_data_objects ;;
  ret (map oid (matches patterns objs)).

Definition get_mesh_triangle_count (obj : nat) : M Z :=
  t <- get_type obj ;;
  if negb (String.eqb t "MESH") then ret 0%Z
  else
    evaluated_depsgraph_get ;;
    eval_obj <- evaluated_get obj ;;
    tri_count <- to_mesh_loop_triangles eval_obj ;;
    to_mesh_clear ;;
    ret tri_count.

Definition duplicate_object (obj : nat) (name : string) : M nat :=
  data <- get_data obj ;;
  data <- the data ;;
  new_mesh <- mesh_copy data ;;
  set_mesh_name new_mesh name ;;
  new_obj <- objects_new name new_mesh ;;
  m <- get_matrix_world obj ;;
  set_matrix_world new_obj m ;;
  coll <- context_collection ;;
  collection_objects_link coll new_obj ;;
  ret new_obj.

Definition join_meshes (objs : list nat) (name : string) : M (option nat) :=
  match objs with
  | [] => ret None
  | [obj] => result <- duplicate_object obj name ;; ret (Some result)
  | first :: _ =>
      select_all_DESELECT ;;
      duplicates <- for_collect objs (fun obj =>
                      dup <- duplicate_object obj (name ++ "_part") ;;
                      select_set dup true ;;
                      ret dup) ;;
      set_active (hd first duplicates) ;;
      ops_object_join ;;
      result <- context_active_object ;;
      result <- the result ;;
      set_name result name ;;
      data <- get_data result ;;
      data <- the data ;;
      set_mesh_name data name ;;
      ret (Some result)
  end.

Definition decimate_mesh (obj : nat) (target_triangles : Z) : M unit :=
  current_tris <- get_mesh_triangle_count obj ;;
  if (current_tris <=? target_triangles)%Z then
    name <- get_name obj ;;
    log [Str ("  " ++ name ++ ": " ++ str_of_Z current_tris
                   ++ " tris (no decimation needed)")] "INFO"
  else
    if (current_tris =? 0)%Z
    then raise (Exception "ZeroDivisionError" "division by zero")
    else
      let ratio := (inject_Z target_triangles / inject_Z current_tris)%Q in
      md <- modifiers_new obj "Decimate" "DECIMATE" ;;
      write_modifier obj md (with_decimate_type "COLLAPSE") ;;
      write_modifier obj md (with_ratio ratio) ;;
      write_modifier obj md (with_use_collapse_triangulate true) ;;
      set_active obj ;;
      mname <- modifier_name obj md ;;
      ops_object_modifier_apply mname ;;
      new_tris <- get_mesh_triangle_count obj ;;
      name <- get_name obj ;;
      log [Str ("  " ++ name ++ ": " ++ str_of_Z current_tris ++ " -> "
                     ++ str_of_Z new_tris ++ " tris (ratio: ");
           Float3 ratio; Str ")"] "INFO".

Definition apply_all_transforms (obj : nat) : M unit :=
  set_active obj ;;
  select_set obj true ;;
  ops_object_transform_apply ;;
  select_set obj false.

Definition nonempty {A} (l : list A) : bool :=
  match l with [] => false | _ => true end.

(** [while layers: layers.remove(layers[0])] *)
Definition clear_layers (fuel : nat) (layers : M (list string))
           (remove : string -> M unit) : M unit :=
  while fuel (l <- layers ;; ret (nonempty l))
        (l <- layers ;;
         match l with
         | layer :: _ => remove layer
         | [] => raise (Exception "IndexError"
                                  "bpy_prop_collection[index]: index 0 out of range")
         end).

Definition cleanup_mesh (fuel : nat) (obj : nat) : M unit :=
  mesh <- get_data obj ;;
  mesh <- the mesh ;;
  materials_clear mesh ;;
  clear_layers fuel (get_uv_layers mesh) (uv_layers_remove mesh) ;;
  clear_layers fuel (get_vertex_colors mesh) (vertex_colors_remove mesh) ;;
  data <- get_data obj ;;
  data <- the data ;;
  keys <- get_shape_keys data ;;
  if nonempty keys then shape_key_clear obj else ret tt.

(** [min] of a sequence of floats: the first least element. *)
Definition py_min (l : list Q) : M Q :=
  match l with
  | [] => raise (Exception "ValueError" "min() arg is an empty sequence")
  | a :: r => ret (fold_left (fun m x => if Qle_bool m x then m else x) r a)
  end.

Definition center_origin_to_floor (obj : nat) : M unit :=
  set_active obj ;;
  select_set obj true ;;
  ops_object_origin_set ;;
  corners <- get_bound_box obj ;;
  bbox <- for_collect corners (fun corner =>
            m <- get_matrix_world obj ;; ret (matmul m corner)) ;;
  min_z <- py_min (map (fun v => snd v) bbox) ;;
  z <- get_location_z obj ;;
  set_object_location_z obj (z - min_z)%Q ;;
  select_set obj false.

(** ** Main extraction logic *)

Definition create_placeholder_mesh (name : string) : M nat :=
  obj <- (if String.eqb name "Body" then
            primitive_add (primitive_uv_sphere 1 32 16) ;;
            obj <- context_active_object ;;
            obj <- the obj ;;
            set_object_scale obj (3 # 10, 1 # 4, 4 # 5)%Q ;;
            ret obj
          else if String.eqb name "Heart" then
            primitive_add (primitive_uv_sphere (1 # 10) 16 8) ;;
            obj <- context_active_object ;;
            obj <- the obj ;;
            set_object_location obj (0, 0, 1 # 2)%Q ;;
            ret obj
          else if String.eqb name "Brain" then
            primitive_add (primitive_uv_sphere (3 # 20) 24 12) ;;
            obj <- context_active_object ;;
            obj <- the obj ;;
            set_object_location obj (0, 0, 9 # 10)%Q ;;
            ret obj
          else if String.eqb name "Veins" then
            primitive_add (primitive_cylinder (1 # 100) 1) ;;
            obj <- context_active_object ;;
            the obj
          else
            primitive_add (primitive_cube (1 # 2)) ;;
            obj <- context_active_object ;;
            the obj) ;;
  set_name obj name ;;
  data <- get_data obj ;;
  data <- the data ;;
  set_mesh_name data name ;;
  log [Str ("  Created placeholder for " ++ name)] "WARN" ;;
  ret obj.

(** The dict of the extracted meshes: a value is an object, or [None]. *)
Definition meshes_dict : Type := list (string * option nat).

(** The body of the loop of [extract_anatomy_meshes]. *)
Definition extract_one (extracted : meshes_dict) (item : string * list string)
  : M meshes_dict :=
  let '(mesh_name, patterns) := item in
  found <- find_meshes_by_pattern patterns ;;
  match found with
  | [] =>
      log [Str ("  " ++ mesh_name ++ ": NOT FOUND - will create placeholder")] "WARN" ;;
      obj <- create_placeholder_mesh mesh_name ;;
      ret (dict_set extracted mesh_name (Some obj))
  | _ =>
      log [Str ("  " ++ mesh_name ++ ": Found " ++ str_of_nat (List.length found)
                     ++ " matching objects")] "INFO" ;;
      for_each (firstn 5 found) (fun obj =>
        name <- get_name obj ;; log [Str ("    - " ++ name)] "INFO") ;;
      joined <- join_meshes found mesh_name ;;
      ret (dict_set extracted mesh_name joined)
  end.

Definition extract_anatomy_meshes : M meshes_dict :=
  log [Str "Searching for anatomy meshes in Z-Anatomy..."] "INFO" ;;
  for_fold MESH_PATTERNS [] extract_one.

Definition process_meshes (fuel : nat) (meshes : meshes_dict) : M unit :=
  log [Str "Processing meshes..."] "INFO" ;;
  for_each meshes (fun '(name, obj) =>
    log [Str ("Processing " ++ name ++ "...")] "INFO" ;;
    obj <- the obj ;;
    apply_all_transforms obj ;;
    let target := dict_get TARGET_TRIANGLES name 20000%Z in
    decimate_mesh obj target ;;
    cleanup_mesh fuel obj ;;
    apply_all_transforms obj).

Definition create_pose_collection (meshes : meshes_dict) (pose_name : string)
  : M nat :=
  log [Str ("Creating " ++ pose_name ++ " pose collection...")] "INFO" ;;
  collection <- collections_new ("HumanLayer_" ++ pose_name) ;;
  scene_collection_children_link collection ;;
  for_each meshes (fun '(name, source_obj) =>
    source_obj <- the source_obj ;;
    new_obj <- duplicate_object source_obj name ;;
    colls <- get_users_collection new_obj ;;
    for_each colls (fun coll => collection_objects_unlink coll new_obj) ;;
    collection_objects_link (DataCollection collection) new_obj) ;;
  ret collection.

Definition export_collection_to_glb (collection : nat) (output_path : Path)
  : M unit :=
  log [Str "Exporting to "; PathStr output_path; Str "..."] "INFO" ;;
  select_all_DESELECT ;;
  objs <- list_collection_objects (DataCollection collection) ;;
  for_each objs (fun obj => select_set obj true) ;;
  export_scene_gltf output_path ;;
  log [Str "  Exported: "; PathStr output_path] "INFO".

Definition cleanup_scene : M unit :=
  colls <- bpy_data_collections ;;
  for_each colls (fun coll =>
    name <- collection_name coll ;;
    if startswith name "HumanLayer_" then
      objs <- list_collection_objects (DataCollection coll) ;;
      for_each objs (fun obj => objects_remove obj) ;;
      collections_remove coll
    else ret tt).

(** ** Entry point *)

(** [argv.index(x)] *)
Fixpoint index_of (x : string) (l : list string) : option nat :=
  match l with
  | [] => None
  | a :: r => if String.eqb a x then Some 0%nat
              else option_map S (index_of x r)
  end.

(** The arguments after the first ["--"]; none without it. *)
Definition script_args (argv : list string) : list string :=
  match index_of "--" argv with
  | Some i => skipn (i + 1) argv
  | None => []
  end.

(** One turn of the loop over [enumerate(argv)] that reads [--output]. *)
Definition read_output (argv : list string) (output_dir : string)
           (item : nat * string) : string :=
  let '(i, arg) := item in
  if String.eqb arg "--output" && (i + 1 <? List.length argv)%nat
  then nth (i + 1) argv ""
  else output_dir.

Definition parse_output (argv : list string) : string :=
  fold_left (read_output argv) (combine (seq 0 (List.length argv)) argv)
            "public/models/human".

(** The body of the [try] of [main]. *)
Definition main_try (fuel : nat) (output_path : Path) : M unit :=
  meshes <- extract_anatomy_meshes ;;
  process_meshes fuel meshes ;;
  for_each (values meshes) (fun obj => obj <- the obj ;; center_origin_to_floor obj) ;;
  open_collection <- create_pose_collection meshes "open" ;;
  closed_collection <- create_pose_collection meshes "closed" ;;
  export_collection_to_glb open_collection (Child output_path "pose-open.glb") ;;
  export_collection_to_glb closed_collection (Child output_path "pose-closed.glb") ;;
  log [Str (str_repeat "=" 60)] "INFO" ;;
  log [Str "Export complete!"] "INFO" ;;
  log [Str (str_repeat "=" 60)] "INFO" ;;
  log [Str ""] "INFO" ;;
  log [Str "Next steps:"] "INFO" ;;
  log [Str "1. Run: npm run validate-models"] "INFO" ;;
  log [Str "2. Test in the visualizer with an audio file"] "INFO" ;;
  log [Str ""] "INFO".

(** The [except Exception as e] of [main]. *)
Definition main_except (e : exn) : M unit :=
  log [Str ("Error: " ++ str_of_exn e)] "ERROR" ;;
  traceback_print_exc e ;;
  sys_exit 1.

Definition output_dir_of (argv : list string) : string :=
  parse_output (script_args argv).

(** The statements of [main] that come before its [try]. *)
Definition main_prologue (argv : list string) : M Path :=
  log [Str (str_repeat "=" 60)] "INFO" ;;
  log [Str "Z-Anatomy Model Extractor"] "INFO" ;;
  log [Str (str_repeat "=" 60)] "INFO" ;;
  let output_dir := output_dir_of argv in
  let output_path := PurePath output_dir in
  mkdir output_path ;;
  log [Str "Output directory: "; Absolute output_path] "INFO" ;;
  ret output_path.

Definition main (fuel : nat) (argv : list string) : M unit :=
  output_path <- main_prologue argv ;;
  try_except_finally (main_try fuel output_path) main_except cleanup_scene.

(** The exit code of the interpreter for an outcome of [main]: 0 after a
    return, the code of a [SystemExit], 1 after an exception nobody
    caught. *)
Definition exit_code (r : res unit) : option Z :=
  match r with
  | Ok _ => Some 0%Z
  | Raise (SystemExit code) => Some code
  | Raise (Exception _ _) => Some 1%Z
  | OutOfFuel => None
  end.

End Script.

(* ================================================================== *)
(** * Specifications of runs *)
(* ================================================================== *)

Section Logic.
Context {host : Host}.

(** [hoare P m Q X]: from a world in [P], [m] returns a value and a world
    in [Q], or stops (by an exception or for lack of fuel) in a world in
    [X]. *)
Definition hoare {A} (P : World -> Prop) (m : M A) (Q : A -> World -> Prop)
           (X : World -> Prop) : Prop :=
  forall w, P w ->
    match m w with
    | (Ok a, w') => Q a w'
    | (_, w') => X w'
    end.

(** [stable I m]: [m] keeps [I], however it ends. *)
Definition stable {A} (I : World -> Prop) (m : M A) : Prop :=
  hoare I m (fun _ => I) I.

(** A property of the scene alone. *)
Definition on_scene (I : Scene -> Prop) : World -> Prop :=
  fun w => I (scene w).

(** The run from [w] to [w'] has added [t] to the trace. *)
Definition emitted (w w' : World) (t : list Effect) : Prop :=
  trace w' = trace w ++ t.

(** Everything added to the trace [t0] so far is in [phi]. *)
Definition emits (phi : Effect -> Prop) (t0 : list Effect) : World -> Prop :=
  fun w => exists t, trace w = t0 ++ t /\ Forall phi t.

(** The host never fails from here on. *)
Definition quiet (w : World) : Prop := faults w = [].

(** The world after a call that has left the scene [s]. *)
Definition tick (w : World) (s : Scene) : World :=
  mkWorld s (trace w) (tl (faults w)).

(** [m] always ends, and by nothing but a return or an exception of class
    [Exception]. *)
Definition ends_plainly {A} (m : M A) : Prop :=
  forall w, match fst (m w) with
            | Ok _ => True
            | Raise e => is_Exception e = true
            | OutOfFuel => False
            end.

(** The number of triangles [get_mesh_triangle_count] finds for an object
    of the scene, when the evaluation has geometry to work on. *)
Definition triangle_count (s : Scene) (x : Object) : option Z :=
  if is_mesh x
  then option_map (fun m => loop_triangles (geom m) (modifiers x)) (mesh_of s x)
  else Some 0%Z.

(** The target [process_meshes] passes to [decimate_mesh] for a name. *)
Definition target_of (name : string) : Z :=
  dict_get TARGET_TRIANGLES name 20000%Z.

Definition is_export (e : Effect) : bool :=
  match e with
  | ExportGLB _ _ => true
  | _ => false
  end.

(** An export goes to a file of the directory [p]; nothing is said of the
    other effects. *)
Definition under_dir (p : Path) (e : Effect) : Prop :=
  match e with
  | ExportGLB q _ => exists name, q = Child p name
  | _ => True
  end.

(** ** Collections made for the poses *)

Definition humanlayer (k : Collection) : bool :=
  startswith (cname k) "HumanLayer_".

(** The reference [r] is to a collection that does not exist or whose name
    starts with [HumanLayer_]. *)
Definition in_humanlayer (s : Scene) (r : CollRef) : bool :=
  match r with
  | SceneCollection => false
  | DataCollection c =>
      match find_collection c s with
      | Some k => humanlayer k
      | None => true
      end
  end.

(** Every collection the object is linked in exists and is none of the
    [HumanLayer_] collections. *)
Definition outside_humanlayer (s : Scene) (x : Object) : bool :=
  forallb (fun r => negb (in_humanlayer s r)) (users_collection x).

(** The handle [o] is that of an object of the scene, and the objects of
    that handle are outside the [HumanLayer_] collections. *)
Definition kept_apart (s : Scene) (o : nat) : bool :=
  existsb (fun x => Nat.eqb (oid x) o) (objects s)
  && forallb (fun x => if Nat.eqb (oid x) o then outside_humanlayer s x else true)
             (objects s).

(** [coll.objects.unlink] on the record of an object. *)
Definition unlinked (c : CollRef) (x : Object) : Object :=
  with_users_collection
    (filter (fun r => negb (CollRef_eqb c r)) (users_collection x)) x.

(** The object is linked in a [HumanLayer_] collection of the scene. *)
Definition linked_in_humanlayer (s : Scene) (x : Object) : bool :=
  existsb (fun k => humanlayer k && linked_in (DataCollection (cid_of k)) x)
          (collections s).

(** The handles of the collections name one collection each. *)
Definition distinct_collections (s : Scene) : Prop :=
  NoDup (map cid_of (collections s)).

(** The objects of [s0] that are linked in a [HumanLayer_] collection. *)
Definition doomed (s0 : Scene) (o : nat) : Prop :=
  exists x, In x (objects s0) /\ oid x = o /\ linked_in_humanlayer s0 x = true.

(** What is left to clean when the collections [l] are still to be
    visited. *)
Definition to_clean (s0 : Scene) (l : list nat) (w : World) : Prop :=
  distinct_collections (scene w)
  /\ (forall k, In k (collections (scene w)) -> humanlayer k = true ->
                In (cid_of k) l)
  /\ (forall o, doomed s0 o -> In o (map oid (objects (scene w))) ->
                exists x k, In x (objects (scene w)) /\ oid x = o
                            /\ In k (collections (scene w)) /\ humanlayer k = true
                            /\ linked_in (DataCollection (cid_of k)) x = true).

(** The objects listed for removal are gone or yet to be removed; the
    others stay. *)
Definition removing (s : Scene) (objs rest : list nat) (w : World) : Prop :=
  incl rest objs
  /\ collections (scene w) = collections s
  /\ (forall x, In x (objects (scene w)) -> In x (objects s))
  /\ (forall x, In x (objects s) -> In (oid x) objs ->
                In (oid x) rest \/ ~ In (oid x) (map oid (objects (scene w))))
  /\ (forall x, In x (objects s) -> ~ In (oid x) objs -> In x (objects (scene w))).

(** The handles of the objects with the collections they are linked in. *)
Definition links (s : Scene) : list (nat * list CollRef) :=
  map (fun x => (oid x, users_collection x)) (objects s).

(** The objects of handle [o] are not selected. *)
Definition unselected (s : Scene) (o : nat) : bool :=
  forallb (fun x => if Nat.eqb (oid x) o then negb (selected x) else true)
          (objects s).

(** The objects of handle [o] are there and outside the [HumanLayer_]
    collections. *)
Definition kept (o : nat) : World -> Prop :=
  on_scene (fun s => kept_apart s o = true).

Definition kept_unselected (o : nat) : World -> Prop :=
  on_scene (fun s => kept_apart s o = true /\ unselected s o = true).

Definition unsel (o : nat) : World -> Prop :=
  on_scene (fun s => unselected s o = true).

(** ** Well-formed scenes *)

(** A mesh object has mesh data. *)
Definition has_mesh (s : Scene) (x : Object) : bool :=
  match mesh_of s x with
  | Some _ => true
  | None => negb (is_mesh x)
  end.

(** An object has one handle, mesh objects have their data, and the active
    collection exists. *)
Definition well_formed (s : Scene) : Prop :=
  NoDup (map oid (objects s))
  /\ forallb (has_mesh s) (objects s) = true
  /\ collection_alive (active_collection s) s = true.

(** ** What [extract_anatomy_meshes] makes *)

(** The copy of the mesh [m] under the name asked for, and the copy of the
    object [x] on it. *)
Definition mesh_duplicate (s : Scene) (name : string) (m : Mesh) : Mesh :=
  mkMesh (fresh (map did (meshes s))) (unique_name (map dname (meshes s)) name)
         (geom m) (materials m) (uv_layers m) (vertex_colors m) (shape_keys m).

Definition object_duplicate (s : Scene) (name : string) (x : Object) : Object :=
  mkObject (fresh (map oid (objects s))) (unique_name (object_names s) name) "MESH"
           (Some (fresh (map did (meshes s)))) (matrix_world x) [] false
           [active_collection s].

Definition duplicated (s : Scene) (name : string) (x : Object) (m : Mesh) : Scene :=
  mkScene (objects s ++ [object_duplicate s name x])
          (meshes s ++ [mesh_duplicate s name m])
          (collections s) (scene_children s) (active_object s) (active_collection s).

(** [s'] is [s] with the selected duplicates [extra] at the end, each on a
    new mesh. *)
Definition duplicates_of (s s' : Scene) (extra : list Object) : Prop :=
  objects s' = objects s ++ extra
  /\ (exists ms, meshes s' = meshes s ++ ms)
  /\ (forall y, In y extra ->
        selected y = true /\ is_mesh y = true
        /\ exists d m, odata y = Some d /\ find_mesh d s' = Some m
                       /\ ~ In d (map did (meshes s)))
  /\ NoDup (map oid (objects s'))
  /\ collections s' = collections s
  /\ active_collection s' = active_collection s.

Definition duplicable (s : Scene) (o : nat) : Prop :=
  exists x d m, find_object o s = Some x /\ odata x = Some d
                /\ find_mesh d s = Some m.

(** The objects are the same but for which of them are selected. *)
Definition same_but_selection (l l' : list Object) : Prop :=
  map (with_selected false) l' = map (with_selected false) l.

(** [s'] is [s] with one new mesh object [x] at its end: the objects of [s]
    are as they were but for their selection, and so are its meshes, its
    collections and its active collection. *)
Definition extended (s s' : Scene) (x : Object) : Prop :=
  (exists old, objects s' = old ++ [x] /\ same_but_selection (objects s) old)
  /\ ~ In (oid x) (map oid (objects s))
  /\ is_mesh x = true
  /\ (exists d m, odata x = Some d /\ find_mesh d s' = Some m)
  /\ (forall d m, find_mesh d s = Some m -> find_mesh d s' = Some m)
  /\ collections s' = collections s
  /\ active_collection s' = active_collection s.

(** The primitive the script adds in place of the mesh [name]. *)
Definition placeholder_primitive (name : string) : Primitive :=
  if String.eqb name "Body" then primitive_uv_sphere 1 32 16
  else if String.eqb name "Heart" then primitive_uv_sphere (1 # 10) 16 8
  else if String.eqb name "Brain" then primitive_uv_sphere (3 # 20) 24 12
  else if String.eqb name "Veins" then primitive_cylinder (1 # 100) 1
  else primitive_cube (1 # 2).

(** The mesh object [primitive_add] makes, and its mesh. *)
Definition primitive_object (s : Scene) (p : Primitive) : Object :=
  mkObject (fresh (map oid (objects s)))
           (unique_name (object_names s) (primitive_name p)) "MESH"
           (Some (fresh (map did (meshes s)))) cursor_matrix [] true
           [active_collection s].

Definition primitive_mesh (s : Scene) (p : Primitive) : Mesh :=
  mkMesh (fresh (map did (meshes s)))
         (unique_name (map dname (meshes s)) (primitive_name p))
         (primitive_geom p) [] ["UVMap"] [] [].

Definition with_primitive (s : Scene) (p : Primitive) (x : Object) : Scene :=
  mkScene (map (with_selected false) (objects s) ++ [x])
          (meshes s ++ [primitive_mesh s p]) (collections s) (scene_children s)
          (Some (fresh (map oid (objects s)))) (active_collection s).

(** The primitive as the script scales or moves it. *)
Definition placeholder_moved (name : string) (x : Object) : Object :=
  if String.eqb name "Body" then
    with_matrix_world (set_scale (3 # 10, 1 # 4, 4 # 5)%Q (matrix_world x)) x
  else if String.eqb name "Heart" then
    with_matrix_world (set_location (0, 0, 1 # 2)%Q (matrix_world x)) x
  else if String.eqb name "Brain" then
    with_matrix_world (set_location (0, 0, 9 # 10)%Q (matrix_world x)) x
  else x.

(** The object [x] is on a mesh that is the primitive made for [name]. *)
Definition placeholder_of (name : string) (s : Scene) (x : Object) : Prop :=
  exists d m, odata x = Some d /\ find_mesh d s = Some m
              /\ geom m = primitive_geom (placeholder_primitive name).

(** A line of the log that is no error. *)
Definition is_note (e : Effect) : bool :=
  match e with
  | Printed level _ => String.eqb level "INFO" || String.eqb level "WARN"
  | _ => false
  end.

(** The two lines logged for a mesh that is replaced. *)
Definition placeholder_warnings (name : string) : list Effect :=
  [ Printed "WARN" [Str ("  " ++ name ++ ": NOT FOUND - will create placeholder")];
    Printed "WARN" [Str ("  Created placeholder for " ++ name)] ].

(** The characters a name made from [key] can hold, in lower case: those of
    the key, and those of a numeric suffix. *)
Definition name_chars (key : string) : list ascii :=
  list_ascii_of_string (lower key) ++ list_ascii_of_string ".0123456789".

(** The pattern holds a character that is not among [allowed]. *)
Definition foreign (allowed : list ascii) (pattern : string) : bool :=
  existsb (fun c => negb (existsb (Ascii.eqb c) allowed))
          (list_ascii_of_string (lower pattern)).

(** No pattern of an entry can be found in a name made from the key of an
    entry before it. *)
Fixpoint apart (table : list (string * list string)) : bool :=
  match table with
  | [] => true
  | (made, _) :: later =>
      forallb (fun '(_, patterns) => forallb (foreign (name_chars made)) patterns)
              later
      && apart later
  end.

(** The patterns of each key find the key itself. *)
Definition matches_itself (table : list (string * list string)) : bool :=
  forallb (fun '(key, patterns) => any_pattern patterns (lower key)) table.

(** [name] is [key], or [key] with a number. *)
Definition shaped (key name : string) : Prop :=
  name = key \/ exists k, name = numbered key k.

(** The characters of a numeric suffix. *)
Definition digit_chars : list ascii := list_ascii_of_string ".0123456789".

(** No object of the scene has a name that one of the patterns finds. *)
Definition unmatched (s : Scene) (patterns : list string) : Prop :=
  forall y, In y (objects s) -> any_pattern patterns (lower (oname y)) = false.

(** The objects of [s'] have names of objects of [s], or names made from the
    keys [made]. *)
Definition names_from (s : Scene) (made : list string) (s' : Scene) : Prop :=
  forall y', In y' (objects s') ->
    (exists y, In y (objects s) /\ oname y = oname y')
    \/ (exists key, In key made /\ shaped key (oname y')).

(** Under [key] the dict holds an object that [s] did not have, a mesh
    object named [key] on the primitive made for [key]. *)
Definition replaced (s : Scene) (extracted : meshes_dict) (s' : Scene)
           (key : string) : Prop :=
  exists x, dict_get extracted key None = Some (oid x)
            /\ find_object (oid x) s' = Some x
            /\ ~ In (oid x) (map oid (objects s))
            /\ oname x = key /\ is_mesh x = true
            /\ placeholder_of key s' x.

(** ** Shapes of the scene after the calls of the script *)

(** The handle [o] is that of the object and the mesh of [src]. *)
Definition found_as (s : Scene) (o : nat) (src : Object * Mesh) : Prop :=
  find_object o s = Some (fst src) /\ odata (fst src) = Some (did (snd src))
  /\ find_mesh (did (snd src)) s = Some (snd src).

(** [y] is a selected copy of the object of [src], on a copy of its
    mesh. *)
Definition copy_of (s' : Scene) (src : Object * Mesh) (y : Object) : Prop :=
  matrix_world y = matrix_world (fst src)
  /\ exists m', mesh_of s' y = Some m'
                /\ geom m' = geom (snd src)
                /\ materials m' = materials (snd src)
                /\ uv_layers m' = uv_layers (snd src)
                /\ vertex_colors m' = vertex_colors (snd src)
                /\ shape_keys m' = shape_keys (snd src).

(** A source object after [select_all(action=DESELECT)], with its mesh. *)
Definition deselected_source (p : Object * Mesh) : Object * Mesh :=
  (with_selected false (fst p), snd p).

(** What a run returns, whatever it does to the world. *)
Definition returns {A : Type} (m : M A) (Q : A -> Prop) : Prop :=
  hoare (fun _ => True) m (fun a _ => Q a) (fun _ => True).

(** The object as [apply_all_transforms] leaves it, and its mesh. *)
Definition transforms_applied (x : Object) : Object :=
  with_selected false (with_matrix_world identity_matrix x).

(** The mesh of [x] with the matrix of [x] baked into its geometry. *)
Definition baked_mesh (x : Object) (m : Mesh) : Mesh :=
  with_geom (transform_apply_geom (matrix_world x) (geom m)) m.

(** No object but those of handle [obj] is selected. *)
Definition only_selected (obj : nat) (s : Scene) : Prop :=
  forall y, In y (objects s) -> oid y <> obj -> selected y = false.

(** The selection after the loop of [export_collection_to_glb]. *)
Definition select_listed (l : list nat) (s : Scene) : Scene :=
  set_objects (map (fun x => if existsb (Nat.eqb (oid x)) l
                             then with_selected true x else x) (objects s)) s.

(** The scene with exactly the objects of the collection [c] selected. *)
Definition selecting (c : CollRef) (s : Scene) : Scene :=
  set_objects (map (fun x => with_selected (linked_in c x) x) (objects s)) s.

(** The scene after one turn of the loop of [create_pose_collection]: the
    duplicate of [x] on the duplicate of [m], linked in the collection [c]
    alone. *)
Definition pose_copy (c : nat) (s : Scene) (name : string) (x : Object) (m : Mesh)
  : Scene :=
  mkScene (objects s
           ++ [with_users_collection [DataCollection c] (object_duplicate s name x)])
          (meshes s ++ [mesh_duplicate s name m])
          (collections s) (scene_children s) (active_object s) (active_collection s).

(** The scene after the loop of [create_pose_collection] over [items], the
    objects to copy being looked up in [s0]. *)
Fixpoint pose_copies (c : nat) (s0 : Scene) (items : meshes_dict) (s : Scene)
  : Scene :=
  match items with
  | [] => s
  | (name, v) :: rest =>
      match v with
      | Some src =>
          match find_object src s0 with
          | Some x =>
              match mesh_of s0 x with
              | Some m => pose_copies c s0 rest (pose_copy c s name x m)
              | None => s
              end
          | None => s
          end
      | None => s
      end
  end.

(** Every value of the dict is a mesh object of the scene, with its data. *)
Definition sources (s : Scene) (items : meshes_dict) : Prop :=
  forall name v, In (name, v) items ->
                 exists src x m, v = Some src /\ find_object src s = Some x
                                 /\ mesh_of s x = Some m.

(** [s] is [s0] with more objects and meshes at the end. *)
Definition grown (s0 s : Scene) : Prop :=
  (exists news, objects s = objects s0 ++ news)
  /\ (exists ms, meshes s = meshes s0 ++ ms)
  /\ active_collection s = active_collection s0.

(** [y] is the copy made for the entry of the dict: an object [s0] did not
    have, with the matrix of the entry's object and the geometry of its
    mesh, linked in the collection [c] alone, without modifiers and not
    selected, named as the key or as the key with a number. *)
Definition copied (c : nat) (s0 s' : Scene) (item : string * option nat)
           (y : Object) : Prop :=
  exists src x m m',
    snd item = Some src /\ find_object src s0 = Some x /\ mesh_of s0 x = Some m
    /\ ~ In (oid y) (map oid (objects s0))
    /\ is_mesh y = true /\ matrix_world y = matrix_world x
    /\ users_collection y = [DataCollection c]
    /\ modifiers y = [] /\ selected y = false
    /\ shaped (fst item) (oname y)
    /\ mesh_of s' y = Some m' /\ geom m' = geom m
    /\ ~ In (did m') (map did (meshes s0)).

(** Two scenes with the same objects, meshes and active collection. *)
Definition same_content (s1 s2 : Scene) : Prop :=
  objects s1 = objects s2 /\ meshes s1 = meshes s2
  /\ active_collection s1 = active_collection s2.

(** The scene with the new collection of a pose, linked in the scene. *)
Definition pose_collection_added (s : Scene) (pose_name : string) : Scene :=
  let c := fresh (map cid_of (collections s)) in
  mkScene (objects s) (meshes s)
          (collections s
           ++ [mkCollection c (unique_name (map cname (collections s))
                                           ("HumanLayer_" ++ pose_name))])
          (scene_children s ++ [c]) (active_object s) (active_collection s).

(** The collections linked in the scene, and those the objects are linked
    in, exist. *)
Definition links_alive (s : Scene) : Prop :=
  incl (scene_children s) (map cid_of (collections s))
  /\ forall y r, In y (objects s) -> In r (users_collection y) ->
                 collection_alive r s = true.

(** What [cleanup_mesh] has no business with: the handle, the name and the
    geometry of a mesh. *)
Definition mesh_body (m : Mesh) : nat * string * Geom := (did m, dname m, geom m).

(** The meshes of [s] have the handles, names and geometry of those of [s0],
    and the objects and collections are the same. *)
Definition bodies_kept (s0 s : Scene) : Prop :=
  objects s = objects s0 /\ map mesh_body (meshes s) = map mesh_body (meshes s0)
  /\ collections s = collections s0.

(** What processing has no business with: which objects there are, what
    they are called, their type, their data and their collections. *)
Definition object_identity (x : Object)
  : nat * string * string * option nat * list CollRef :=
  (oid x, oname x, otype x, odata x, users_collection x).

(** The identities of the objects of a scene, in order. *)
Definition identities (s : Scene) : list (nat * string * string * option nat * list CollRef) :=
  map object_identity (objects s).

(** The objects, the collections and the mesh data-blocks of [s] are those
    of [s0], by handle and name. *)
Definition identities_kept (s0 s : Scene) : Prop :=
  identities s = identities s0
  /\ collections s = collections s0
  /\ map (fun m => (did m, dname m)) (meshes s) = map (fun m => (did m, dname m)) (meshes s0).

(** [min] of a list of floats. *)
Definition least (a : Q) (r : list Q) : Q :=
  fold_left (fun m x => if Qle_bool m x then m else x) r a.

End Logic.

(* ================================================================== *)
(** * A host to run the script on *)
(* ================================================================== *)

(** Geometry is its number of triangles; a matrix is the list of what was
    done to it.  Decimation scales the number of triangles by the ratio. *)
Definition scaled (m : Modifier) (g : Z) : Z :=
  if String.eqb (mod_type m) "DECIMATE"
  then (Qnum (ratio m) * g / Zpos (Qden (ratio m)))%Z
  else g.

Definition tally : Host := {|
  Geom := Z;
  Xform := list string;
  identity_matrix := [];
  cursor_matrix := ["cursor"];
  loop_triangles := fun g mods => fold_left (fun n m => scaled m n) mods g;
  modifier_apply_geom := scaled;
  transform_apply_geom := fun _ g => g;
  join_geom := fun a l => fold_left Z.add (map fst l) (fst a);
  origin_set_bounds := fun g x => (g, x ++ ["origin"]);
  bound_box := fun _ => repeat (0, 0, 0)%Q 8;
  matmul := fun _ v => v;
  location_z := fun _ => 0%Q;
  set_location_z := fun _ x => x ++ ["z"];
  set_scale := fun _ x => x ++ ["scale"];
  set_location := fun _ x => x ++ ["location"];
  primitive_geom := fun p =>
    match p with
    | primitive_uv_sphere _ segments rings => (2 * segments * (rings - 1))%Z
    | primitive_cylinder _ _ => 124%Z
    | primitive_cube _ => 12%Z
    end
|}.

Section Scenes.
#[local] Existing Instance tally.

(** The command line of the docstring. *)
Definition argv_doc : list string :=
  ["blender"; "z_anatomy.blend"; "--background"; "--python";
   "scripts/blender/extract_anatomy.py"; "--"; "--output"; "public/models/human"].

(** A scene with nothing in it. *)
Definition scene_empty : Scene :=
  mkScene [] [] [] [] None SceneCollection.

(** A scene with a skin, two vessels, a brain, a lamp, and no heart. *)
Definition scene_anatomy : Scene :=
  mkScene
    [ mkObject 1 "Skin" "MESH" (Some 1%nat) ["skin"] [] true [DataCollection 1];
      mkObject 2 "Veine cave" "MESH" (Some 2%nat) ["cave"] [] false [DataCollection 1];
      mkObject 3 "Artère pulmonaire" "MESH" (Some 3%nat) ["pulm"] [] false
               [DataCollection 1];
      mkObject 4 "Cerveau" "MESH" (Some 4%nat) [] [] false [DataCollection 1];
      mkObject 5 "Lamp" "LIGHT" None ["lamp"] [] false [SceneCollection] ]
    [ mkMesh 1 "Skin" 50000%Z ["SkinMat"] ["UVMap"; "UVDetail"] ["Col"]
             ["Basis"; "Smile"];
      mkMesh 2 "Veine cave" 20000%Z ["Blue"] ["UVMap"] [] [];
      mkMesh 3 "Artère pulmonaire" 25000%Z ["Red"] ["UVMap"] [] [];
      mkMesh 4 "Cerveau" 9000%Z [] [] [] [] ]
    [ mkCollection 1 "Anatomy" ]
    [1%nat] None (DataCollection 1).

(** A scene that already holds a collection called [HumanLayer_old], with a
    statue in it. *)
Definition scene_statue : Scene :=
  mkScene
    [ mkObject 1 "Statue" "MESH" (Some 1%nat) [] [] false [DataCollection 7] ]
    [ mkMesh 1 "Statue" 100%Z [] [] [] [] ]
    [ mkCollection 7 "HumanLayer_old" ]
    [7%nat] None SceneCollection.

(** A scene with an empty (not a mesh) that is called [Body]. *)
Definition scene_rig : Scene :=
  mkScene
    [ mkObject 1 "Body" "EMPTY" None [] [] false [SceneCollection] ]
    [] [] [] None SceneCollection.

Definition start (s : Scene) : World := mkWorld s [] [].

(** A run in which the host makes the directory and then fails on the
    first call of the [try] block. *)
Definition failing (s : Scene) : World :=
  mkWorld s [] [None; Some ("RuntimeError", "Error: context is incorrect")].

(** What an export has written: the file, and the names and types of the
    objects in it. *)
Definition exported (e : Effect) : list (Path * list string * list string) :=
  match e with
  | ExportGLB p nodes => [(p, map node_name nodes, map node_type nodes)]
  | _ => []
  end.

(** The shape and place of the objects of an export. *)
Definition shapes (e : Effect) : list (list (option Geom * list Modifier * Xform)) :=
  match e with
  | ExportGLB _ nodes =>
      [map (fun n => (node_geom n, node_modifiers n, node_matrix n)) nodes]
  | _ => []
  end.

End Scenes.

(* ================================================================== *)
(** * Rules for runs *)
(* ================================================================== *)

Section Rules.
Context {host : Host}.

Lemma hoare_ret {A} (a : A) (P : World -> Prop) Q X :
  (forall w, P w -> Q a w) -> hoare P (ret a) Q X.
Proof. intros H w Hw. simpl. auto. Qed.

Lemma hoare_raise {A} (e : exn) (P : World -> Prop) (Q : A -> World -> Prop) X :
  (forall w, P w -> X w) -> hoare P (raise e) Q X.
Proof. intros H w Hw. simpl. auto. Qed.

Lemma hoare_bind {A B} (m : M A) (k : A -> M B) P R Q X :
  hoare P m R X -> (forall a, hoare (R a) (k a) Q X) -> hoare P (bind m k) Q X.
Proof.
  intros Hm Hk w Hw. unfold bind. specialize (Hm w Hw).
  destruct (m w) as [[a | e |] w1]; auto.
  apply (Hk a w1 Hm).
Qed.

Lemma hoare_conseq {A} (m : M A) (P P' : World -> Prop) (Q Q' : A -> World -> Prop)
      (X X' : World -> Prop) :
  hoare P' m Q' X' ->
  (forall w, P w -> P' w) -> (forall a w, Q' a w -> Q a w) ->
  (forall w, X' w -> X w) ->
  hoare P m Q X.
Proof.
  intros H HP HQ HX w Hw. specialize (H w (HP w Hw)).
  destruct (m w) as [[a | e |] w1]; auto.
Qed.

Lemma hoare_pre {A} (m : M A) (P P' : World -> Prop) Q X :
  hoare P' m Q X -> (forall w, P w -> P' w) -> hoare P m Q X.
Proof. intros H HP. eapply hoare_conseq; eauto. Qed.

(** A fact that does not depend on the world can be taken out. *)
Lemma hoare_fact {A} (m : M A) (F : Prop) (P : World -> Prop) Q X :
  (F -> hoare P m Q X) -> hoare (fun w => F /\ P w) m Q X.
Proof. intros H w [HF Hw]. apply (H HF w Hw). Qed.

Lemma hoare_call {A} (f : Scene -> res A * Scene) (P : World -> Prop) Q X :
  (forall w, P w ->
     (forall e, next_fault w = Some e ->
                X (mkWorld (scene w) (trace w) (tl (faults w))))
     /\ (next_fault w = None ->
         match f (scene w) with
         | (Ok a, s) => Q a (mkWorld s (trace w) (tl (faults w)))
         | (_, s) => X (mkWorld s (trace w) (tl (faults w)))
         end)) ->
  hoare P (call f) Q X.
Proof.
  intros H w Hw. destruct (H w Hw) as [Hf Hn]. unfold call.
  destruct (next_fault w) as [[cls msg] |] eqn:E.
  - apply (Hf _ eq_refl).
  - specialize (Hn eq_refl). destruct (f (scene w)) as [[a | e |] s]; auto.
Qed.

Lemma hoare_call_out {A} (f : Scene -> res A * Scene * list Effect)
      (P : World -> Prop) Q X :
  (forall w, P w ->
     (forall e, next_fault w = Some e ->
                X (mkWorld (scene w) (trace w) (tl (faults w))))
     /\ (next_fault w = None ->
         match f (scene w) with
         | (Ok a, s, out) => Q a (mkWorld s (trace w ++ out) (tl (faults w)))
         | (_, s, out) => X (mkWorld s (trace w ++ out) (tl (faults w)))
         end)) ->
  hoare P (call_out f) Q X.
Proof.
  intros H w Hw. destruct (H w Hw) as [Hf Hn]. unfold call_out.
  destruct (next_fault w) as [[cls msg] |] eqn:E.
  - apply (Hf _ eq_refl).
  - specialize (Hn eq_refl). destruct (f (scene w)) as [[[a | e |] s] out]; auto.
Qed.

Lemma hoare_log (message : list Part) (level : string) (P : World -> Prop) Q X :
  (forall w, P w ->
             Q tt (mkWorld (scene w) (trace w ++ [Printed level message]) (faults w))) ->
  hoare P (log message level) Q X.
Proof. intros H w Hw. simpl. auto. Qed.

Lemma hoare_the {A} (v : option A) (P : World -> Prop) Q X :
  (forall w, P w -> match v with Some a => Q a w | None => X w end) ->
  hoare P (the v) Q X.
Proof. intros H w Hw. specialize (H w Hw). destruct v; simpl; auto. Qed.

(** A loop over a list, with an invariant that knows what is left. *)
Lemma hoare_for_each {A} (body : A -> M unit) (I : list A -> World -> Prop) X :
  forall l,
  (forall a rest, hoare (I (a :: rest)) (body a) (fun _ => I rest) X) ->
  hoare (I l) (for_each l body) (fun _ => I []) X.
Proof.
  induction l as [| a rest IH]; intros Hb.
  - apply hoare_ret. auto.
  - simpl. eapply hoare_bind; [apply Hb |]. intros u. apply IH. exact Hb.
Qed.

(** The same with the elements known to be those of the list. *)
Lemma hoare_for_each_in {A} (body : A -> M unit) (I : World -> Prop) X :
  forall l,
  (forall a, In a l -> hoare I (body a) (fun _ => I) X) ->
  hoare I (for_each l body) (fun _ => I) X.
Proof.
  induction l as [| a rest IH]; intros Hb.
  - apply hoare_ret. auto.
  - simpl. eapply hoare_bind; [apply Hb; left; reflexivity |].
    intros u. apply IH. intros b Hin. apply Hb. right. exact Hin.
Qed.

Lemma hoare_for_collect {A B} (body : A -> M B)
      (I : list A -> list B -> World -> Prop) X :
  forall l done,
  (forall a rest acc,
      hoare (I (a :: rest) acc) (body a) (fun b => I rest (acc ++ [b])) X) ->
  hoare (I l done) (for_collect l body)
        (fun bs w => I [] (done ++ bs) w) X.
Proof.
  induction l as [| a rest IH]; intros done Hb.
  - apply hoare_ret. intros w Hw. rewrite app_nil_r. exact Hw.
  - simpl. eapply hoare_bind; [apply Hb |]. intros b.
    eapply hoare_bind; [apply (IH (done ++ [b]) Hb) |]. intros bs.
    apply hoare_ret. intros w Hw. rewrite <- app_assoc in Hw. exact Hw.
Qed.

Lemma hoare_for_fold {A S} (body : S -> A -> M S)
      (I : list A -> S -> World -> Prop) X :
  forall l acc,
  (forall a rest s, hoare (I (a :: rest) s) (body s a) (fun s' => I rest s') X) ->
  hoare (I l acc) (for_fold l acc body) (fun s => I [] s) X.
Proof.
  induction l as [| a rest IH]; intros acc Hb.
  - apply hoare_ret. auto.
  - simpl. eapply hoare_bind; [apply Hb |]. intros s. apply IH. exact Hb.
Qed.

End Rules.

Section Stable.
Context {host : Host}.

Lemma stable_ret {A} (a : A) I : stable I (ret a).
Proof. apply hoare_ret. auto. Qed.

Lemma stable_raise {A} (e : exn) I : stable I (@raise _ A e).
Proof. apply hoare_raise. auto. Qed.

Lemma stable_bind {A B} (m : M A) (k : A -> M B) I :
  stable I m -> (forall a, stable I (k a)) -> stable I (bind m k).
Proof. intros Hm Hk. eapply hoare_bind; [exact Hm | exact Hk]. Qed.

Lemma stable_the {A} (v : option A) I : stable I (the v).
Proof. apply hoare_the. intros w Hw. destruct v; exact Hw. Qed.

Lemma stable_for_each {A} (l : list A) (body : A -> M unit) I :
  (forall a, stable I (body a)) -> stable I (for_each l body).
Proof. intros Hb. apply hoare_for_each_in. intros a _. apply Hb. Qed.

Lemma stable_for_collect {A B} (l : list A) (body : A -> M B) I :
  (forall a, stable I (body a)) -> stable I (for_collect l body).
Proof.
  intros Hb. induction l as [| a rest IH]; simpl.
  - apply stable_ret.
  - apply stable_bind; [apply Hb |]. intros b.
    apply stable_bind; [exact IH |]. intros bs. apply stable_ret.
Qed.

Lemma stable_for_fold {A S} (l : list A) (acc : S) (body : S -> A -> M S) I :
  (forall s a, stable I (body s a)) -> stable I (for_fold l acc body).
Proof.
  intros Hb. revert acc. induction l as [| a rest IH]; intros acc; simpl.
  - apply stable_ret.
  - apply stable_bind; [apply Hb |]. intros s. apply IH.
Qed.

Lemma stable_while (fuel : nat) (cond : M bool) (body : M unit) I :
  stable I cond -> stable I body -> stable I (while fuel cond body).
Proof.
  intros Hc Hb. induction fuel as [| k IH]; simpl.
  - intros w Hw. exact Hw.
  - apply stable_bind; [exact Hc |]. intros [|].
    + apply stable_bind; [exact Hb |]. intros u. exact IH.
    + apply stable_ret.
Qed.

Lemma stable_finally {A} (r : res A) (final : M unit) I :
  stable I final -> stable I (finally_ r final).
Proof.
  intros Hf w Hw. unfold finally_. specialize (Hf w Hw).
  destruct (final w) as [[u | e |] w1]; destruct r; auto.
Qed.

Lemma stable_try_except_finally {A} (body : M A) (handler : exn -> M A)
      (final : M unit) I :
  stable I body -> (forall e, stable I (handler e)) -> stable I final ->
  stable I (try_except_finally body handler final).
Proof.
  intros Hb Hh Hf w Hw. unfold try_except_finally. specialize (Hb w Hw).
  destruct (body w) as [[a | e |] w1].
  - apply (stable_finally (Ok a) final I Hf w1 Hb).
  - destruct (is_Exception e).
    + specialize (Hh e w1 Hb). destruct (handler e w1) as [[a | e' |] w2].
      * apply (stable_finally (Ok a) final I Hf w2 Hh).
      * apply (stable_finally (Raise e') final I Hf w2 Hh).
      * exact Hh.
    + apply (stable_finally (Raise e) final I Hf w1 Hb).
  - exact Hb.
Qed.

(** ** Properties of the scene *)

Lemma stable_call_scene {A} (f : Scene -> res A * Scene) (J : Scene -> Prop) :
  (forall s, J s -> J (snd (f s))) -> stable (on_scene J) (call f).
Proof.
  intros H. apply hoare_call. intros w Hw. split.
  - intros e _. exact Hw.
  - intros _. specialize (H (scene w) Hw).
    destruct (f (scene w)) as [[a | e |] s]; exact H.
Qed.

Lemma stable_call_out_scene {A} (f : Scene -> res A * Scene * list Effect)
      (J : Scene -> Prop) :
  (forall s, J s -> J (snd (fst (f s)))) -> stable (on_scene J) (call_out f).
Proof.
  intros H. apply hoare_call_out. intros w Hw. split.
  - intros e _. exact Hw.
  - intros _. specialize (H (scene w) Hw).
    destruct (f (scene w)) as [[[a | e |] s] out]; exact H.
Qed.

Lemma stable_log_scene (message : list Part) (level : string) (J : Scene -> Prop) :
  stable (on_scene J) (log message level).
Proof. apply hoare_log. intros w Hw. exact Hw. Qed.

Lemma stable_traceback_scene (e : exn) (J : Scene -> Prop) :
  stable (on_scene J) (traceback_print_exc e).
Proof. intros w Hw. exact Hw. Qed.

(** ** Properties of the trace *)

Lemma emits_more (phi : Effect -> Prop) t0 (s : Scene) t fl out (w : World) :
  emits phi t0 w -> t = trace w ++ out -> Forall phi out ->
  emits phi t0 (mkWorld s t fl).
Proof.
  intros [t1 [E F]] -> Fo. exists (t1 ++ out). simpl. split.
  - rewrite E. rewrite app_assoc. reflexivity.
  - apply Forall_app. split; assumption.
Qed.

Lemma stable_call_emits {A} (f : Scene -> res A * Scene) phi t0 :
  stable (emits phi t0) (call f).
Proof.
  apply hoare_call. intros w Hw. split.
  - intros e _. eapply emits_more; [exact Hw | symmetry; apply app_nil_r | constructor].
  - intros _. destruct (f (scene w)) as [[a | e |] s];
      (eapply emits_more; [exact Hw | symmetry; apply app_nil_r | constructor]).
Qed.

Lemma stable_call_out_emits {A} (f : Scene -> res A * Scene * list Effect) phi t0 :
  (forall s, Forall phi (snd (f s))) -> stable (emits phi t0) (call_out f).
Proof.
  intros H. apply hoare_call_out. intros w Hw. split.
  - intros e _. eapply emits_more; [exact Hw | symmetry; apply app_nil_r | constructor].
  - intros _. specialize (H (scene w)).
    destruct (f (scene w)) as [[[a | e |] s] out];
      (eapply emits_more; [exact Hw | reflexivity | exact H]).
Qed.

Lemma stable_log_emits (message : list Part) (level : string) (phi : Effect -> Prop) t0 :
  phi (Printed level message) -> stable (emits phi t0) (log message level).
Proof.
  intros H. apply hoare_log. intros w Hw.
  eapply emits_more; [exact Hw | reflexivity | repeat constructor; exact H].
Qed.

Lemma stable_traceback_emits (e : exn) (phi : Effect -> Prop) t0 :
  phi (Traceback e) -> stable (emits phi t0) (traceback_print_exc e).
Proof.
  intros H w Hw. simpl.
  eapply emits_more; [exact Hw | reflexivity | repeat constructor; exact H].
Qed.

End Stable.

(** The walk over a program: the rules above are applied down to the calls
    into the host, which [leaf] has to settle. *)
Ltac head_of t :=
  lazymatch t with
  | ?f _ => head_of f
  | _ => t
  end.

Ltac walk leaf :=
  lazymatch goal with
  | |- stable _ (bind _ _) => apply stable_bind; [walk leaf | intro; walk leaf]
  | |- stable _ (ret _) => apply stable_ret
  | |- stable _ (raise _) => apply stable_raise
  | |- stable _ (the _) => apply stable_the
  | |- stable _ (for_each _ _) => apply stable_for_each; intro; walk leaf
  | |- stable _ (for_collect _ _) => apply stable_for_collect; intro; walk leaf
  | |- stable _ (for_fold _ _ _) => apply stable_for_fold; intros; walk leaf
  | |- stable _ (while _ _ _) => apply stable_while; walk leaf
  | |- stable _ (try_except_finally _ _ _) =>
      apply stable_try_except_finally; [walk leaf | intro; walk leaf | walk leaf]
  | |- stable _ (call _) => leaf
  | |- stable _ (call_out _) => leaf
  | |- stable _ (log _ _) => leaf
  | |- stable _ (traceback_print_exc _) => leaf
  | |- stable _ (if ?b then _ else _) => destruct b; walk leaf
  | |- stable _ (match ?x with _ => _ end) => destruct x; walk leaf
  | |- stable _ (let '(_, _) := ?x in _) => destruct x; walk leaf
  | |- stable _ ?m => let h := head_of m in unfold h; walk leaf
  end.

(* ================================================================== *)
(** * Running one call *)
(* ================================================================== *)

Section Runs.
Context {host : Host}.

Lemma quiet_next_fault (w : World) : quiet w -> next_fault w = None.
Proof. unfold quiet, next_fault. intros ->. reflexivity. Qed.

(** A call the schedule lets through does what the host does. *)
Lemma call_run {A} (f : Scene -> res A * Scene) (w : World) :
  next_fault w = None ->
  call f w = (fst (f (scene w)),
              mkWorld (snd (f (scene w))) (trace w) (tl (faults w))).
Proof.
  intros E. unfold call. rewrite E. destruct (f (scene w)); reflexivity.
Qed.

(** A call that returned was let through, and the host returned. *)
Lemma call_returned {A} (f : Scene -> res A * Scene) (w w' : World) (a : A) :
  call f w = (Ok a, w') ->
  next_fault w = None
  /\ exists s, f (scene w) = (Ok a, s) /\ w' = tick w s.
Proof.
  unfold call. destruct (next_fault w) as [[cls msg] |]; [discriminate |].
  destruct (f (scene w)) as [r s]. intros H. inversion H; subst.
  split; [reflexivity |]. exists s. auto.
Qed.

Lemma bind_returned {A B} (m : M A) (k : A -> M B) (w w' : World) (b : B) :
  bind m k w = (Ok b, w') ->
  exists a w1, m w = (Ok a, w1) /\ k a w1 = (Ok b, w').
Proof.
  unfold bind. destruct (m w) as [[a | e |] w1]; try discriminate.
  intros H. exists a, w1. auto.
Qed.

Lemma bind_run {A B} (m : M A) (k : A -> M B) (w w1 : World) (a : A) :
  m w = (Ok a, w1) -> bind m k w = k a w1.
Proof. intros E. unfold bind. rewrite E. reflexivity. Qed.

End Runs.

(* ================================================================== *)
(** * The search by name *)
(* ================================================================== *)

Section Search.
Context {host : Host}.

Lemma any_pattern_true (patterns : list string) (n : string) :
  any_pattern patterns n = true <->
  exists p, In p patterns /\ str_in (lower p) n = true.
Proof.
  induction patterns as [| p rest IH]; simpl.
  - split; [discriminate | intros [p [[] _]]].
  - destruct (str_in (lower p) n) eqn:E.
    + split; [| reflexivity]. intros _. exists p. auto.
    + rewrite IH. split.
      * intros [q [Hin Hq]]. exists q. auto.
      * intros [q [[-> | Hin] Hq]]; [congruence | exists q; auto].
Qed.

(** The two loops of [find_meshes_by_pattern] are one filter. *)
Lemma matches_filter (patterns : list string) (objs : list Object) :
  matches patterns objs
  = filter (fun x => is_mesh x && any_pattern patterns (lower (oname x))) objs.
Proof.
  induction objs as [| x rest IH]; simpl; [reflexivity |].
  unfold is_mesh at 1. destruct (String.eqb (otype x) "MESH"); simpl.
  - destruct (any_pattern patterns (lower (oname x))); rewrite IH; reflexivity.
  - exact IH.
Qed.

(** Filtering keeps the keys distinct. *)
Lemma filter_keeps_distinct {K X : Type} (key : X -> K) (keep : X -> bool) :
  forall xs, NoDup (map key xs) -> NoDup (map key (filter keep xs)).
Proof.
  intros xs. induction xs as [| x rest IH]; intros Hd; cbn; [constructor |].
  apply NoDup_cons_iff in Hd. destruct Hd as [Hx Hrest].
  destruct (keep x); cbn; [| auto].
  apply NoDup_cons_iff. split; [| auto].
  intros Hin. apply in_map_iff in Hin. destruct Hin as [y [Ey Hy]]. apply Hx.
  apply in_map_iff. exists y. apply filter_In in Hy. tauto.
Qed.


End Search.

(* ================================================================== *)
(** * The command line *)
(* ================================================================== *)

Section CommandLine.

Lemma parse_output_fold (argv : list string) :
  parse_output argv
  = fold_left (read_output argv) (combine (seq 0 (List.length argv)) argv)
              "public/models/human".
Proof. reflexivity. Qed.

Lemma combine_seq_app (a1 a2 : list string) (k : nat) :
  combine (seq k (List.length (a1 ++ a2))) (a1 ++ a2)
  = combine (seq k (List.length a1)) a1
    ++ combine (seq (k + List.length a1) (List.length a2)) a2.
Proof.
  revert k. induction a1 as [| a r IH]; intros k; simpl.
  - rewrite Nat.add_0_r. reflexivity.
  - rewrite IH. rewrite Nat.add_succ_r. reflexivity.
Qed.

Lemma in_combine_seq (l : list string) (k i : nat) (a : string) :
  In (i, a) (combine (seq k (List.length l)) l) ->
  (k <= i)%nat /\ nth_error l (i - k) = Some a.
Proof.
  revert k. induction l as [| b r IH]; intros k; simpl; [tauto |].
  intros [E | Hin].
  - inversion E; subst. rewrite Nat.sub_diag. auto.
  - destruct (IH (S k) Hin) as [Hle Hn]. split; [lia |].
    replace (i - k)%nat with (S (i - S k)) by lia. exact Hn.
Qed.

Lemma fold_read_output_idle (argv : list string) (L : list (nat * string))
      (acc : string) :
  (forall i a, In (i, a) L ->
               String.eqb a "--output" && (i + 1 <? List.length argv)%nat = false) ->
  fold_left (read_output argv) L acc = acc.
Proof.
  revert acc. induction L as [| [i a] r IH]; intros acc H; simpl; [reflexivity |].
  rewrite (H i a (or_introl eq_refl)). apply IH.
  intros j b Hin. apply H. right. exact Hin.
Qed.

(** The value that follows the last [--output] that has one is the
    result. *)
Lemma parse_output_last (pre rest : list string) (v : string) :
  (forall i, nth_error (v :: rest) i = Some "--output" ->
             nth_error (v :: rest) (S i) = None) ->
  parse_output (pre ++ "--output" :: v :: rest) = v.
Proof.
  intros Hlast. rewrite parse_output_fold.
  set (argv := pre ++ "--output" :: v :: rest).
  assert (Hlen : List.length argv = (List.length pre + S (S (List.length rest)))%nat).
  { unfold argv. rewrite length_app. reflexivity. }
  unfold argv at 2 3. rewrite combine_seq_app. rewrite fold_left_app.
  change (combine (seq (0 + List.length pre) (List.length ("--output" :: v :: rest)))
                  ("--output" :: v :: rest))
    with ((List.length pre, "--output")
            :: combine (seq (S (List.length pre)) (List.length (v :: rest))) (v :: rest)).
  cbn [fold_left]. rewrite fold_read_output_idle.
  - unfold read_output. rewrite Hlen.
    replace (List.length pre + 1 <? List.length pre + S (S (List.length rest)))%nat
      with true by (symmetry; apply Nat.ltb_lt; lia).
    simpl. unfold argv. rewrite app_nth2 by lia.
    replace (List.length pre + 1 - List.length pre)%nat with 1%nat by lia.
    reflexivity.
  - intros i a Hin.
    apply in_combine_seq in Hin. destruct Hin as [Hle Hn].
    destruct (String.eqb a "--output") eqn:Ea; [| reflexivity].
    apply String.eqb_eq in Ea. subst a. simpl.
    apply Nat.ltb_ge. rewrite Hlen.
    specialize (Hlast _ Hn). apply nth_error_None in Hlast. simpl in Hlast. lia.
Qed.

Lemma index_of_In (x : string) (l : list string) :
  In x l -> exists i, index_of x l = Some i.
Proof.
  induction l as [| a r IH]; simpl; [tauto |].
  intros H. destruct (String.eqb a x) eqn:E; [eauto |].
  destruct H as [-> | H]; [rewrite String.eqb_refl in E; discriminate |].
  destruct (IH H) as [i Hi]. rewrite Hi. simpl. eauto.
Qed.

(** After a ["--"], what follows it is a suffix of the script's
    arguments. *)
Lemma script_args_suffix (before rest : list string) :
  exists pre, script_args (before ++ "--" :: rest) = pre ++ rest.
Proof.
  induction before as [| a b IH]; unfold script_args; simpl.
  - exists []. reflexivity.
  - destruct (String.eqb a "--") eqn:E.
    + simpl. exists (b ++ ["--"]). rewrite <- app_assoc. reflexivity.
    + destruct IH as [pre IH]. unfold script_args in IH.
      destruct (index_of_In "--" (b ++ "--" :: rest)) as [i Hi].
      { apply in_or_app. right. left. reflexivity. }
      rewrite Hi in IH. rewrite Hi. simpl. exists pre. exact IH.
Qed.

(** C7, the parsing: the value after the last [--output] that has one,
    among the arguments that follow a ["--"], is the output directory. *)
Lemma output_dir_of_last (before mid rest : list string) (v : string) :
  (forall i, nth_error (v :: rest) i = Some "--output" ->
             nth_error (v :: rest) (S i) = None) ->
  output_dir_of (before ++ "--" :: mid ++ "--output" :: v :: rest) = v.
Proof.
  intros Hlast. unfold output_dir_of.
  destruct (script_args_suffix before (mid ++ "--output" :: v :: rest)) as [pre E].
  rewrite E. rewrite app_assoc. apply parse_output_last. exact Hlast.
Qed.

End CommandLine.

(* ================================================================== *)
(** * How [main] ends *)
(* ================================================================== *)

Section Ends.
Context {host : Host}.

Lemma ends_plainly_ret {A} (a : A) : ends_plainly (ret a).
Proof. intros w. exact I. Qed.

Lemma ends_plainly_bind {A B} (m : M A) (k : A -> M B) :
  ends_plainly m -> (forall a, ends_plainly (k a)) -> ends_plainly (bind m k).
Proof.
  intros Hm Hk w. unfold bind. specialize (Hm w).
  destruct (m w) as [[a | e |] w1]; simpl in *; auto. apply Hk.
Qed.

Lemma ends_plainly_for_each {A} (l : list A) (body : A -> M unit) :
  (forall a, ends_plainly (body a)) -> ends_plainly (for_each l body).
Proof.
  intros Hb. induction l as [| a r IH]; simpl.
  - apply ends_plainly_ret.
  - apply ends_plainly_bind; [apply Hb | intros u; exact IH].
Qed.

Lemma ends_plainly_call {A} (f : Scene -> res A * Scene) :
  (forall s, match fst (f s) with
             | Ok _ => True
             | Raise e => is_Exception e = true
             | OutOfFuel => False
             end) ->
  ends_plainly (call f).
Proof.
  intros H w. unfold call. destruct (next_fault w) as [[cls msg] |]; [reflexivity |].
  specialize (H (scene w)). destruct (f (scene w)) as [r s]. exact H.
Qed.

Ltac settle_call :=
  intros; cbn;
  repeat (match goal with
          | |- context [match ?x with _ => _ end] =>
              lazymatch type of x with
              | res _ => fail
              | prod _ _ => fail
              | _ => destruct x
              end
          end; cbn);
  auto.

Lemma cleanup_scene_ends_plainly : ends_plainly cleanup_scene.
Proof.
  unfold cleanup_scene.
  apply ends_plainly_bind; [apply ends_plainly_call; settle_call |]. intros colls.
  apply ends_plainly_for_each. intros coll.
  apply ends_plainly_bind; [apply ends_plainly_call; settle_call |]. intros name.
  destruct (startswith name "HumanLayer_"); [| apply ends_plainly_ret].
  apply ends_plainly_bind; [apply ends_plainly_call; settle_call |]. intros objs.
  apply ends_plainly_bind; [| intros u; apply ends_plainly_call; settle_call].
  apply ends_plainly_for_each. intros obj. apply ends_plainly_call; settle_call.
Qed.

(** Every part of the script only adds to the trace. *)
Ltac emits_leaf tac :=
  lazymatch goal with
  | |- stable _ (call _) => apply stable_call_emits
  | |- stable _ (call_out _) =>
      apply stable_call_out_emits; intros; simpl; repeat constructor; tac
  | |- stable _ (log _ _) => apply stable_log_emits; tac
  | |- stable _ (traceback_print_exc _) => apply stable_traceback_emits; tac
  end.

Lemma cleanup_scene_extends (t0 : list Effect) :
  stable (emits (fun _ => True) t0) cleanup_scene.
Proof. walk ltac:(idtac; emits_leaf ltac:(idtac; exact I)). Qed.

Lemma main_block_under_dir (fuel : nat) (p : Path) (t0 : list Effect) :
  stable (emits (under_dir p) t0)
         (try_except_finally (main_try fuel p) main_except cleanup_scene).
Proof. walk ltac:(idtac; emits_leaf ltac:(idtac; simpl; eauto)). Qed.

End Ends.

Section Entry.
Context {host : Host}.

(** What the prologue of [main] adds to the trace: three lines, then the
    directory and a fourth line when the host has made the directory. *)
Lemma main_prologue_trace (argv : list string) (w : World) :
  let p := PurePath (output_dir_of argv) in
  let banner := [Printed "INFO" [Str (str_repeat "=" 60)];
                 Printed "INFO" [Str "Z-Anatomy Model Extractor"];
                 Printed "INFO" [Str (str_repeat "=" 60)]] in
  match main_prologue argv w with
  | (Ok q, w') =>
      q = p /\ trace w' = trace w ++ banner
                           ++ [Mkdir p; Printed "INFO" [Str "Output directory: "; Absolute p]]
  | (_, w') => trace w' = trace w ++ banner
  end.
Proof.
  unfold main_prologue, bind, log, mkdir, call_out, ret. cbn -[str_repeat].
  destruct (next_fault _) as [[cls msg] |]; cbn -[str_repeat].
  - rewrite <- !app_assoc. reflexivity.
  - split; [reflexivity |]. rewrite <- !app_assoc. reflexivity.
Qed.

Lemma split_after (pre t t1 t2 : list Effect) (e : Effect) :
  Forall (fun x => is_export x = false) pre -> is_export e = true ->
  pre ++ t = t1 ++ e :: t2 ->
  exists t1', t1 = pre ++ t1' /\ t = t1' ++ e :: t2.
Proof.
  revert t1. induction pre as [| a r IH]; intros t1 Hpre He E.
  - exists t1. auto.
  - inversion Hpre as [| ? ? Ha Hr]; subst. destruct t1 as [| b t1]; simpl in E.
    + inversion E; subst. congruence.
    + inversion E; subst. destruct (IH t1 Hr He H1) as [t1' [-> ->]].
      exists t1'. auto.
Qed.


Lemma cleanup_scene_result (w : World) :
  exists t,
    trace (snd (cleanup_scene w)) = trace w ++ t
    /\ match fst (cleanup_scene w) with
       | Ok _ => True
       | Raise e => exists cls msg, e = Exception cls msg
       | OutOfFuel => False
       end.
Proof.
  pose proof (cleanup_scene_extends (trace w) w) as He.
  pose proof (cleanup_scene_ends_plainly w) as Hp.
  assert (H0 : emits (fun _ => True) (trace w) w).
  { exists []. split; [symmetry; apply app_nil_r | constructor]. }
  specialize (He H0).
  destruct (cleanup_scene w) as [[u | e |] w1]; simpl in *;
    destruct He as [t [Et _]]; exists t; (split; [exact Et |]); auto.
  destruct e; [eauto | discriminate].
Qed.

(** C3.  Let the [try] block of [main] be entered.  If an exception is
    raised in it, the error line with the message of the exception and its
    traceback are written, in that order, and [main] ends by an exception:
    [SystemExit(1)], or the exception of [cleanup_scene] when that fails in
    the [finally]; the exit code is 1 either way.  If the block and
    [cleanup_scene] raise nothing, [main] returns and the exit code is 0. *)
Theorem main_exit_code (fuel : nat) (argv : list string) (w w0 : World) (p : Path) :
  main_prologue argv w = (Ok p, w0) ->
  (forall cls msg w1,
      main_try fuel p w0 = (Raise (Exception cls msg), w1) ->
      exists r w' t,
        main fuel argv w = (r, w')
        /\ trace w' = trace w1
                      ++ Printed "ERROR" [Str ("Error: " ++ msg)]
                      :: Traceback (Exception cls msg) :: t
        /\ (r = Raise (SystemExit 1) \/ exists c m, r = Raise (Exception c m))
        /\ exit_code r = Some 1%Z)
  /\ (forall w1 w2,
         main_try fuel p w0 = (Ok tt, w1) ->
         cleanup_scene w1 = (Ok tt, w2) ->
         main fuel argv w = (Ok tt, w2) /\ exit_code (Ok tt) = Some 0%Z).
Proof.
  intros Hp. split.
  - intros cls msg w1 Ht.
    unfold main. rewrite (bind_run _ _ _ _ _ Hp).
    unfold try_except_finally. rewrite Ht. cbn [is_Exception].
    unfold main_except, bind, log, traceback_print_exc, sys_exit, raise.
    cbn [scene trace faults str_of_exn]. unfold finally_.
    match goal with
    | |- context [cleanup_scene ?x] =>
        destruct (cleanup_scene_result x) as [t [Et Hr]];
        destruct (cleanup_scene x) as [[u | e |] w2]
    end; simpl in Et, Hr.
    + exists (Raise (SystemExit 1)), w2, t. repeat split; auto.
      rewrite Et. rewrite <- !app_assoc. reflexivity.
    + destruct Hr as [c [m ->]].
      exists (Raise (Exception c m)), w2, t. repeat split; eauto.
      rewrite Et. rewrite <- !app_assoc. reflexivity.
    + contradiction.
  - intros w1 w2 Ht Hc. split; [| reflexivity].
    unfold main. rewrite (bind_run _ _ _ _ _ Hp).
    unfold try_except_finally. rewrite Ht. unfold finally_. rewrite Hc.
    reflexivity.
Qed.

End Entry.

(* ================================================================== *)
(** * The store *)
(* ================================================================== *)

Section Store.
Context {host : Host}.

Lemma find_map_update {A} (key : A -> nat) (f : A -> A) (d d' : nat) (l : list A) :
  (forall x, key (f x) = key x) ->
  find (fun x => Nat.eqb (key x) d')
       (map (fun x => if Nat.eqb (key x) d then f x else x) l)
  = if Nat.eqb d' d
    then option_map f (find (fun x => Nat.eqb (key x) d') l)
    else find (fun x => Nat.eqb (key x) d') l.
Proof.
  intros Hk. induction l as [| a r IH]; simpl.
  - destruct (Nat.eqb d' d); reflexivity.
  - destruct (Nat.eqb (key a) d) eqn:Ea.
    + rewrite Hk. destruct (Nat.eqb (key a) d') eqn:Eb.
      * apply Nat.eqb_eq in Ea, Eb. subst.
        rewrite Nat.eqb_refl. reflexivity.
      * exact IH.
    + destruct (Nat.eqb (key a) d') eqn:Eb; [| exact IH].
      apply Nat.eqb_eq in Eb. subst. rewrite Ea. reflexivity.
Qed.

Lemma find_mesh_update (d d' : nat) (f : Mesh -> Mesh) (s : Scene) :
  (forall m, did (f m) = did m) ->
  find_mesh d' (update_mesh d f s)
  = if Nat.eqb d' d then option_map f (find_mesh d' s) else find_mesh d' s.
Proof. intros H. unfold find_mesh, update_mesh. simpl. apply find_map_update. exact H. Qed.

Lemma find_object_update (o o' : nat) (f : Object -> Object) (s : Scene) :
  (forall x, oid (f x) = oid x) ->
  find_object o' (update_object o f s)
  = if Nat.eqb o' o then option_map f (find_object o' s) else find_object o' s.
Proof. intros H. unfold find_object, update_object. simpl. apply find_map_update. exact H. Qed.

Lemma find_mesh_did (d : nat) (s : Scene) (m : Mesh) :
  find_mesh d s = Some m -> did m = d.
Proof.
  unfold find_mesh. intros H. apply find_some in H. destruct H as [_ H].
  apply Nat.eqb_eq. exact H.
Qed.

Lemma find_object_oid (o : nat) (s : Scene) (x : Object) :
  find_object o s = Some x -> oid x = o.
Proof.
  unfold find_object. intros H. apply find_some in H. destruct H as [_ H].
  apply Nat.eqb_eq. exact H.
Qed.

Lemma find_object_In (o : nat) (s : Scene) (x : Object) :
  find_object o s = Some x -> In x (objects s).
Proof. unfold find_object. intros H. apply find_some in H. tauto. Qed.

Lemma tick_quiet (w : World) (s : Scene) : quiet w -> quiet (tick w s).
Proof. unfold quiet, tick. simpl. intros ->. reflexivity. Qed.

(** ** What a call that returned has done *)

Lemma the_returned {A} (v : option A) (w w' : World) (a : A) :
  the v w = (Ok a, w') -> v = Some a /\ w' = w.
Proof. destruct v; simpl; intros H; inversion H; auto. Qed.

Lemma read_object_returned {A} (o : nat) (f : Scene -> Object -> A)
      (w w' : World) (a : A) :
  read_object o f w = (Ok a, w') ->
  exists x, find_object o (scene w) = Some x /\ a = f (scene w) x
            /\ w' = tick w (scene w).
Proof.
  unfold read_object, call, tick. destruct (next_fault w) as [[c m] |]; [discriminate |].
  destruct (find_object o (scene w)) as [x |]; simpl; intros H; inversion H.
  exists x. auto.
Qed.

Lemma read_mesh_returned {A} (d : nat) (f : Mesh -> A) (w w' : World) (a : A) :
  read_mesh d f w = (Ok a, w') ->
  exists m, find_mesh d (scene w) = Some m /\ a = f m /\ w' = tick w (scene w).
Proof.
  unfold read_mesh, call, tick. destruct (next_fault w) as [[c k] |]; [discriminate |].
  destruct (find_mesh d (scene w)) as [m |]; simpl; intros H; inversion H.
  exists m. auto.
Qed.

Lemma write_mesh_returned (d : nat) (f : Mesh -> Mesh) (w w' : World) (u : unit) :
  write_mesh d f w = (Ok u, w') ->
  exists m, find_mesh d (scene w) = Some m
            /\ w' = tick w (update_mesh d f (scene w)).
Proof.
  unfold write_mesh, call, tick. destruct (next_fault w) as [[c k] |]; [discriminate |].
  destruct (find_mesh d (scene w)) as [m |]; simpl; intros H; inversion H.
  exists m. auto.
Qed.

Lemma write_object_returned (o : nat) (f : Object -> Object) (w w' : World) (u : unit) :
  write_object o f w = (Ok u, w') ->
  exists x, find_object o (scene w) = Some x
            /\ w' = tick w (update_object o f (scene w)).
Proof.
  unfold write_object, call, tick. destruct (next_fault w) as [[c k] |]; [discriminate |].
  destruct (find_object o (scene w)) as [x |]; simpl; intros H; inversion H.
  exists x. auto.
Qed.

Lemma layers_remove_returned (field : Mesh -> list string)
      (with_field : list string -> Mesh -> Mesh) (d : nat) (layer : string)
      (w w' : World) (u : unit) :
  layers_remove field with_field d layer w = (Ok u, w') ->
  exists m, find_mesh d (scene w) = Some m /\ mem layer (field m) = true
            /\ w' = tick w (update_mesh d
                              (fun k => with_field (remove_first layer (field k)) k)
                              (scene w)).
Proof.
  unfold layers_remove, call, tick.
  destruct (next_fault w) as [[c k] |]; [discriminate |].
  destruct (find_mesh d (scene w)) as [m |]; [| simpl; discriminate].
  destruct (mem layer (field m)) eqn:E; simpl; intros H; inversion H.
  exists m. auto.
Qed.

Lemma shape_key_clear_returned (o : nat) (w w' : World) (u : unit) :
  shape_key_clear o w = (Ok u, w') ->
  exists x, find_object o (scene w) = Some x
            /\ w' = tick w (match odata x with
                            | Some d => update_mesh d (with_shape_keys []) (scene w)
                            | None => scene w
                            end).
Proof.
  unfold shape_key_clear, call, tick.
  destruct (next_fault w) as [[c k] |]; [discriminate |].
  destruct (find_object o (scene w)) as [x |]; [| simpl; discriminate].
  intros H. exists x. split; [reflexivity |].
  destruct (odata x); simpl in H; inversion H; reflexivity.
Qed.

(** ** What a call does when the host lets it through *)

Lemma read_object_run {A} (o : nat) (f : Scene -> Object -> A) (w : World) (x : Object) :
  next_fault w = None -> find_object o (scene w) = Some x ->
  read_object o f w = (Ok (f (scene w) x), tick w (scene w)).
Proof. intros Hq Hx. unfold read_object. rewrite call_run by exact Hq. rewrite Hx. reflexivity. Qed.

Lemma read_mesh_run {A} (d : nat) (f : Mesh -> A) (w : World) (m : Mesh) :
  next_fault w = None -> find_mesh d (scene w) = Some m ->
  read_mesh d f w = (Ok (f m), tick w (scene w)).
Proof. intros Hq Hm. unfold read_mesh. rewrite call_run by exact Hq. rewrite Hm. reflexivity. Qed.

Lemma write_mesh_run (d : nat) (f : Mesh -> Mesh) (w : World) (m : Mesh) :
  next_fault w = None -> find_mesh d (scene w) = Some m ->
  write_mesh d f w = (Ok tt, tick w (update_mesh d f (scene w))).
Proof. intros Hq Hm. unfold write_mesh. rewrite call_run by exact Hq. rewrite Hm. reflexivity. Qed.

Lemma write_object_run (o : nat) (f : Object -> Object) (w : World) (x : Object) :
  next_fault w = None -> find_object o (scene w) = Some x ->
  write_object o f w = (Ok tt, tick w (update_object o f (scene w))).
Proof. intros Hq Hx. unfold write_object. rewrite call_run by exact Hq. rewrite Hx. reflexivity. Qed.

End Store.

(* ================================================================== *)
(** * [cleanup_mesh] *)
(* ================================================================== *)

Section CleanupMesh.
Context {host : Host}.

Lemma while_returned (I C : World -> Prop) (cond : M bool) (body : M unit) :
  (forall w b w', I w -> cond w = (Ok b, w') -> I w' /\ (b = false -> C w')) ->
  (forall w u w', I w -> body w = (Ok u, w') -> I w') ->
  forall fuel w u w',
    I w -> while fuel cond body w = (Ok u, w') -> I w' /\ C w'.
Proof.
  intros Hc Hb. induction fuel as [| k IH]; intros w u w' Hi H; simpl in H.
  - discriminate.
  - apply bind_returned in H. destruct H as [b [w1 [Hcond H]]].
    destruct (Hc _ _ _ Hi Hcond) as [Hi1 Hfalse]. destruct b.
    + apply bind_returned in H. destruct H as [u1 [w2 [Hbody H]]].
      apply (IH w2 u w'); [| exact H]. apply (Hb _ _ _ Hi1 Hbody).
    + inversion H; subst. auto.
Qed.

Variable field : Mesh -> list string.
Variable with_field : list string -> Mesh -> Mesh.
Hypothesis with_field_did : forall l m, did (with_field l m) = did m.
Hypothesis with_field_get : forall l m, field (with_field l m) = l.

(** The loop, when it returns, has emptied the layers of the mesh and kept
    the objects and every property of the mesh that removing a layer
    keeps. *)
Lemma clear_layers_returned (d fuel : nat) (P : Mesh -> Prop) (objs : list Object)
      (w w' : World) (u : unit) :
  (forall l m, P m -> P (with_field l m)) ->
  objects (scene w) = objs ->
  (exists m, find_mesh d (scene w) = Some m /\ P m) ->
  clear_layers fuel (read_mesh d field) (layers_remove field with_field d) w
  = (Ok u, w') ->
  objects (scene w') = objs
  /\ exists m, find_mesh d (scene w') = Some m /\ P m /\ field m = [].
Proof.
  intros HP Ho Hm H. unfold clear_layers in H.
  pose (I := fun w : World =>
               objects (scene w) = objs
               /\ exists m, find_mesh d (scene w) = Some m /\ P m).
  pose (C := fun w : World =>
               exists m, find_mesh d (scene w) = Some m /\ field m = []).
  assert (Hfin : I w' /\ C w').
  { apply (while_returned I C) in H; [exact H | | | split; assumption].
    - intros w1 b w2 [Ho1 [m [Hf Pm]]] Hcond.
      apply bind_returned in Hcond. destruct Hcond as [l [w3 [Hr Hret]]].
      apply read_mesh_returned in Hr. destruct Hr as [m' [Hf' [-> ->]]].
      inversion Hret; subst. simpl. split; [split; eauto |].
      intros Hn. exists m'. split; [exact Hf' |].
      destruct (field m'); [reflexivity | discriminate].
    - intros w1 u1 w2 [Ho1 [m [Hf Pm]]] Hbody.
      apply bind_returned in Hbody. destruct Hbody as [l [w3 [Hr Hrem]]].
      apply read_mesh_returned in Hr. destruct Hr as [m' [Hf' [-> ->]]].
      destruct (field m') as [| layer rest]; [discriminate |].
      apply layers_remove_returned in Hrem.
      destruct Hrem as [m2 [Hf2 [_ ->]]]. unfold tick in *. cbn [scene] in *.
      split; [exact Ho1 |]. cbn [scene].
      rewrite find_mesh_update by (intros; apply with_field_did).
      rewrite Nat.eqb_refl. rewrite Hf2. simpl. eexists. split; [reflexivity |].
      apply HP. rewrite Hf in Hf2. inversion Hf2; subst. exact Pm. }
  destruct Hfin as [[Ho' [m [Hf Pm]]] [m' [Hf' He]]].
  split; [exact Ho' |]. rewrite Hf in Hf'. inversion Hf'; subst. eauto.
Qed.

(** With a host that does not fail and more fuel than layers, the loop
    returns. *)
Lemma clear_layers_runs (d : nat) (P : Mesh -> Prop) :
  (forall l m, P m -> P (with_field l m)) ->
  forall n fuel w m,
    quiet w -> find_mesh d (scene w) = Some m -> List.length (field m) = n ->
    (n < fuel)%nat -> P m ->
    exists w',
      clear_layers fuel (read_mesh d field) (layers_remove field with_field d) w
      = (Ok tt, w')
      /\ quiet w' /\ objects (scene w') = objects (scene w)
      /\ exists m', find_mesh d (scene w') = Some m' /\ P m' /\ field m' = [].
Proof.
  intros HP. unfold clear_layers.
  induction n as [| n IH]; intros fuel w m Hq Hf Hlen Hfuel Pm;
    (destruct fuel as [| k]; [lia |]); simpl.
  - rewrite (bind_run _ _ w (tick w (scene w)) false).
    + exists (tick w (scene w)). repeat split; auto using tick_quiet.
      exists m. destruct (field m); [auto | discriminate].
    + rewrite (bind_run _ _ w (tick w (scene w)) (field m)).
      * destruct (field m); [reflexivity | discriminate].
      * apply read_mesh_run; auto using quiet_next_fault.
  - destruct (field m) as [| layer rest] eqn:Ef; [discriminate |].
    rewrite (bind_run _ _ w (tick w (scene w)) true).
    2:{ rewrite (bind_run _ _ w (tick w (scene w)) (field m)).
        - rewrite Ef. reflexivity.
        - apply read_mesh_run; auto using quiet_next_fault. }
    set (w1 := tick w (scene w)).
    assert (Hq1 : quiet w1) by (apply tick_quiet; exact Hq).
    set (w2 := tick w1 (scene w1)).
    assert (Hq2 : quiet w2) by (apply tick_quiet; exact Hq1).
    set (s2 := update_mesh d (fun k => with_field (remove_first layer (field k)) k)
                           (scene w)).
    assert (Hbody :
              bind (read_mesh d field)
                   (fun l => match l with
                             | layer :: _ => layers_remove field with_field d layer
                             | [] => raise (Exception "IndexError"
                                       "bpy_prop_collection[index]: index 0 out of range")
                             end) w1
              = (Ok tt, tick w2 s2)).
    { rewrite (bind_run _ _ w1 w2 (field m)).
      - rewrite Ef. unfold layers_remove.
        rewrite call_run by (apply quiet_next_fault; exact Hq2).
        change (scene w2) with (scene w). rewrite Hf, Ef.
        unfold mem. cbn [existsb]. rewrite String.eqb_refl. reflexivity.
      - apply read_mesh_run; [apply quiet_next_fault; exact Hq1 | exact Hf]. }
    rewrite (bind_run _ _ w1 (tick w2 s2) tt Hbody).
    assert (Hf2 : find_mesh d (scene (tick w2 s2))
                  = Some (with_field (remove_first layer (field m)) m)).
    { cbn [scene tick]. unfold s2.
      rewrite find_mesh_update by (intros; apply with_field_did).
      rewrite Nat.eqb_refl, Hf. reflexivity. }
    destruct (IH k (tick w2 s2) _ (tick_quiet _ _ Hq2) Hf2) as [w' [Hw [Hq' [Ho Hm']]]].
    + rewrite with_field_get, Ef. cbn [remove_first]. rewrite String.eqb_refl.
      simpl in Hlen. lia.
    + lia.
    + apply HP. exact Pm.
    + exists w'. repeat split; auto.
Qed.

End CleanupMesh.

Section CleanupMeshSpec.
Context {host : Host}.

Lemma find_object_same_objects (o : nat) (s s' : Scene) :
  objects s = objects s' -> find_object o s = find_object o s'.
Proof. unfold find_object. intros ->. reflexivity. Qed.

Lemma mesh_of_data (s : Scene) (x : Object) (m : Mesh) :
  mesh_of s x = Some m ->
  exists d, odata x = Some d /\ find_mesh d s = Some m.
Proof. unfold mesh_of. destruct (odata x) as [d |]; [eauto | discriminate]. Qed.

(** C6.  When [cleanup_mesh] returns, the mesh data of the object has no
    material, no UV layer, no vertex colour layer and no shape key.  And it
    does return, for an object with mesh data, when the host does not fail
    and the fuel exceeds the numbers of UV and vertex colour layers. *)
Theorem cleanup_mesh_strips (fuel obj : nat) (w : World) :
  (forall u w',
      cleanup_mesh fuel obj w = (Ok u, w') ->
      exists x m,
        find_object obj (scene w') = Some x /\ mesh_of (scene w') x = Some m
        /\ materials m = [] /\ uv_layers m = [] /\ vertex_colors m = []
        /\ shape_keys m = [])
  /\ (forall x m,
         quiet w -> find_object obj (scene w) = Some x ->
         mesh_of (scene w) x = Some m ->
         (List.length (uv_layers m) < fuel)%nat ->
         (List.length (vertex_colors m) < fuel)%nat ->
         exists w', cleanup_mesh fuel obj w = (Ok tt, w')).
Proof.
  split.
  - intros u w' H. unfold cleanup_mesh in H.
    apply bind_returned in H. destruct H as [v [w1 [H1 H]]].
    apply read_object_returned in H1. destruct H1 as [x [Hx [-> ->]]].
    apply bind_returned in H. destruct H as [d [w2 [H2 H]]].
    apply the_returned in H2. destruct H2 as [Hd ->].
    apply bind_returned in H. destruct H as [u3 [w3 [H3 H]]].
    apply write_mesh_returned in H3. destruct H3 as [m0 [Hm0 ->]].
    apply bind_returned in H. destruct H as [u4 [w4 [H4 H]]].
    apply (clear_layers_returned uv_layers with_uv_layers) with
      (P := fun m => materials m = []) (objs := objects (scene w)) in H4;
      [| reflexivity | intros l m Hm; exact Hm | reflexivity |].
    2:{ cbn [scene tick]. rewrite find_mesh_update by reflexivity.
        rewrite Nat.eqb_refl. cbn [scene tick] in Hm0. rewrite Hm0.
        eexists. split; reflexivity. }
    destruct H4 as [Ho4 [m4 [Hm4 [Hmat4 Huv4]]]].
    apply bind_returned in H. destruct H as [u5 [w5 [H5 H]]].
    apply (clear_layers_returned vertex_colors with_vertex_colors) with
      (P := fun m => materials m = [] /\ uv_layers m = [])
      (objs := objects (scene w)) in H5;
      [| reflexivity | intros l m Hm; exact Hm | exact Ho4 | eauto].
    destruct H5 as [Ho5 [m5 [Hm5 [[Hmat5 Huv5] Hvc5]]]].
    assert (Hx5 : find_object obj (scene w5) = Some x).
    { rewrite (find_object_same_objects obj (scene w5) (scene w)); auto. }
    apply bind_returned in H. destruct H as [v6 [w6 [H6 H]]].
    apply read_object_returned in H6. destruct H6 as [x6 [Hx6 [-> ->]]].
    rewrite Hx5 in Hx6. inversion Hx6; subst x6.
    apply bind_returned in H. destruct H as [d7 [w7 [H7 H]]].
    apply the_returned in H7. destruct H7 as [Hd7 ->].
    rewrite Hd in Hd7. inversion Hd7; subst d7.
    apply bind_returned in H. destruct H as [ks [w8 [H8 H]]].
    apply read_mesh_returned in H8. destruct H8 as [m8 [Hm8 [-> ->]]].
    cbn [scene tick] in Hm8. rewrite Hm5 in Hm8. inversion Hm8; subst m8.
    destruct (shape_keys m5) as [| key rest] eqn:Esk; cbn [nonempty] in H.
    + inversion H; subst. cbn [scene tick].
      exists x, m5. unfold mesh_of. rewrite Hd. auto 10.
    + apply shape_key_clear_returned in H. destruct H as [x9 [Hx9 ->]].
      cbn [scene tick] in Hx9. rewrite Hx5 in Hx9. inversion Hx9; subst x9.
      rewrite Hd. cbn [scene tick].
      exists x, (with_shape_keys [] m5). unfold mesh_of. rewrite Hd.
      rewrite find_mesh_update by reflexivity. rewrite Nat.eqb_refl, Hm5.
      rewrite (find_object_same_objects obj _ (scene w5)) by reflexivity.
      auto 10.
  - intros x m Hq Hx Hm Huv Hvc.
    destruct (mesh_of_data _ _ _ Hm) as [d [Hd Hf]].
    unfold cleanup_mesh.
    rewrite (bind_run _ _ w (tick w (scene w)) (odata x))
      by (apply (read_object_run obj (fun _ => odata)); auto using quiet_next_fault).
    rewrite Hd. rewrite (bind_run _ _ _ (tick w (scene w)) d) by reflexivity.
    set (w1 := tick w (scene w)).
    assert (Hq1 : quiet w1) by (apply tick_quiet; exact Hq).
    set (s2 := update_mesh d (with_materials []) (scene w1)).
    rewrite (bind_run _ _ w1 (tick w1 s2) tt)
      by (apply (write_mesh_run d _ w1 m); auto using quiet_next_fault).
    assert (Hf2 : find_mesh d (scene (tick w1 s2)) = Some (with_materials [] m)).
    { cbn [scene tick]. unfold s2. rewrite find_mesh_update by reflexivity.
      rewrite Nat.eqb_refl. change (scene w1) with (scene w). rewrite Hf. reflexivity. }
    destruct (clear_layers_runs uv_layers with_uv_layers
                (fun l m => eq_refl) (fun l m => eq_refl) d
                (fun k => vertex_colors k = vertex_colors m)
                (fun l k Hk => Hk) _ fuel (tick w1 s2) _
                (tick_quiet _ _ Hq1) Hf2 eq_refl Huv eq_refl)
      as [w3 [Hr3 [Hq3 [Ho3 [m3 [Hm3 [Hvc3 _]]]]]]].
    unfold get_uv_layers, uv_layers_remove.
    rewrite (bind_run _ _ _ w3 tt Hr3).
    assert (Hvc' : (List.length (vertex_colors m3) < fuel)%nat)
      by (rewrite Hvc3; exact Hvc).
    destruct (clear_layers_runs vertex_colors with_vertex_colors
                (fun l m => eq_refl) (fun l m => eq_refl) d
                (fun _ => True) (fun l k Hk => Hk) _ fuel w3 m3
                Hq3 Hm3 eq_refl Hvc' I)
      as [w4 [Hr4 [Hq4 [Ho4 [m4 [Hm4 _]]]]]].
    unfold get_vertex_colors, vertex_colors_remove.
    rewrite (bind_run _ _ _ w4 tt Hr4).
    assert (Hx4 : find_object obj (scene w4) = Some x).
    { rewrite (find_object_same_objects obj (scene w4) (scene w)); [exact Hx |].
      rewrite Ho4, Ho3. reflexivity. }
    rewrite (bind_run _ _ w4 (tick w4 (scene w4)) (odata x))
      by (apply (read_object_run obj (fun _ => odata)); auto using quiet_next_fault).
    rewrite Hd. rewrite (bind_run _ _ _ (tick w4 (scene w4)) d) by reflexivity.
    set (w5 := tick w4 (scene w4)).
    assert (Hq5 : quiet w5) by (apply tick_quiet; exact Hq4).
    rewrite (bind_run _ _ w5 (tick w5 (scene w5)) (shape_keys m4))
      by (apply read_mesh_run; auto using quiet_next_fault).
    destruct (nonempty (shape_keys m4)); [| eexists; reflexivity].
    unfold shape_key_clear.
    rewrite call_run by (apply quiet_next_fault; apply tick_quiet; exact Hq5).
    cbn [scene tick w5]. rewrite Hx4, Hd. eexists. reflexivity.
Qed.

End CleanupMeshSpec.

(* ================================================================== *)
(** * Unique names *)
(* ================================================================== *)

Section Names.

Lemma mem_In (s : string) (l : list string) : mem s l = true <-> In s l.
Proof.
  unfold mem. rewrite existsb_exists. split.
  - intros [x [Hin E]]. apply String.eqb_eq in E. subst. exact Hin.
  - intros H. exists s. split; [exact H | apply String.eqb_refl].
Qed.

Lemma mem_false (s : string) (l : list string) : mem s l = false <-> ~ In s l.
Proof.
  rewrite <- mem_In. destruct (mem s l); split; intros; congruence.
Qed.

Lemma append_length (a b : string) :
  String.length (a ++ b)%string = (String.length a + String.length b)%nat.
Proof. induction a as [| c a IH]; simpl; [reflexivity | rewrite IH; reflexivity]. Qed.

Lemma append_inv_head (a b c : string) : (a ++ b = a ++ c)%string -> b = c.
Proof. induction a as [| x a IH]; simpl; intros H; [exact H | inversion H; auto]. Qed.

Lemma digits_value_zero (s : string) :
  digits_value (String "0" s) = digits_value s.
Proof.
  unfold digits_value. simpl.
  destruct (NilEmpty.uint_of_string s) as [u |]; reflexivity.
Qed.

Lemma digits_value_zeros (n : nat) (s : string) :
  digits_value (str_repeat "0" n ++ s)%string = digits_value s.
Proof.
  induction n as [| n IH]; simpl; [reflexivity |].
  rewrite digits_value_zero. exact IH.
Qed.

Lemma digits_value_str_of_nat (n : nat) : digits_value (str_of_nat n) = n.
Proof.
  unfold str_of_nat, NilZero.string_of_uint, digits_value.
  destruct (Nat.to_uint n) eqn:E;
    try (rewrite <- E, NilEmpty.usu; apply Unsigned.of_to).
  pose proof (Unsigned.of_to n) as H. rewrite E in H. simpl. exact H.
Qed.

Lemma pad3_value (n : nat) : digits_value (pad3 n) = n.
Proof. unfold pad3. rewrite digits_value_zeros. apply digits_value_str_of_nat. Qed.

Lemma numbered_inj (base : string) (j k : nat) :
  numbered base j = numbered base k -> j = k.
Proof.
  unfold numbered. intros H. apply append_inv_head in H.
  apply (append_inv_head ".") in H.
  rewrite <- (pad3_value j), <- (pad3_value k), H. reflexivity.
Qed.

Lemma numbered_longer (base : string) (k : nat) : numbered base k <> base.
Proof.
  intros H. apply (f_equal String.length) in H.
  unfold numbered in H. rewrite !append_length in H. simpl in H. lia.
Qed.

Lemma first_free_cases (used : list string) (base : string) :
  forall fuel n,
    exists k, first_free used base n fuel = numbered base k
              /\ (mem (numbered base k) used = false
                  \/ forall j, (n <= j < n + fuel)%nat -> In (numbered base j) used).
Proof.
  induction fuel as [| fuel IH]; intros n; simpl.
  - exists n. split; [reflexivity |]. right. intros j Hj. lia.
  - destruct (mem (numbered base n) used) eqn:E.
    + destruct (IH (S n)) as [k [Ek Hk]]. exists k. split; [exact Ek |].
      destruct Hk as [Hk | Hk]; [left; exact Hk |]. right. intros j Hj.
      destruct (Nat.eq_dec j n) as [-> | Hne]; [apply mem_In; exact E |].
      apply Hk. lia.
    + exists n. auto.
Qed.

(** A name that is free is given as it is asked for. *)
Lemma unique_name_free (used : list string) (req : string) :
  ~ In req used -> unique_name used req = req.
Proof.
  intros H. unfold unique_name. apply mem_false in H. rewrite H. reflexivity.
Qed.

(** The name given is the one asked for or that name with a number. *)
Lemma unique_name_cases (used : list string) (req : string) :
  (unique_name used req = req /\ ~ In req used)
  \/ (In req used /\ exists k, unique_name used req = numbered req k).
Proof.
  unfold unique_name. destruct (mem req used) eqn:E.
  - right. split; [apply mem_In; exact E |].
    destruct (first_free_cases used req (List.length used) 1) as [k [Ek _]]. eauto.
  - left. split; [reflexivity | apply mem_false; exact E].
Qed.

(** The name given is not in use. *)
Lemma unique_name_fresh (used : list string) (req : string) :
  ~ In (unique_name used req) used.
Proof.
  unfold unique_name. destruct (mem req used) eqn:E; [| apply mem_false; exact E].
  destruct (first_free_cases used req (List.length used) 1) as [k [Ek Hk]].
  rewrite Ek. destruct Hk as [Hk | Hk]; [apply mem_false; exact Hk |].
  exfalso.
  assert (Hnd : NoDup (req :: map (numbered req) (seq 1 (List.length used)))).
  { constructor.
    - intros Hin. apply in_map_iff in Hin. destruct Hin as [j [Hj _]].
      apply (numbered_longer req j). exact Hj.
    - apply Injective_map_NoDup; [| apply seq_NoDup].
      intros a b. apply numbered_inj. }
  assert (Hincl : incl (req :: map (numbered req) (seq 1 (List.length used))) used).
  { intros x [<- | Hin]; [apply mem_In; exact E |].
    apply in_map_iff in Hin. destruct Hin as [j [<- Hj]].
    apply in_seq in Hj. apply Hk. lia. }
  pose proof (NoDup_incl_length Hnd Hincl) as Hlen.
  simpl in Hlen. rewrite length_map, length_seq in Hlen. lia.
Qed.

End Names.

(* ================================================================== *)
(** * [decimate_mesh] *)
(* ================================================================== *)

Section Decimate.
Context {host : Host}.

Lemma get_mesh_triangle_count_scene (obj : nat) (s0 : Scene) :
  stable (on_scene (eq s0)) (get_mesh_triangle_count obj).
Proof.
  walk ltac:(idtac; apply stable_call_scene; intros s <-; cbn;
             repeat (match goal with
                     | |- context [match ?x with _ => _ end] => destruct x
                     end; cbn); reflexivity).
Qed.

(** What [get_mesh_triangle_count] returns is the triangle count. *)
Lemma get_mesh_triangle_count_returned (obj : nat) (w w' : World) (n : Z) :
  get_mesh_triangle_count obj w = (Ok n, w') ->
  exists x, find_object obj (scene w) = Some x
            /\ triangle_count (scene w) x = Some n.
Proof.
  unfold get_mesh_triangle_count. intros H.
  apply bind_returned in H. destruct H as [t [w1 [H1 H]]].
  apply read_object_returned in H1. destruct H1 as [x [Hx [-> ->]]].
  exists x. split; [exact Hx |]. unfold triangle_count, is_mesh.
  destruct (String.eqb (otype x) "MESH"); cbn [negb] in *.
  - apply bind_returned in H. destruct H as [u2 [w2 [H2 H]]].
    apply call_returned in H2. destruct H2 as [_ [s2 [H2 ->]]].
    inversion H2; subst s2.
    apply bind_returned in H. destruct H as [ev [w3 [H3 H]]].
    apply read_object_returned in H3. destruct H3 as [x3 [Hx3 [-> ->]]].
    cbn [scene tick] in Hx3. rewrite Hx in Hx3. inversion Hx3; subst x3.
    apply bind_returned in H. destruct H as [k [w4 [H4 H]]].
    apply call_returned in H4. destruct H4 as [_ [s4 [H4 ->]]].
    cbn [scene tick fst snd] in H4.
    destruct (mesh_of (scene w) x) as [m |]; cbn in H4; [| discriminate].
    inversion H4; subst.
    apply bind_returned in H. destruct H as [u5 [w5 [_ H]]].
    inversion H; subst. reflexivity.
  - inversion H; subst. reflexivity.
Qed.

(** With a host that does not fail it returns that count. *)
Lemma get_mesh_triangle_count_runs (obj : nat) (w : World) (x : Object) (n : Z) :
  quiet w -> find_object obj (scene w) = Some x ->
  triangle_count (scene w) x = Some n ->
  exists w', get_mesh_triangle_count obj w = (Ok n, w')
             /\ quiet w' /\ scene w' = scene w.
Proof.
  intros Hq Hx Hn. unfold get_mesh_triangle_count.
  rewrite (bind_run _ _ w (tick w (scene w)) (otype x))
    by (apply (read_object_run obj (fun _ => otype)); auto using quiet_next_fault).
  unfold triangle_count, is_mesh in Hn.
  destruct (String.eqb (otype x) "MESH"); cbn [negb].
  - set (w1 := tick w (scene w)).
    assert (Hq1 : quiet w1) by (apply tick_quiet; exact Hq).
    unfold evaluated_depsgraph_get.
    rewrite (bind_run _ _ w1 (tick w1 (scene w1)) tt)
      by (rewrite call_run by (apply quiet_next_fault; exact Hq1); reflexivity).
    set (w2 := tick w1 (scene w1)).
    assert (Hq2 : quiet w2) by (apply tick_quiet; exact Hq1).
    destruct (mesh_of (scene w) x) as [m |] eqn:Em; [| discriminate].
    inversion Hn; subst n.
    rewrite (bind_run _ _ w2 (tick w2 (scene w2))
                      (option_map geom (mesh_of (scene w2) x), modifiers x))
      by (apply (read_object_run obj
                   (fun s x => (option_map geom (mesh_of s x), modifiers x)));
          auto using quiet_next_fault).
    set (w3 := tick w2 (scene w2)).
    assert (Hq3 : quiet w3) by (apply tick_quiet; exact Hq2).
    change (scene w2) with (scene w). rewrite Em. cbn [option_map].
    unfold to_mesh_loop_triangles.
    rewrite (bind_run _ _ w3 (tick w3 (scene w3))
                      (loop_triangles (geom m) (modifiers x)))
      by (rewrite call_run by (apply quiet_next_fault; exact Hq3); reflexivity).
    set (w4 := tick w3 (scene w3)).
    assert (Hq4 : quiet w4) by (apply tick_quiet; exact Hq3).
    unfold to_mesh_clear.
    rewrite (bind_run _ _ w4 (tick w4 (scene w4)) tt)
      by (rewrite call_run by (apply quiet_next_fault; exact Hq4); reflexivity).
    eexists. split; [reflexivity |]. split; [apply tick_quiet; exact Hq4 | reflexivity].
  - inversion Hn; subst n. eexists. split; [reflexivity |].
    split; [apply tick_quiet; exact Hq | reflexivity].
Qed.

(** ** A modifier with a fresh name at the end of a stack *)

Lemma map_named_fresh (md : string) (f : Modifier -> Modifier) (l : list Modifier) :
  ~ In md (map mod_name l) ->
  map (fun m => if String.eqb (mod_name m) md then f m else m) l = l.
Proof.
  induction l as [| a r IH]; simpl; intros H; [reflexivity |].
  destruct (String.eqb (mod_name a) md) eqn:E.
  - apply String.eqb_eq in E. tauto.
  - rewrite IH by tauto. reflexivity.
Qed.

Lemma find_named_last (md : string) (l : list Modifier) (m : Modifier) :
  ~ In md (map mod_name l) -> mod_name m = md ->
  find (fun k => String.eqb (mod_name k) md) (l ++ [m]) = Some m.
Proof.
  induction l as [| a r IH]; simpl; intros H E.
  - rewrite E, String.eqb_refl. reflexivity.
  - destruct (String.eqb (mod_name a) md) eqn:Ea.
    + apply String.eqb_eq in Ea. tauto.
    + apply IH; tauto.
Qed.

Lemma filter_named_last (md : string) (l : list Modifier) (m : Modifier) :
  ~ In md (map mod_name l) -> mod_name m = md ->
  filter (fun k => negb (String.eqb (mod_name k) md)) (l ++ [m]) = l.
Proof.
  induction l as [| a r IH]; simpl; intros H E.
  - rewrite E, String.eqb_refl. reflexivity.
  - destruct (String.eqb (mod_name a) md) eqn:Ea.
    + apply String.eqb_eq in Ea. tauto.
    + simpl. rewrite IH by tauto. reflexivity.
Qed.

Lemma has_modifier_last (md : string) (x : Object) (l : list Modifier) (m : Modifier) :
  mod_name m = md -> has_modifier md (with_modifiers (l ++ [m]) x) = true.
Proof.
  intros E. unfold has_modifier. simpl. rewrite existsb_app. simpl.
  rewrite E, String.eqb_refl. apply orb_true_iff. right. reflexivity.
Qed.

Lemma with_modifiers_same (x : Object) : with_modifiers (modifiers x) x = x.
Proof. destruct x; reflexivity. Qed.

Lemma target_of_positive (name : string) : (0 < target_of name)%Z.
Proof.
  unfold target_of, TARGET_TRIANGLES, dict_get.
  repeat match goal with
         | |- context [if ?b then _ else _] => destruct b
         end; reflexivity.
Qed.

Ltac run_call Hq := rewrite call_run by (apply quiet_next_fault; exact Hq).

Lemma map_named_last (md : string) (f : Modifier -> Modifier) (l : list Modifier)
      (m : Modifier) :
  ~ In md (map mod_name l) -> mod_name m = md ->
  map (fun k => if String.eqb (mod_name k) md then f k else k) (l ++ [m])
  = l ++ [f m].
Proof.
  intros H E. rewrite map_app, map_named_fresh by exact H. simpl.
  rewrite E, String.eqb_refl. reflexivity.
Qed.

(** A write to the modifier at the end of the stack. *)
Lemma write_modifier_last (obj : nat) (md : string) (f : Modifier -> Modifier)
      (w : World) (x : Object) (l : list Modifier) (m : Modifier) :
  quiet w -> find_object obj (scene w) = Some (with_modifiers (l ++ [m]) x) ->
  ~ In md (map mod_name l) -> mod_name m = md ->
  exists w',
    write_modifier obj md f w = (Ok tt, w') /\ quiet w'
    /\ find_object obj (scene w') = Some (with_modifiers (l ++ [f m]) x)
    /\ meshes (scene w') = meshes (scene w)
    /\ active_object (scene w') = active_object (scene w).
Proof.
  intros Hq Hx Hl Hm. unfold write_modifier. run_call Hq. rewrite Hx.
  rewrite has_modifier_last by exact Hm. cbn [ok fst snd].
  eexists. split; [reflexivity |]. split; [apply tick_quiet; exact Hq |].
  cbn [scene tick]. split; [| split; reflexivity].
  rewrite find_object_update by reflexivity. rewrite Nat.eqb_refl, Hx.
  cbn [option_map with_modifiers modifiers oid oname otype odata matrix_world
       selected users_collection].
  rewrite map_named_last by assumption. reflexivity.
Qed.

Lemma decimate_runs (obj : nat) (target : Z) (w : World) (x : Object) (m : Mesh) :
  quiet w -> find_object obj (scene w) = Some x -> is_mesh x = true ->
  mesh_of (scene w) x = Some m ->
  (0 <= target < loop_triangles (geom m) (modifiers x))%Z ->
  let n := loop_triangles (geom m) (modifiers x) in
  let md := unique_name (map mod_name (modifiers x)) "Decimate" in
  let applied := mkModifier md "DECIMATE" "COLLAPSE"
                            (inject_Z target / inject_Z n) true in
  exists w',
    decimate_mesh obj target w = (Ok tt, w')
    /\ find_object obj (scene w') = Some x
    /\ find_mesh (did m) (scene w')
       = Some (with_geom (modifier_apply_geom applied (geom m)) m)
    /\ active_object (scene w') = Some obj.
Proof.
  intros Hq Hx Hmesh Hm Hlt n md applied.
  destruct (mesh_of_data _ _ _ Hm) as [d [Hd Hf]].
  pose proof (find_mesh_did _ _ _ Hf) as Hdid.
  assert (Hn : triangle_count (scene w) x = Some n).
  { unfold triangle_count. rewrite Hmesh, Hm. reflexivity. }
  destruct (get_mesh_triangle_count_runs obj w x n Hq Hx Hn) as [w1 [H1 [Hq1 Hs1]]].
  unfold decimate_mesh. rewrite (bind_run _ _ _ _ _ H1).
  replace (n <=? target)%Z with false by (symmetry; apply Z.leb_gt; lia).
  replace (n =? 0)%Z with false by (symmetry; apply Z.eqb_neq; lia).
  assert (Hfresh : ~ In md (map mod_name (modifiers x))) by apply unique_name_fresh.
  set (m0 := mkModifier md "DECIMATE" "COLLAPSE" 1 false).
  set (s2 := update_object obj (fun y => with_modifiers (modifiers y ++ [m0]) y) (scene w)).
  assert (E2 : modifiers_new obj "Decimate" "DECIMATE" w1 = (Ok md, tick w1 s2)).
  { unfold modifiers_new. run_call Hq1. rewrite Hs1, Hx. reflexivity. }
  rewrite (bind_run _ _ _ _ _ E2).
  assert (Hq2 : quiet (tick w1 s2)) by (apply tick_quiet; exact Hq1).
  assert (Hx2 : find_object obj s2 = Some (with_modifiers (modifiers x ++ [m0]) x)).
  { unfold s2. rewrite find_object_update by reflexivity. rewrite Nat.eqb_refl, Hx. reflexivity. }
  destruct (write_modifier_last obj md (with_decimate_type "COLLAPSE") (tick w1 s2)
              x (modifiers x) m0 Hq2 Hx2 Hfresh eq_refl)
    as [w3 [E3 [Hq3 [Hx3 [Hm3 Ha3]]]]].
  rewrite (bind_run _ _ _ _ _ E3).
  destruct (write_modifier_last obj md (with_ratio (inject_Z target / inject_Z n)) w3
              x (modifiers x) _ Hq3 Hx3 Hfresh eq_refl)
    as [w4 [E4 [Hq4 [Hx4 [Hm4 Ha4]]]]].
  rewrite (bind_run _ _ _ _ _ E4).
  destruct (write_modifier_last obj md (with_use_collapse_triangulate true) w4
              x (modifiers x) _ Hq4 Hx4 Hfresh eq_refl)
    as [w5 [E5 [Hq5 [Hx5 [Hm5 Ha5]]]]].
  rewrite (bind_run _ _ _ _ _ E5).
  change (with_use_collapse_triangulate true
            (with_ratio (inject_Z target / inject_Z n)
               (with_decimate_type "COLLAPSE" m0))) with applied in Hx5.
  assert (Hmeshes : meshes (scene w5) = meshes (scene w)).
  { rewrite Hm5, Hm4, Hm3. reflexivity. }
  set (s6 := set_active_object (Some obj) (scene w5)).
  assert (E6 : set_active obj w5 = (Ok tt, tick w5 s6)).
  { unfold set_active. run_call Hq5. rewrite Hx5. reflexivity. }
  rewrite (bind_run _ _ _ _ _ E6).
  assert (Hq6 : quiet (tick w5 s6)) by (apply tick_quiet; exact Hq5).
  assert (Hx6 : find_object obj s6 = Some (with_modifiers (modifiers x ++ [applied]) x))
    by exact Hx5.
  assert (Hf6 : find_mesh d s6 = Some m).
  { unfold find_mesh, s6. cbn [meshes set_active_object]. rewrite Hmeshes. exact Hf. }
  assert (E7 : modifier_name obj md (tick w5 s6) = (Ok md, tick (tick w5 s6) s6)).
  { unfold modifier_name. run_call Hq6. cbn [scene tick]. rewrite Hx6.
    rewrite has_modifier_last by reflexivity. reflexivity. }
  rewrite (bind_run _ _ _ _ _ E7).
  assert (Hq7 : quiet (tick (tick w5 s6) s6)) by (apply tick_quiet; exact Hq6).
  set (s8 := update_object obj
               (fun y => with_modifiers
                           (filter (fun k => negb (String.eqb (mod_name k) md))
                                   (modifiers y)) y)
               (update_mesh (did m)
                  (fun k => with_geom (modifier_apply_geom applied (geom k)) k) s6)).
  assert (E8 : ops_object_modifier_apply md (tick (tick w5 s6) s6)
               = (Ok tt, tick (tick (tick w5 s6) s6) s8)).
  { unfold ops_object_modifier_apply. run_call Hq7. cbn [scene tick].
    change (active_object s6) with (Some obj). cbv iota. rewrite Hx6.
    cbn [modifiers with_modifiers].
    rewrite find_named_last by (auto || reflexivity).
    unfold mesh_of. cbn [odata with_modifiers]. rewrite Hd, Hf6. reflexivity. }
  rewrite (bind_run _ _ _ _ _ E8).
  set (w8 := tick (tick (tick w5 s6) s6) s8).
  assert (Hq8 : quiet w8) by (apply tick_quiet; exact Hq7).
  assert (Hx8 : find_object obj (scene w8) = Some x).
  { cbn [scene tick w8]. unfold s8. rewrite find_object_update by reflexivity.
    rewrite Nat.eqb_refl.
    change (find_object obj (update_mesh (did m)
              (fun k => with_geom (modifier_apply_geom applied (geom k)) k) s6))
      with (find_object obj s6).
    rewrite Hx6. cbn [option_map modifiers with_modifiers].
    rewrite filter_named_last by (auto || reflexivity).
    cbn [with_modifiers oid oname otype odata matrix_world selected users_collection].
    destruct x; reflexivity. }
  assert (Hf8 : find_mesh (did m) (scene w8)
                = Some (with_geom (modifier_apply_geom applied (geom m)) m)).
  { cbn [scene tick w8]. unfold s8.
    change (find_mesh (did m) (update_object obj ?f ?s)) with (find_mesh (did m) s).
    rewrite find_mesh_update by reflexivity. rewrite Nat.eqb_refl.
    rewrite Hdid, Hf6. reflexivity. }
  assert (Hn8 : triangle_count (scene w8) x
                = Some (loop_triangles (modifier_apply_geom applied (geom m))
                                       (modifiers x))).
  { unfold triangle_count, mesh_of. rewrite Hmesh, Hd, <- Hdid, Hf8. reflexivity. }
  destruct (get_mesh_triangle_count_runs obj w8 x _ Hq8 Hx8 Hn8) as [w9 [E9 [Hq9 Hs9]]].
  rewrite (bind_run _ _ _ _ _ E9).
  rewrite (bind_run _ _ w9 (tick w9 (scene w9)) (oname x))
    by (apply (read_object_run obj (fun _ => oname));
        [apply quiet_next_fault; exact Hq9 | rewrite Hs9; exact Hx8]).
  eexists. split; [reflexivity |].
  cbn [scene tick]. rewrite Hs9. auto.
Qed.

Lemma target_of_table (name : string) :
  In (name, target_of name) TARGET_TRIANGLES
  \/ (~ In name (keys TARGET_TRIANGLES) /\ target_of name = 20000%Z).
Proof.
  unfold target_of, TARGET_TRIANGLES, keys. cbn [dict_get map fst].
  destruct (String.eqb "Body" name) eqn:E1;
    [apply String.eqb_eq in E1; subst name; left; cbn [In]; auto 6 |].
  destruct (String.eqb "Veins" name) eqn:E2;
    [apply String.eqb_eq in E2; subst name; left; cbn [In]; auto 6 |].
  destruct (String.eqb "Brain" name) eqn:E3;
    [apply String.eqb_eq in E3; subst name; left; cbn [In]; auto 6 |].
  destruct (String.eqb "Heart" name) eqn:E4;
    [apply String.eqb_eq in E4; subst name; left; cbn [In]; auto 6 |].
  right. split; [| reflexivity].
  apply String.eqb_neq in E1, E2, E3, E4. cbn [In]. intuition congruence.
Qed.

Lemma report_scene (obj : nat) (n : Z) (s0 : Scene) :
  stable (on_scene (eq s0))
         (name <- get_name obj ;;
          log [Str ("  " ++ name ++ ": " ++ str_of_Z n
                         ++ " tris (no decimation needed)")] "INFO").
Proof.
  apply stable_bind.
  - apply stable_call_scene. intros s <-. cbn. destruct (find_object obj s0); reflexivity.
  - intros name. apply stable_log_scene.
Qed.


End Decimate.

(* ================================================================== *)
(** * What the calls leave alone *)
(* ================================================================== *)

Section Frames.
Context {host : Host}.

Lemma fresh_above (l : list nat) (n : nat) : In n l -> (n < fresh l)%nat.
Proof.
  unfold fresh. induction l as [| a r IH]; simpl; [tauto |].
  intros [-> | H]; [lia |]. specialize (IH H). lia.
Qed.

Lemma fresh_not_in (l : list nat) : ~ In (fresh l) l.
Proof. intros H. apply fresh_above in H. lia. Qed.

Lemma NoDup_snoc_fresh (l : list nat) : NoDup l -> NoDup (l ++ [fresh l]).
Proof.
  intros H. apply NoDup_app; [exact H | repeat constructor; simpl; tauto |].
  intros x Hx [<- | []]. exact (fresh_not_in l Hx).
Qed.

Lemma bake_collections (l : list Object) (s : Scene) :
  collections (fold_left bake l s) = collections s.
Proof.
  revert s. induction l as [| x r IH]; intros s; simpl; [reflexivity |].
  rewrite IH. unfold bake. destruct (odata x); reflexivity.
Qed.

Lemma recentre_collections (l : list Object) (s : Scene) :
  collections (fold_left recentre l s) = collections s.
Proof.
  revert s. induction l as [| x r IH]; intros s; simpl; [reflexivity |].
  rewrite IH. unfold recentre. destruct (mesh_of s x); [| reflexivity].
  destruct (origin_set_bounds _ _). reflexivity.
Qed.

End Frames.

(** The case analysis a call makes on the scene. *)
Ltac split_call :=
  cbn;
  repeat (match goal with
          | |- context [match ?x with _ => _ end] =>
              lazymatch type of x with
              | res _ => fail
              | prod _ _ => fail
              | _ => destruct x
              end
          end; cbn).

(** The walk, with [known] tried on every part before it is opened. *)
Ltac walk_with known leaf :=
  tryif known then idtac else
    (lazymatch goal with
      | |- stable _ (bind _ _) =>
          apply stable_bind; [walk_with known leaf | intro; walk_with known leaf]
      | |- stable _ (ret _) => apply stable_ret
      | |- stable _ (raise _) => apply stable_raise
      | |- stable _ (the _) => apply stable_the
      | |- stable _ (for_each _ _) => apply stable_for_each; intro; walk_with known leaf
      | |- stable _ (for_collect _ _) =>
          apply stable_for_collect; intro; walk_with known leaf
      | |- stable _ (for_fold _ _ _) =>
          apply stable_for_fold; intros; walk_with known leaf
      | |- stable _ (while _ _ _) => apply stable_while; walk_with known leaf
      | |- stable _ (try_except_finally _ _ _) =>
          apply stable_try_except_finally;
          [walk_with known leaf | intro; walk_with known leaf | walk_with known leaf]
      | |- stable _ (call _) => leaf
      | |- stable _ (call_out _) => leaf
      | |- stable _ (log _ _) => leaf
      | |- stable _ (traceback_print_exc _) => leaf
      | |- stable _ (if ?b then _ else _) => destruct b; walk_with known leaf
      | |- stable _ (match ?x with _ => _ end) => destruct x; walk_with known leaf
      | |- stable _ (let '(_, _) := ?x in _) => destruct x; walk_with known leaf
      | |- stable _ ?m => let h := head_of m in unfold h; walk_with known leaf
      end).

Section Handles.
Context {host : Host}.

Ltac same_collections H :=
  match goal with
  | |- distinct_collections ?s' =>
      let E := fresh "E" in
      assert (E : collections s' = collections _) by (split_call; reflexivity);
      unfold distinct_collections; rewrite E; exact H
  end.

Ltac collections_leaf :=
  let s := fresh "s" in
  let H := fresh "H" in
  lazymatch goal with
  | |- stable _ (log _ _) => apply stable_log_scene
  | |- stable _ (traceback_print_exc _) => apply stable_traceback_scene
  | |- stable _ (call_out _) =>
      apply stable_call_out_scene; intros s H; exact H
  | |- stable _ (call _) =>
      apply stable_call_scene; intros s H;
      first
        [ same_collections H
        | unfold distinct_collections in *; cbn; rewrite ?bake_collections,
            ?recentre_collections; exact H
        | unfold distinct_collections in *; cbn; rewrite map_app;
          apply NoDup_snoc_fresh; exact H
        | unfold distinct_collections in *; split_call;
          first [exact H | apply filter_keeps_distinct; exact H] ]
  end.

(** Every part of [main] keeps the handles of the collections distinct. *)
Lemma main_try_distinct_collections (fuel : nat) (p : Path) :
  stable (on_scene distinct_collections) (main_try fuel p).
Proof. walk_with ltac:(fail) ltac:(idtac; collections_leaf). Qed.

Lemma main_except_distinct_collections (e : exn) :
  stable (on_scene distinct_collections) (main_except e).
Proof. walk_with ltac:(fail) ltac:(idtac; collections_leaf). Qed.

Lemma main_prologue_distinct_collections (argv : list string) :
  stable (on_scene distinct_collections) (main_prologue argv).
Proof. walk_with ltac:(fail) ltac:(idtac; collections_leaf). Qed.

End Handles.

(* ================================================================== *)
(** * [cleanup_scene] *)
(* ================================================================== *)

Section CleanupScene.
Context {host : Host}.

Lemma for_each_returned {A} (body : A -> M unit) (I : list A -> World -> Prop) :
  (forall a rest w u w', I (a :: rest) w -> body a w = (Ok u, w') -> I rest w') ->
  forall l w u w', I l w -> for_each l body w = (Ok u, w') -> I [] w'.
Proof.
  intros Hb. induction l as [| a rest IH]; intros w u w' Hi H; simpl in H.
  - inversion H; subst. exact Hi.
  - apply bind_returned in H. destruct H as [u1 [w1 [H1 H]]].
    apply (IH w1 u w'); [| exact H]. apply (Hb a rest w u1 w1 Hi H1).
Qed.

Lemma collection_name_returned (c : nat) (w w' : World) (name : string) :
  collection_name c w = (Ok name, w') ->
  exists k, find_collection c (scene w) = Some k /\ name = cname k
            /\ w' = tick w (scene w).
Proof.
  intros H. apply call_returned in H. destruct H as [_ [s [H ->]]].
  destruct (find_collection c (scene w)) as [k |]; cbn in H; inversion H; subst.
  exists k. auto.
Qed.

Lemma list_collection_objects_returned (c : CollRef) (w w' : World) (objs : list nat) :
  list_collection_objects c w = (Ok objs, w') ->
  objs = map oid (collection_objects c (scene w)) /\ w' = tick w (scene w).
Proof.
  intros H. apply call_returned in H. destruct H as [_ [s [H ->]]].
  destruct (collection_alive c (scene w)); cbn in H; inversion H; subst. auto.
Qed.

Lemma objects_remove_returned (o : nat) (w w' : World) (u : unit) :
  objects_remove o w = (Ok u, w') ->
  objects (scene w') = filter (fun x => negb (Nat.eqb (oid x) o)) (objects (scene w))
  /\ collections (scene w') = collections (scene w).
Proof.
  intros H. apply call_returned in H. destruct H as [_ [s [H ->]]].
  destruct (find_object o (scene w)); cbn in H; inversion H; subst. auto.
Qed.

Lemma collections_remove_returned (c : nat) (w w' : World) (u : unit) :
  collections_remove c w = (Ok u, w') ->
  objects (scene w') = map (unlinked (DataCollection c)) (objects (scene w))
  /\ collections (scene w')
     = filter (fun k => negb (Nat.eqb (cid_of k) c)) (collections (scene w)).
Proof.
  intros H. apply call_returned in H. destruct H as [_ [s [H ->]]].
  destruct (find_collection c (scene w)); cbn in H; inversion H; subst. auto.
Qed.

Lemma find_collection_unique (c : nat) (s : Scene) (k1 k2 : Collection) :
  distinct_collections s -> find_collection c s = Some k1 ->
  In k2 (collections s) -> cid_of k2 = c -> k2 = k1.
Proof.
  unfold distinct_collections, find_collection.
  induction (collections s) as [| a r IH]; simpl; intros Hnd Hf Hin Hc; [tauto |].
  inversion Hnd as [| ? ? Hn Hr]; subst.
  destruct (Nat.eqb (cid_of a) (cid_of k2)) eqn:E.
  - inversion Hf; subst. destruct Hin as [-> | Hin]; [reflexivity |].
    exfalso. apply Hn. apply Nat.eqb_eq in E. rewrite E. apply in_map. exact Hin.
  - destruct Hin as [-> | Hin]; [rewrite Nat.eqb_refl in E; discriminate |].
    apply IH; auto.
Qed.

Lemma linked_in_unlinked (c r : CollRef) (x : Object) :
  CollRef_eqb c r = false ->
  linked_in r (unlinked c x) = linked_in r x.
Proof.
  intros Hne. unfold linked_in, unlinked. simpl.
  induction (users_collection x) as [| a l IH]; simpl; [reflexivity |].
  destruct (CollRef_eqb c a) eqn:E; simpl.
  - rewrite IH. destruct (CollRef_eqb r a) eqn:Er; [| reflexivity].
    exfalso. destruct c, r, a; simpl in *; try discriminate.
    apply Nat.eqb_eq in E, Er. subst. rewrite Nat.eqb_refl in Hne. discriminate.
  - rewrite IH. reflexivity.
Qed.

Lemma removing_step (s : Scene) (objs : list nat) (o : nat) (rest : list nat)
      (w w' : World) (u : unit) :
  removing s objs (o :: rest) w -> objects_remove o w = (Ok u, w') ->
  removing s objs rest w'.
Proof.
  intros [Hincl [Hc [Hsub [Hgone Hstay]]]] H.
  assert (Ho : In o objs) by (apply Hincl; left; reflexivity).
  apply objects_remove_returned in H. destruct H as [Hobj Hcol].
  unfold removing. rewrite Hobj, Hcol. repeat split.
  - intros a Ha. apply Hincl. right. exact Ha.
  - exact Hc.
  - intros x Hx. apply filter_In in Hx. apply Hsub. tauto.
  - intros x Hx Hl. destruct (Nat.eq_dec (oid x) o) as [E | E].
    + right. intros Hin. apply in_map_iff in Hin. destruct Hin as [y [Ey Hy]].
      apply filter_In in Hy. destruct Hy as [_ Hy]. rewrite Ey, E, Nat.eqb_refl in Hy.
      discriminate.
    + destruct (Hgone x Hx Hl) as [[Eo | Hr] | Hg]; [congruence | auto |].
      right. intros Hin. apply Hg. apply in_map_iff in Hin.
      destruct Hin as [y [Ey Hy]]. apply filter_In in Hy. apply in_map_iff.
      exists y. tauto.
  - intros x Hx Hn. apply filter_In. split; [apply Hstay; assumption |].
    apply negb_true_iff. apply Nat.eqb_neq. intros E. apply Hn. rewrite E. exact Ho.
Qed.

Lemma cleanup_step (s0 : Scene) (c : nat) (rest : list nat) (w w' : World) (u : unit) :
  to_clean s0 (c :: rest) w ->
  (name <- collection_name c ;;
   if startswith name "HumanLayer_" then
     objs <- list_collection_objects (DataCollection c) ;;
     for_each objs (fun obj => objects_remove obj) ;;
     collections_remove c
   else ret tt) w = (Ok u, w') ->
  to_clean s0 rest w'.
Proof.
  intros [Hnd [Hleft Hdoomed]] H.
  apply bind_returned in H. destruct H as [name [w1 [H1 H]]].
  apply collection_name_returned in H1. destruct H1 as [kc [Hkc [-> ->]]].
  fold (humanlayer kc) in H. destruct (humanlayer kc) eqn:Ehl.
  - apply bind_returned in H. destruct H as [objs [w2 [H2 H]]].
    apply list_collection_objects_returned in H2. destruct H2 as [Hobjs ->].
    cbn [scene tick] in Hobjs.
    apply bind_returned in H. destruct H as [u3 [w3 [H3 H]]].
    set (s := scene w) in *.
    assert (Hrem : removing s objs [] w3).
    { refine (for_each_returned (fun obj => objects_remove obj) (removing s objs)
                _ objs (tick (tick w s) s) u3 w3 _ H3).
      - intros a r wa ua wb. apply removing_step.
      - unfold removing. cbn [scene tick]. repeat split; auto using incl_refl. }
    destruct Hrem as [_ [Hc3 [Hsub [Hgone Hstay]]]].
    apply collections_remove_returned in H. destruct H as [Hobj Hcol].
    unfold to_clean, distinct_collections. rewrite Hobj, Hcol, Hc3. repeat split.
    + apply filter_keeps_distinct. exact Hnd.
    + intros k Hk Hh. apply filter_In in Hk. destruct Hk as [Hk Hne].
      destruct (Hleft k Hk Hh) as [E | Hin]; [| exact Hin].
      rewrite E, Nat.eqb_refl in Hne. discriminate.
    + intros o Hd Hpresent.
      rewrite map_map in Hpresent. cbn [oid unlinked with_users_collection] in Hpresent.
      assert (Hp3 : In o (map oid (objects (scene w3)))) by exact Hpresent.
      assert (Hps : In o (map oid (objects s))).
      { apply in_map_iff in Hp3. destruct Hp3 as [y [Ey Hy]].
        apply in_map_iff. exists y. split; [exact Ey | apply Hsub; exact Hy]. }
      destruct (Hdoomed o Hd Hps) as [x [k [Hx [Hox [Hk [Hh Hl]]]]]].
      assert (Hlisted : forall y, In y (objects s) -> oid y = o ->
                                  In (oid y) objs -> False).
      { intros y Hy Ey Hin. destruct (Hgone y Hy Hin) as [[] | Hg].
        apply Hg. rewrite Ey. exact Hp3. }
      destruct (Nat.eq_dec (cid_of k) c) as [Ec | Ec].
      * exfalso. apply (Hlisted x Hx Hox). rewrite Hobjs. apply in_map.
        unfold collection_objects. apply filter_In. split; [exact Hx |].
        rewrite <- Ec. exact Hl.
      * exists (unlinked (DataCollection c) x), k. repeat split.
        -- apply in_map. apply Hstay; [exact Hx |]. intros Hin.
           apply (Hlisted x Hx Hox Hin).
        -- exact Hox.
        -- apply filter_In. split; [exact Hk |]. apply negb_true_iff.
           apply Nat.eqb_neq. exact Ec.
        -- exact Hh.
        -- rewrite linked_in_unlinked; [exact Hl |]. simpl.
           apply Nat.eqb_neq. congruence.
  - inversion H; subst. cbn [scene tick]. unfold to_clean. repeat split.
    + exact Hnd.
    + intros k Hk Hh. destruct (Hleft k Hk Hh) as [E | Hin]; [| exact Hin].
      exfalso. rewrite (find_collection_unique c (scene w) kc k Hnd Hkc Hk) in Hh
        by (symmetry; exact E).
      congruence.
    + exact Hdoomed.
Qed.

(** When [cleanup_scene] returns, no collection whose name starts with
    [HumanLayer_] is left, and the objects that were linked in such a
    collection are gone. *)
Lemma cleanup_scene_clears (w w' : World) (u : unit) :
  distinct_collections (scene w) ->
  cleanup_scene w = (Ok u, w') ->
  (forall k, In k (collections (scene w')) -> humanlayer k = false)
  /\ (forall x, In x (objects (scene w)) ->
                linked_in_humanlayer (scene w) x = true ->
                ~ In (oid x) (map oid (objects (scene w')))).
Proof.
  intros Hnd H. unfold cleanup_scene in H.
  apply bind_returned in H. destruct H as [colls [w1 [H1 H]]].
  apply call_returned in H1. destruct H1 as [_ [s1 [H1 ->]]].
  inversion H1; subst colls s1. clear H1.
  assert (Hend : to_clean (scene w) [] w').
  { refine (for_each_returned _ (to_clean (scene w)) _ _ _ _ _ _ H).
    - intros a rest wa ua wb. apply cleanup_step.
    - unfold to_clean. cbn [scene tick]. repeat split.
      + exact Hnd.
      + intros k Hk _. apply in_map. exact Hk.
      + intros o [x [Hx [Ho Hl]]] _. unfold linked_in_humanlayer in Hl.
        apply existsb_exists in Hl. destruct Hl as [k [Hk Hkl]].
        apply andb_prop in Hkl. exists x, k. tauto. }
  destruct Hend as [_ [Hleft Hdoomed]]. split.
  - intros k Hk. destruct (humanlayer k) eqn:E; [| reflexivity].
    destruct (Hleft k Hk E).
  - intros x Hx Hl Hin.
    destruct (Hdoomed (oid x)) as [y [k [_ [_ [Hk [Hh _]]]]]]; [| exact Hin |].
    + exists x. auto.
    + destruct (Hleft k Hk Hh).
Qed.

Lemma ends_plainly_log (message : list Part) (level : string) :
  ends_plainly (log message level).
Proof. intros w. exact I. Qed.

Lemma ends_plainly_call_out {A} (f : Scene -> res A * Scene * list Effect) :
  (forall s, match fst (fst (f s)) with
             | Ok _ => True
             | Raise e => is_Exception e = true
             | OutOfFuel => False
             end) ->
  ends_plainly (call_out f).
Proof.
  intros H w. unfold call_out. destruct (next_fault w) as [[cls msg] |]; [reflexivity |].
  specialize (H (scene w)). destruct (f (scene w)) as [[r s] out]. exact H.
Qed.

Lemma main_prologue_ends_plainly (argv : list string) :
  ends_plainly (main_prologue argv).
Proof.
  unfold main_prologue.
  repeat (apply ends_plainly_bind; [apply ends_plainly_log | intros ?]).
  apply ends_plainly_bind; [apply ends_plainly_call_out; intros s; exact I | intros ?].
  apply ends_plainly_bind; [apply ends_plainly_log | intros ?].
  apply ends_plainly_ret.
Qed.

(** A [try] that ends by a return or a [SystemExit] has run its [finally]
    to the end. *)
Lemma try_finally_completed {A} (body : M A) (handler : exn -> M A) (final : M unit)
      (I : World -> Prop) (w w' : World) (r : res A) :
  stable I body -> (forall e, stable I (handler e)) -> ends_plainly final ->
  I w -> try_except_finally body handler final w = (r, w') ->
  (exists a, r = Ok a) \/ (exists c, r = Raise (SystemExit c)) ->
  exists w1, I w1 /\ final w1 = (Ok tt, w').
Proof.
  intros Hb Hh Hf Hi H Hr.
  assert (Hfin : forall (r0 : res A) w1,
             I w1 -> finally_ r0 final w1 = (r, w') ->
             exists w1, I w1 /\ final w1 = (Ok tt, w')).
  { intros r0 w1 Hi1 H1. unfold finally_ in H1. specialize (Hf w1).
    destruct (final w1) as [[[] | e |] w2] eqn:E; simpl in Hf.
    - inversion H1; subst. eauto.
    - inversion H1; subst. destruct Hr as [[a Hr] | [c Hr]]; [discriminate |].
      inversion Hr; subst. discriminate.
    - contradiction. }
  unfold try_except_finally in H. specialize (Hb w Hi).
  destruct (body w) as [[a | e |] w1].
  - apply (Hfin (Ok a) w1 Hb H).
  - destruct (is_Exception e).
    + specialize (Hh e w1 Hb). destruct (handler e w1) as [[a | e' |] w2].
      * apply (Hfin (Ok a) w2 Hh H).
      * apply (Hfin (Raise e') w2 Hh H).
      * inversion H; subst. destruct Hr as [[a Hr] | [c Hr]]; discriminate.
    + apply (Hfin (Raise e) w1 Hb H).
  - inversion H; subst. destruct Hr as [[a Hr] | [c Hr]]; discriminate.
Qed.

(** C10.  When [main] ends by a return or by [SystemExit(1)], it is
    [cleanup_scene] that has ended it, and has returned: no collection whose
    name starts with [HumanLayer_] is left in the scene, and the objects
    that were linked in such a collection when [cleanup_scene] began are
    gone. *)
Theorem main_cleans_up (fuel : nat) (argv : list string) (w w' : World) (r : res unit) :
  distinct_collections (scene w) ->
  main fuel argv w = (r, w') ->
  r = Ok tt \/ r = Raise (SystemExit 1) ->
  exists w1,
    cleanup_scene w1 = (Ok tt, w')
    /\ (forall k, In k (collections (scene w')) ->
                  startswith (cname k) "HumanLayer_" = false)
    /\ (forall x, In x (objects (scene w1)) ->
                  linked_in_humanlayer (scene w1) x = true ->
                  ~ In (oid x) (map oid (objects (scene w')))).
Proof.
  intros Hnd H Hr. unfold main, bind in H.
  pose proof (main_prologue_distinct_collections argv w Hnd) as Hp.
  pose proof (main_prologue_ends_plainly argv w) as He.
  destruct (main_prologue argv w) as [[p | e |] w0]; simpl in He.
  - destruct (try_finally_completed _ _ _ (on_scene distinct_collections) w0 w' r
                (main_try_distinct_collections fuel p)
                main_except_distinct_collections
                cleanup_scene_ends_plainly Hp H) as [w1 [Hi Hc]].
    { destruct Hr as [-> | ->]; eauto. }
    exists w1. split; [exact Hc |].
    apply (cleanup_scene_clears w1 w' tt Hi Hc).
  - inversion H; subst. destruct Hr as [Hr | Hr]; [discriminate |].
    inversion Hr; subst. discriminate.
  - contradiction.
Qed.

End CleanupScene.

(* ================================================================== *)
(** * The objects the script leaves in place *)
(* ================================================================== *)

Section Kept.
Context {host : Host}.

Lemma kept_apart_spec (s : Scene) (o : nat) :
  kept_apart s o = true <->
  (exists x, In x (objects s) /\ oid x = o)
  /\ (forall x r, In x (objects s) -> oid x = o -> In r (users_collection x) ->
                  in_humanlayer s r = false).
Proof.
  unfold kept_apart, outside_humanlayer.
  rewrite andb_true_iff, existsb_exists, forallb_forall. split.
  - intros [[x [Hx Ex]] Hall]. split.
    + exists x. split; [exact Hx | apply Nat.eqb_eq; exact Ex].
    + intros y r Hy Ey Hr. specialize (Hall y Hy).
      rewrite Ey, Nat.eqb_refl in Hall. rewrite forallb_forall in Hall.
      apply negb_true_iff. apply Hall. exact Hr.
  - intros [[x [Hx Ex]] Hall]. split.
    + exists x. split; [exact Hx | apply Nat.eqb_eq; exact Ex].
    + intros y Hy. destruct (Nat.eqb (oid y) o) eqn:E; [| reflexivity].
      apply Nat.eqb_eq in E. apply forallb_forall. intros r Hr.
      apply negb_true_iff. apply (Hall y r Hy E Hr).
Qed.

(** How [kept_apart] goes from a scene to the next. *)
Lemma kept_apart_transfer (s s' : Scene) (o : nat) :
  kept_apart s o = true ->
  (exists x', In x' (objects s') /\ oid x' = o) ->
  (forall x' r, In x' (objects s') -> oid x' = o -> In r (users_collection x') ->
                (exists x, In x (objects s) /\ oid x = o /\ In r (users_collection x))
                /\ (in_humanlayer s r = false -> in_humanlayer s' r = false)) ->
  kept_apart s' o = true.
Proof.
  intros H Hex Hrefs. apply kept_apart_spec in H. destruct H as [_ Hall].
  apply kept_apart_spec. split; [exact Hex |].
  intros x' r Hx' Ex' Hr. destruct (Hrefs x' r Hx' Ex' Hr) as [[x [Hx [Ex Hrx]]] Hh].
  apply Hh. apply (Hall x r Hx Ex Hrx).
Qed.

Lemma in_humanlayer_collections (s s' : Scene) (r : CollRef) :
  collections s' = collections s -> in_humanlayer s' r = in_humanlayer s r.
Proof. intros E. unfold in_humanlayer, find_collection. rewrite E. reflexivity. Qed.

(** Scenes with the same links and collections agree on [kept_apart]. *)
Lemma kept_apart_agree (s s' : Scene) (o : nat) :
  links s' = links s -> collections s' = collections s ->
  kept_apart s o = true -> kept_apart s' o = true.
Proof.
  intros El Ec H. apply (kept_apart_transfer s s' o H).
  - apply kept_apart_spec in H. destruct H as [[x [Hx Ex]] _].
    assert (Hin : In (oid x, users_collection x) (links s')).
    { rewrite El. unfold links. apply in_map_iff. exists x. auto. }
    unfold links in Hin. apply in_map_iff in Hin. destruct Hin as [x' [E Hx']].
    inversion E. exists x'. split; [exact Hx' | congruence].
  - intros x' r Hx' Ex' Hr. split.
    + assert (Hin : In (oid x', users_collection x') (links s)).
      { rewrite <- El. unfold links. apply in_map_iff. exists x'. auto. }
      unfold links in Hin. apply in_map_iff in Hin. destruct Hin as [x [E Hx]].
      inversion E as [[Eo Er]]. exists x. repeat split; [exact Hx | congruence |].
      rewrite Er. exact Hr.
    + rewrite (in_humanlayer_collections s s' r Ec). auto.
Qed.

Lemma bake_objects (l : list Object) (s : Scene) :
  objects (fold_left bake l s) = objects s.
Proof.
  revert s. induction l as [| x r IH]; intros s; simpl; [reflexivity |].
  rewrite IH. unfold bake. destruct (odata x); reflexivity.
Qed.

Lemma links_update_object (o : nat) (f : Object -> Object) (s : Scene) :
  (forall x, oid (f x) = oid x /\ users_collection (f x) = users_collection x) ->
  links (update_object o f s) = links s.
Proof.
  intros Hf. unfold links, update_object. cbn [objects set_objects].
  rewrite map_map. apply map_ext. intros x.
  destruct (Nat.eqb (oid x) o); [| reflexivity].
  destruct (Hf x) as [-> ->]. reflexivity.
Qed.

Lemma recentre_links (l : list Object) (s : Scene) :
  links (fold_left recentre l s) = links s.
Proof.
  revert s. induction l as [| x r IH]; intros s; simpl; [reflexivity |].
  rewrite IH. unfold recentre. destruct (mesh_of s x); [| reflexivity].
  destruct (origin_set_bounds _ _). rewrite links_update_object; [reflexivity |].
  intros y. split; reflexivity.
Qed.

Ltac links_eq :=
  split_call; unfold links; cbn;
  rewrite ?bake_objects, ?map_map;
  first [ reflexivity
        | apply recentre_links
        | apply map_ext; intros;
          repeat match goal with
                 | |- context [if ?b then _ else _] => destruct b
                 end; reflexivity ].

Ltac collections_eq :=
  split_call; rewrite ?bake_collections, ?recentre_collections; reflexivity.

(** The calls that change no link and no collection. *)
Ltac kept_leaf :=
  let s := fresh "s" in
  let H := fresh "H" in
  lazymatch goal with
  | |- stable _ (log _ _) => apply stable_log_scene
  | |- stable _ (traceback_print_exc _) => apply stable_traceback_scene
  | |- stable _ (call_out _) => apply stable_call_out_scene; intros s H; exact H
  | |- stable _ (call _) =>
      apply stable_call_scene; intros s H;
      apply (kept_apart_agree s); [links_eq | collections_eq | exact H]
  end.

Lemma get_data_kept (o obj : nat) : stable (kept o) (get_data obj).
Proof. walk_with ltac:(fail) ltac:(idtac; kept_leaf). Qed.

Lemma transform_kept (o : nat) : stable (kept o) ops_object_transform_apply.
Proof. walk_with ltac:(fail) ltac:(idtac; kept_leaf). Qed.

Lemma origin_kept (o : nat) : stable (kept o) ops_object_origin_set.
Proof. walk_with ltac:(fail) ltac:(idtac; kept_leaf). Qed.

Lemma decimate_kept (o obj : nat) t : stable (kept o) (decimate_mesh obj t).
Proof. walk_with ltac:(fail) ltac:(idtac; kept_leaf). Qed.

Lemma cleanup_mesh_kept (o obj fuel : nat)  : stable (kept o) (cleanup_mesh fuel obj).
Proof. walk_with ltac:(fail) ltac:(idtac; kept_leaf). Qed.

Lemma kept_apart_present (s : Scene) (o : nat) :
  kept_apart s o = true -> In o (map oid (objects s)).
Proof.
  intros H. apply kept_apart_spec in H. destruct H as [[x [Hx Ex]] _].
  apply in_map_iff. exists x. auto.
Qed.

Lemma kept_apart_not_fresh (s : Scene) (o : nat) :
  kept_apart s o = true -> fresh (map oid (objects s)) <> o.
Proof.
  intros H E. apply kept_apart_present in H. rewrite <- E in H.
  exact (fresh_not_in _ H).
Qed.

(** A new object with a handle of its own changes nothing for [o]. *)
Lemma kept_apart_more_objects (s s' : Scene) (o : nat) (g : Object -> Object)
      (x : Object) :
  objects s' = map g (objects s) ++ [x] ->
  (forall y, oid (g y) = oid y /\ users_collection (g y) = users_collection y) ->
  oid x <> o -> collections s' = collections s ->
  kept_apart s o = true -> kept_apart s' o = true.
Proof.
  intros Eo Hg Hx Ec H. apply (kept_apart_transfer s s' o H).
  - apply kept_apart_spec in H. destruct H as [[y [Hy Ey]] _].
    exists (g y). rewrite Eo. split.
    + apply in_or_app. left. apply in_map. exact Hy.
    + destruct (Hg y) as [-> _]. exact Ey.
  - intros x' r Hx' Ex' Hr. rewrite Eo in Hx'. apply in_app_or in Hx'.
    destruct Hx' as [Hx' | [<- | []]]; [| congruence].
    apply in_map_iff in Hx'. destruct Hx' as [y [<- Hy]].
    destruct (Hg y) as [Eoid Erefs]. split.
    + exists y. rewrite <- Eoid, <- Erefs. auto.
    + rewrite (in_humanlayer_collections s s' r Ec). auto.
Qed.

Lemma objects_new_kept (o : nat) (name : string) (d : nat) :
  hoare (kept o) (objects_new name d) (fun r w => r <> o /\ kept o w) (kept o).
Proof.
  apply hoare_call. intros w Hw. split; [intros e _; exact Hw |]. intros _.
  unfold kept, on_scene in *. cbn [scene].
  destruct (find_mesh d (scene w)); cbn; [| exact Hw]. split.
  - apply kept_apart_not_fresh. exact Hw.
  - eapply (kept_apart_more_objects (scene w) _ o (fun y => y));
      [cbn; rewrite map_id; reflexivity | intros; split; reflexivity | | reflexivity
       | exact Hw].
    cbn. apply kept_apart_not_fresh. exact Hw.
Qed.

Lemma primitive_add_kept (o : nat) (p : Primitive) : stable (kept o) (primitive_add p).
Proof.
  apply stable_call_scene. intros s H. cbn [snd ok].
  eapply (kept_apart_more_objects s _ o (with_selected false));
    [cbn; reflexivity | intros; split; reflexivity | | reflexivity | exact H].
  cbn. apply kept_apart_not_fresh. exact H.
Qed.

Lemma find_collection_more (s : Scene) (k : Collection) (c : nat) (k0 : Collection) :
  find (fun x => Nat.eqb (cid_of x) c) (collections s) = Some k0 ->
  find (fun x => Nat.eqb (cid_of x) c) (collections s ++ [k]) = Some k0.
Proof.
  induction (collections s) as [| a r IH]; simpl; [discriminate |].
  destruct (Nat.eqb (cid_of a) c); auto.
Qed.

Lemma collections_new_kept (o : nat) (name : string) :
  stable (kept o) (collections_new name).
Proof.
  apply stable_call_scene. intros s H. cbn [snd ok].
  apply (kept_apart_transfer s _ o H).
  - apply kept_apart_spec in H. destruct H as [Hex _]. exact Hex.
  - intros x r Hx Ex Hr. cbn [objects] in Hx. split; [eauto |].
    unfold in_humanlayer. destruct r as [| c]; [auto |].
    unfold find_collection. cbn [collections].
    destruct (find (fun k => Nat.eqb (cid_of k) c) (collections s)) as [k0 |] eqn:E;
      [| discriminate].
    rewrite (find_collection_more s _ c k0 E). auto.
Qed.

Lemma find_filter_other (l : list Collection) (c c' : nat) :
  c' <> c ->
  find (fun k => Nat.eqb (cid_of k) c')
       (filter (fun k => negb (Nat.eqb (cid_of k) c)) l)
  = find (fun k => Nat.eqb (cid_of k) c') l.
Proof.
  intros Hne. induction l as [| a r IH]; simpl; [reflexivity |].
  destruct (Nat.eqb (cid_of a) c) eqn:E; simpl.
  - apply Nat.eqb_eq in E. rewrite E.
    destruct (Nat.eqb c c') eqn:E'; [apply Nat.eqb_eq in E'; congruence | exact IH].
  - destruct (Nat.eqb (cid_of a) c'); [reflexivity | exact IH].
Qed.

Lemma collections_remove_kept (o c : nat) : stable (kept o) (collections_remove c).
Proof.
  apply stable_call_scene. intros s H.
  destruct (find_collection c s) eqn:Ef; cbn [snd ok removed fail]; [| exact H].
  apply (kept_apart_transfer s _ o H).
  - apply kept_apart_spec in H. destruct H as [[x [Hx Ex]] _].
    exists (unlinked (DataCollection c) x). split; [| exact Ex].
    cbn [objects]. apply in_map_iff. exists x. auto.
  - intros x' r Hx' Ex' Hr. cbn [objects] in Hx'.
    apply in_map_iff in Hx'. destruct Hx' as [x [<- Hx]].
    cbn [users_collection with_users_collection] in Hr.
    apply filter_In in Hr. destruct Hr as [Hr Hne]. split; [exists x; auto |].
    unfold in_humanlayer. destruct r as [| c']; [auto |].
    unfold find_collection. cbn [collections].
    rewrite find_filter_other; [auto |].
    intros E. subst c'. simpl in Hne. rewrite Nat.eqb_refl in Hne. discriminate.
Qed.

Lemma unlink_kept (o : nat) (c : CollRef) (o' : nat) :
  stable (kept o) (collection_objects_unlink c o').
Proof.
  apply stable_call_scene. intros s H.
  destruct (collection_alive c s); [| exact H].
  destruct (find_object o' s) as [x0 |]; [| exact H].
  destruct (linked_in c x0); cbn [snd ok removed fail]; [| exact H].
  apply (kept_apart_transfer s _ o H).
  - apply kept_apart_spec in H. destruct H as [[x [Hx Ex]] _].
    exists (if Nat.eqb (oid x) o' then unlinked c x else x). split.
    + cbn [objects update_object set_objects]. apply in_map_iff. exists x. auto.
    + destruct (Nat.eqb (oid x) o'); exact Ex.
  - intros x' r Hx' Ex' Hr. cbn [objects update_object set_objects] in Hx'.
    apply in_map_iff in Hx'. destruct Hx' as [x [<- Hx]].
    split; [| auto]. exists x. destruct (Nat.eqb (oid x) o'); [| auto].
    cbn [users_collection with_users_collection oid] in *.
    apply filter_In in Hr. tauto.
Qed.

Lemma link_kept (o : nat) (c : CollRef) (o' : nat) :
  o' <> o -> stable (kept o) (collection_objects_link c o').
Proof.
  intros Hne. apply stable_call_scene. intros s H.
  destruct (collection_alive c s); [| exact H].
  destruct (find_object o' s) as [x0 |]; [| exact H].
  destruct (linked_in c x0); cbn [snd ok removed fail]; [exact H |].
  apply (kept_apart_transfer s _ o H).
  - apply kept_apart_spec in H. destruct H as [[x [Hx Ex]] _].
    exists x. split; [| exact Ex].
    cbn [objects update_object set_objects]. apply in_map_iff. exists x.
    destruct (Nat.eqb (oid x) o') eqn:E; [| auto].
    apply Nat.eqb_eq in E. congruence.
  - intros x' r Hx' Ex' Hr. cbn [objects update_object set_objects] in Hx'.
    apply in_map_iff in Hx'. destruct Hx' as [x [<- Hx]].
    split; [| auto]. exists x. destruct (Nat.eqb (oid x) o') eqn:E; [| auto].
    apply Nat.eqb_eq in E. cbn [oid with_users_collection] in Ex'. congruence.
Qed.

Lemma objects_remove_kept (o o' : nat) :
  o' <> o -> stable (kept o) (objects_remove o').
Proof.
  intros Hne. apply stable_call_scene. intros s H.
  destruct (find_object o' s) as [x0 |]; cbn [snd ok removed fail]; [| exact H].
  apply (kept_apart_transfer s _ o H).
  - apply kept_apart_spec in H. destruct H as [[x [Hx Ex]] _].
    exists x. split; [| exact Ex]. cbn [objects]. apply filter_In. split; [exact Hx |].
    apply negb_true_iff. apply Nat.eqb_neq. congruence.
  - intros x' r Hx' Ex' Hr. cbn [objects] in Hx'. apply filter_In in Hx'.
    split; [exists x'; tauto | auto].
Qed.

Lemma unselected_spec (s : Scene) (o : nat) :
  unselected s o = true <->
  forall x, In x (objects s) -> oid x = o -> selected x = false.
Proof.
  unfold unselected. rewrite forallb_forall. split.
  - intros H x Hx Ex. specialize (H x Hx). rewrite Ex, Nat.eqb_refl in H.
    apply negb_true_iff. exact H.
  - intros H x Hx. destruct (Nat.eqb (oid x) o) eqn:E; [| reflexivity].
    apply negb_true_iff. apply H; [exact Hx | apply Nat.eqb_eq; exact E].
Qed.

(** [bpy.ops.object.join] removes selected objects only. *)
Lemma join_kept (o : nat) :
  hoare (kept_unselected o) ops_object_join (fun _ => kept o) (kept o).
Proof.
  apply hoare_call. intros w [Hk Hu]. split; [intros e _; exact Hk |]. intros _.
  unfold kept, on_scene in *. cbn [scene].
  destruct (active_object (scene w)) as [a |]; [| exact Hk].
  destruct (find_object a (scene w)) as [ax |]; [| exact Hk].
  destruct (mesh_of (scene w) ax) as [am |]; [| exact Hk].
  destruct (is_mesh ax && selected ax); cbn [fst snd ok fail]; [| exact Hk].
  rewrite unselected_spec in Hu.
  apply (kept_apart_transfer (scene w) _ o Hk).
  - apply kept_apart_spec in Hk. destruct Hk as [[x [Hx Ex]] _].
    exists x. split; [| exact Ex]. cbn [objects update_mesh set_meshes set_objects].
    apply filter_In. split; [exact Hx |]. rewrite (Hu x Hx Ex). reflexivity.
  - intros x' r Hx' Ex' Hr. cbn [objects update_mesh set_meshes set_objects] in Hx'.
    apply filter_In in Hx'. split; [exists x'; tauto | auto].
Qed.

Lemma stable_and {A : Type} (I J : World -> Prop) (m : M A) :
  stable I m -> stable J m -> stable (fun w => I w /\ J w) m.
Proof.
  intros Hi Hj w [H1 H2]. specialize (Hi w H1). specialize (Hj w H2).
  destruct (m w) as [[a | e |] w1]; auto.
Qed.

(** A result known to differ from [o] can be used by what follows. *)
Lemma hoare_bind_fresh {B : Type} (I : World -> Prop) (o : nat) (m : M nat)
      (k : nat -> M B) (Q : B -> World -> Prop) :
  hoare I m (fun r w => r <> o /\ I w) I ->
  (forall r, r <> o -> hoare I (k r) Q I) ->
  hoare I (bind m k) Q I.
Proof.
  intros Hm Hk. eapply hoare_bind; [exact Hm |]. intros r w [Hr Hw].
  apply (Hk r Hr w Hw).
Qed.

Lemma stable_bind_fresh {B : Type} (I : World -> Prop) (o : nat) (m : M nat)
      (k : nat -> M B) :
  hoare I m (fun r w => r <> o /\ I w) I ->
  (forall r, r <> o -> stable I (k r)) ->
  stable I (bind m k).
Proof. intros Hm Hk. apply (hoare_bind_fresh I o m k _ Hm Hk). Qed.

Lemma unselected_agree (s s' : Scene) (o : nat) :
  map (fun x => (oid x, selected x)) (objects s')
  = map (fun x => (oid x, selected x)) (objects s) ->
  unselected s o = true -> unselected s' o = true.
Proof.
  intros E H. rewrite unselected_spec in *. intros x' Hx' Ex'.
  assert (Hin : In (oid x', selected x')
                   (map (fun x => (oid x, selected x)) (objects s))).
  { rewrite <- E. apply in_map_iff. exists x'. auto. }
  apply in_map_iff in Hin. destruct Hin as [x [Ep Hx]].
  assert (Eo : oid x = oid x') by congruence.
  assert (Es : selected x = selected x') by congruence.
  rewrite <- Es. apply H; [exact Hx | congruence].
Qed.

Ltac selected_eq :=
  split_call; cbn; rewrite ?map_map;
  first [ reflexivity
        | apply map_ext; intros;
          repeat match goal with
                 | |- context [if ?b then _ else _] => destruct b
                 end; reflexivity ].

Ltac unsel_leaf :=
  let s := fresh "s" in
  let H := fresh "H" in
  lazymatch goal with
  | |- stable _ (log _ _) => apply stable_log_scene
  | |- stable _ (call _) =>
      apply stable_call_scene; intros s H;
      apply (unselected_agree s); [selected_eq | exact H]
  end.

Lemma objects_new_unsel (o : nat) (name : string) (d : nat) :
  stable (unsel o) (objects_new name d).
Proof.
  apply stable_call_scene. intros s H.
  destruct (find_mesh d s); cbn [snd ok removed fail]; [| exact H].
  rewrite unselected_spec in *. intros x Hx Ex. cbn [objects set_objects] in Hx.
  apply in_app_or in Hx. destruct Hx as [Hx | [<- | []]]; [auto | reflexivity].
Qed.

Lemma duplicate_object_unsel (o obj : nat) (name : string) :
  stable (unsel o) (duplicate_object obj name).
Proof.
  walk_with ltac:(apply objects_new_unsel) ltac:(idtac; unsel_leaf).
Qed.

Lemma select_set_unsel (o o' : nat) (b : bool) :
  o' <> o -> stable (unsel o) (select_set o' b).
Proof.
  intros Hne. apply stable_call_scene. intros s H.
  destruct (find_object o' s); cbn [snd ok removed fail]; [| exact H].
  rewrite unselected_spec in *. intros x Hx Ex.
  cbn [objects update_object set_objects] in Hx. apply in_map_iff in Hx.
  destruct Hx as [y [<- Hy]]. destruct (Nat.eqb (oid y) o') eqn:E.
  - apply Nat.eqb_eq in E. cbn [oid with_selected] in Ex. congruence.
  - auto.
Qed.

Lemma deselect_unsel (o : nat) :
  hoare (kept o) select_all_DESELECT (fun _ => kept_unselected o) (kept o).
Proof.
  apply hoare_call. intros w Hk. split; [intros e _; exact Hk |]. intros _.
  unfold kept, kept_unselected, on_scene in *. cbn [scene fst snd ok]. split.
  - apply (kept_apart_agree (scene w)); [links_eq | collections_eq | exact Hk].
  - rewrite unselected_spec. intros x Hx Ex. cbn [objects set_objects] in Hx.
    apply in_map_iff in Hx. destruct Hx as [y [<- Hy]]. reflexivity.
Qed.

Ltac kept_known :=
  first [ apply primitive_add_kept
        | apply collections_new_kept
        | apply collections_remove_kept
        | apply unlink_kept
        | apply link_kept; assumption
        | apply objects_remove_kept; assumption ].

Ltac kept_walk := walk_with ltac:(idtac; kept_known) ltac:(idtac; kept_leaf).

Lemma duplicate_object_kept (o obj : nat) (name : string) :
  hoare (kept o) (duplicate_object obj name) (fun r w => r <> o /\ kept o w) (kept o).
Proof.
  unfold duplicate_object.
  eapply hoare_bind; [assert (H : stable (kept o) (get_data obj)) by kept_walk; exact H |].
  intros data.
  eapply hoare_bind; [apply (stable_the data) |]. intros d.
  eapply hoare_bind; [assert (H : stable (kept o) (mesh_copy d)) by kept_walk; exact H |].
  intros new_mesh.
  eapply hoare_bind;
    [assert (H : stable (kept o) (set_mesh_name new_mesh name)) by kept_walk; exact H |].
  intros u.
  apply hoare_bind_fresh with (o := o); [apply objects_new_kept |].
  intros new_obj Hne.
  eapply hoare_bind;
    [assert (H : stable (kept o) (get_matrix_world obj)) by kept_walk; exact H |].
  intros m.
  eapply hoare_bind;
    [assert (H : stable (kept o) (set_matrix_world new_obj m)) by kept_walk; exact H |].
  intros u1.
  eapply hoare_bind;
    [assert (H : stable (kept o) context_collection) by kept_walk; exact H |].
  intros coll.
  eapply hoare_bind; [apply (link_kept o coll new_obj Hne) |]. intros u2.
  apply hoare_ret. intros w Hw. split; assumption.
Qed.

Lemma duplicate_object_stable (o obj : nat) (name : string) :
  stable (kept o) (duplicate_object obj name).
Proof.
  intros w Hw. pose proof (duplicate_object_kept o obj name w Hw) as H.
  destruct (duplicate_object obj name w) as [[r | e |] w1]; tauto.
Qed.

Lemma kept_unselected_split (o : nat) (w : World) :
  kept_unselected o w <-> kept o w /\ unsel o w.
Proof. unfold kept_unselected, kept, unsel, on_scene. tauto. Qed.

Lemma duplicate_and_select_kept (o obj : nat) (name : string) :
  hoare (kept_unselected o)
        (dup <- duplicate_object obj name ;; select_set dup true ;; ret dup)
        (fun _ => kept_unselected o) (kept o).
Proof.
  eapply hoare_bind with (R := fun r w => r <> o /\ kept_unselected o w).
  - intros w Hw. apply kept_unselected_split in Hw. destruct Hw as [Hk Hu].
    pose proof (duplicate_object_kept o obj name w Hk) as H1.
    pose proof (duplicate_object_unsel o obj name w Hu) as H2.
    destruct (duplicate_object obj name w) as [[r | e |] w1]; auto.
    destruct H1 as [Hr Hk1]. split; [exact Hr |].
    apply kept_unselected_split. auto.
  - intros dup. intros w [Hne Hw]. apply kept_unselected_split in Hw.
    destruct Hw as [Hk Hu].
    assert (Hs : stable (kept o) (select_set dup true)) by kept_walk.
    pose proof (Hs w Hk) as H1.
    pose proof (select_set_unsel o dup true Hne w Hu) as H2.
    unfold bind. destruct (select_set dup true w) as [[u | e |] w1]; auto.
    simpl. apply kept_unselected_split. auto.
Qed.

Lemma set_active_unsel (o a : nat) : stable (unsel o) (set_active a).
Proof. walk_with ltac:(fail) ltac:(idtac; unsel_leaf). Qed.

Lemma join_meshes_kept (o : nat) (objs : list nat) (name : string) :
  stable (kept o) (join_meshes objs name).
Proof.
  unfold join_meshes. destruct objs as [| first [| second rest]].
  - apply stable_ret.
  - apply stable_bind; [apply duplicate_object_stable | intros r; apply stable_ret].
  - eapply hoare_bind; [apply deselect_unsel |]. intros u.
    eapply hoare_bind with (R := fun _ => kept_unselected o).
    + apply (hoare_for_collect
               (fun obj => dup <- duplicate_object obj (name ++ "_part") ;;
                           select_set dup true ;; ret dup)
               (fun _ _ => kept_unselected o) (kept o)
               (first :: second :: rest) []).
      intros a r acc. apply duplicate_and_select_kept.
    + intros duplicates.
      eapply hoare_bind with (R := fun _ => kept_unselected o).
      * intros w Hw. apply kept_unselected_split in Hw. destruct Hw as [Hk Hu].
        assert (Hs : stable (kept o) (set_active (hd first duplicates))) by kept_walk.
        pose proof (Hs w Hk) as H1.
        pose proof (set_active_unsel o (hd first duplicates) w Hu) as H2.
        destruct (set_active (hd first duplicates) w) as [[u0 | e |] w1]; auto.
        apply kept_unselected_split. auto.
      * intros u0. eapply hoare_bind; [apply join_kept |]. intros u1.
        assert (Hrest : stable (kept o)
                  (result <- context_active_object ;;
                   result <- the result ;;
                   set_name result name ;;
                   data <- get_data result ;;
                   data <- the data ;;
                   set_mesh_name data name ;;
                   ret (Some result))) by kept_walk.
        exact Hrest.
Qed.

Lemma create_pose_collection_kept (o : nat) (meshes : meshes_dict) (pose : string) :
  stable (kept o) (create_pose_collection meshes pose).
Proof.
  unfold create_pose_collection.
  apply stable_bind; [kept_walk |]. intros u.
  apply stable_bind; [kept_walk |]. intros collection.
  apply stable_bind; [kept_walk |]. intros u1.
  apply stable_bind; [| intros u2; apply stable_ret].
  apply stable_for_each. intros [name source_obj].
  apply stable_bind; [apply stable_the |]. intros src.
  apply stable_bind_fresh with (o := o); [apply duplicate_object_kept |].
  intros new_obj Hne. kept_walk.
Qed.

Lemma cleanup_scene_kept (o : nat) : stable (kept o) cleanup_scene.
Proof.
  unfold cleanup_scene. apply stable_bind; [kept_walk |]. intros colls.
  apply stable_for_each. intros c.
  (* the name read is that of the collection of handle [c] *)
  eapply hoare_bind with
    (R := fun name w => kept o w
                        /\ exists k, find_collection c (scene w) = Some k
                                     /\ name = cname k).
  { apply hoare_call. intros w Hw. split; [intros e _; exact Hw |]. intros _.
    destruct (find_collection c (scene w)) as [k |] eqn:E; cbn; [| exact Hw].
    split; [exact Hw |]. exists k. auto. }
  intros name. destruct (startswith name "HumanLayer_") eqn:Eh.
  - eapply hoare_bind with
      (R := fun objs w => kept o w /\ ~ In o objs).
    + apply hoare_call. intros w [Hw [k [Ek En]]].
      split; [intros e _; exact Hw |]. intros _.
      destruct (collection_alive (DataCollection c) (scene w)); cbn; [| exact Hw].
      split; [exact Hw |]. intros Hin. apply in_map_iff in Hin.
      destruct Hin as [x [Ex Hx]]. unfold collection_objects in Hx.
      apply filter_In in Hx. destruct Hx as [Hx Hl].
      unfold kept, on_scene in Hw. apply kept_apart_spec in Hw.
      destruct Hw as [_ Hall]. unfold linked_in in Hl. apply existsb_exists in Hl.
      destruct Hl as [r [Hr Er]]. specialize (Hall x r Hx Ex Hr).
      destruct r as [| c']; [discriminate |]. simpl in Er. apply Nat.eqb_eq in Er.
      subst c'. unfold in_humanlayer in Hall. rewrite Ek in Hall.
      unfold humanlayer in Hall. rewrite <- En, Eh in Hall. discriminate.
    + intros objs. apply hoare_pre with (P' := fun w => ~ In o objs /\ kept o w);
        [| tauto].
      apply hoare_fact. intros Hnot.
      apply stable_bind; [| intros u; apply collections_remove_kept].
      apply hoare_for_each_in. intros obj Hobj. apply objects_remove_kept.
      intros E. subst obj. exact (Hnot Hobj).
  - apply hoare_ret. intros w [Hw _]. exact Hw.
Qed.

Ltac main_known :=
  first [ apply duplicate_object_stable
        | apply join_meshes_kept
        | apply create_pose_collection_kept
        | apply cleanup_scene_kept
        | kept_known ].

Lemma main_kept (o fuel : nat) (argv : list string) :
  stable (kept o) (main fuel argv).
Proof. walk_with ltac:(idtac; main_known) ltac:(idtac; kept_leaf). Qed.

(** C8, as the script has it.  An object of the scene whose collections
    all exist and have names that do not start with [HumanLayer_] is still
    an object of the scene when [main] has ended, however it has ended, and
    is still outside those collections: the script links into its
    collections, joins and removes only objects it has made itself, and what
    [cleanup_scene] removes are the objects linked in collections whose
    names start with [HumanLayer_]. *)
Theorem main_keeps_objects_apart (fuel : nat) (argv : list string) (w : World)
        (x : Object) :
  In x (objects (scene w)) ->
  kept_apart (scene w) (oid x) = true ->
  let w' := snd (main fuel argv w) in
  In (oid x) (map oid (objects (scene w')))
  /\ kept_apart (scene w') (oid x) = true.
Proof.
  intros Hx Hk w'. pose proof (main_kept (oid x) fuel argv w Hk) as H.
  assert (Hk' : kept (oid x) w').
  { unfold w'. destruct (main fuel argv w) as [[u | e |] w1]; exact H. }
  split; [apply kept_apart_present |]; exact Hk'.
Qed.

End Kept.

(* ================================================================== *)
(** * The extraction *)
(* ================================================================== *)

Section Duplicates.
Context {host : Host}.

(** ** Stores that grow at the end *)

Lemma map_update_last {X : Type} (key : X -> nat) (f : X -> X) (k : nat)
      (l : list X) (x : X) :
  ~ In k (map key l) -> key x = k ->
  map (fun y => if Nat.eqb (key y) k then f y else y) (l ++ [x]) = l ++ [f x].
Proof.
  intros Hk Ex. rewrite map_app. simpl. rewrite Ex, Nat.eqb_refl. f_equal.
  induction l as [| a r IH]; simpl; [reflexivity |].
  simpl in Hk. destruct (Nat.eqb (key a) k) eqn:E.
  - apply Nat.eqb_eq in E. tauto.
  - rewrite IH by tauto. reflexivity.
Qed.

Lemma find_last {X : Type} (key : X -> nat) (k : nat) (l : list X) (x : X) :
  ~ In k (map key l) -> key x = k ->
  find (fun y => Nat.eqb (key y) k) (l ++ [x]) = Some x.
Proof.
  intros Hk Ex. induction l as [| a r IH]; simpl.
  - rewrite Ex, Nat.eqb_refl. reflexivity.
  - simpl in Hk. destruct (Nat.eqb (key a) k) eqn:E.
    + apply Nat.eqb_eq in E. tauto.
    + apply IH. tauto.
Qed.

Lemma find_more {X : Type} (p : X -> bool) (l l' : list X) (y : X) :
  find p l = Some y -> find p (l ++ l') = Some y.
Proof.
  induction l as [| a r IH]; simpl; [discriminate |].
  destruct (p a); auto.
Qed.

Lemma filter_last {X : Type} (key : X -> nat) (k : nat) (l : list X) (x : X) :
  ~ In k (map key l) -> key x = k ->
  filter (fun y => negb (Nat.eqb (key y) k)) (l ++ [x]) = l.
Proof.
  intros Hk Ex. rewrite filter_app. simpl. rewrite Ex, Nat.eqb_refl. simpl.
  rewrite app_nil_r. induction l as [| a r IH]; simpl; [reflexivity |].
  simpl in Hk. destruct (Nat.eqb (key a) k) eqn:E.
  - apply Nat.eqb_eq in E. tauto.
  - simpl. rewrite IH by tauto. reflexivity.
Qed.

Lemma find_distinct {X : Type} (key : X -> nat) (l : list X) (x : X) :
  NoDup (map key l) -> In x l ->
  find (fun y => Nat.eqb (key y) (key x)) l = Some x.
Proof.
  induction l as [| a r IH]; simpl; intros Hnd Hin; [tauto |].
  inversion Hnd as [| ? ? Hn Hr]; subst.
  destruct Hin as [-> | Hin]; [rewrite Nat.eqb_refl; reflexivity |].
  destruct (Nat.eqb (key a) (key x)) eqn:E; [| auto].
  exfalso. apply Hn. apply Nat.eqb_eq in E. rewrite E. apply in_map. exact Hin.
Qed.

(** ** Calls in a world without faults *)

Lemma call_at {A : Type} (f : Scene -> res A * Scene) (s : Scene) (t : list Effect) :
  call f (mkWorld s t []) = (fst (f s), mkWorld (snd (f s)) t []).
Proof. unfold call. cbn. destruct (f s); reflexivity. Qed.

Lemma call_gives {A : Type} (f : Scene -> res A * Scene) (s s' : Scene)
      (t : list Effect) (r : res A) :
  f s = (r, s') -> call f (mkWorld s t []) = (r, mkWorld s' t []).
Proof. intros E. rewrite call_at, E. reflexivity. Qed.

Lemma bind_at {A B : Type} (m : M A) (k : A -> M B) (w w1 : World) (a : A) :
  m w = (Ok a, w1) -> (x <- m ;; k x)%py w = k a w1.
Proof. apply bind_run. Qed.

(** ** [duplicate_object], exactly *)

(** The scene after [duplicate_object] is the scene with the copy of the
    mesh and the copy of the object at the end, and nothing else changed. *)
Lemma duplicate_object_runs (obj : nat) (name : string) (s : Scene)
      (t : list Effect) (x : Object) (d : nat) (m : Mesh) :
  find_object obj s = Some x -> odata x = Some d -> find_mesh d s = Some m ->
  collection_alive (active_collection s) s = true ->
  duplicate_object obj name (mkWorld s t [])
  = (Ok (fresh (map oid (objects s))), mkWorld (duplicated s name x m) t []).
Proof.
  intros Hx Hd Hm Hc. unfold duplicate_object.
  unfold get_data, read_object. rewrite (bind_at _ _ _ (mkWorld s t []) (Some d))
    by (rewrite call_at, Hx; cbn; rewrite Hd; reflexivity).
  rewrite (bind_at _ _ _ (mkWorld s t []) d) by reflexivity.
  set (d' := fresh (map did (meshes s))).
  set (o' := fresh (map oid (objects s))).
  assert (Hd' : ~ In d' (map did (meshes s))) by apply fresh_not_in.
  assert (Ho' : ~ In o' (map oid (objects s))) by apply fresh_not_in.
  set (m1 := mkMesh d' (unique_name (map dname (meshes s)) (dname m))
                    (geom m) (materials m) (uv_layers m) (vertex_colors m)
                    (shape_keys m)).
  rewrite (bind_at _ _ _ (mkWorld (set_meshes (meshes s ++ [m1]) s) t []) d')
    by (unfold mesh_copy; rewrite call_at, Hm; reflexivity).
  set (m2 := mesh_duplicate s name m).
  rewrite (bind_at _ _ _ (mkWorld (set_meshes (meshes s ++ [m2]) s) t []) tt).
  2:{ unfold set_mesh_name. rewrite call_at.
      unfold find_mesh. cbn [meshes set_meshes].
      rewrite (find_last did d' (meshes s) m1 Hd' eq_refl). cbn [ok fst snd].
      unfold update_mesh, other_mesh_names. cbn [meshes set_meshes].
      rewrite (map_update_last did _ d' (meshes s) m1 Hd' eq_refl).
      rewrite (filter_last did d' (meshes s) m1 Hd' eq_refl). reflexivity. }
  set (x1 := mkObject o' (unique_name (object_names s) name) "MESH" (Some d')
                      identity_matrix [] false []).
  set (s3 := mkScene (objects s ++ [x1]) (meshes s ++ [m2]) (collections s)
                     (scene_children s) (active_object s) (active_collection s)).
  rewrite (bind_at _ _ _ (mkWorld s3 t []) o').
  2:{ unfold objects_new. rewrite call_at.
      unfold find_mesh. cbn [meshes set_meshes].
      rewrite (find_last did d' (meshes s) m2 Hd' eq_refl). reflexivity. }
  assert (Hx3 : find_object obj s3 = Some x).
  { unfold find_object, s3. cbn [objects]. apply find_more. exact Hx. }
  rewrite (bind_at _ _ _ (mkWorld s3 t []) (matrix_world x))
    by (unfold get_matrix_world, read_object; rewrite call_at, Hx3; reflexivity).
  set (x2 := with_matrix_world (matrix_world x) x1).
  set (s4 := mkScene (objects s ++ [x2]) (meshes s ++ [m2]) (collections s)
                     (scene_children s) (active_object s) (active_collection s)).
  rewrite (bind_at _ _ _ (mkWorld s4 t []) tt).
  2:{ unfold set_matrix_world, write_object. rewrite call_at.
      unfold find_object, s3. cbn [objects].
      rewrite (find_last oid o' (objects s) x1 Ho' eq_refl). cbn [ok fst snd].
      unfold update_object. cbn [objects set_objects].
      rewrite (map_update_last oid _ o' (objects s) x1 Ho' eq_refl). reflexivity. }
  rewrite (bind_at _ _ _ (mkWorld s4 t []) (active_collection s))
    by (unfold context_collection; rewrite call_at; reflexivity).
  rewrite (bind_at _ _ _ (mkWorld (duplicated s name x m) t []) tt); [reflexivity |].
  unfold collection_objects_link. rewrite call_at.
  assert (Hc4 : collection_alive (active_collection s) s4 = true) by exact Hc.
  rewrite Hc4. unfold find_object, s4. cbn [objects].
  rewrite (find_last oid o' (objects s) x2 Ho' eq_refl).
  cbn [linked_in x2 x1 with_matrix_world users_collection existsb].
  cbn [ok fst snd]. unfold update_object. cbn [objects set_objects].
  rewrite (map_update_last oid _ o' (objects s) x2 Ho' eq_refl). reflexivity.
Qed.

(** ** The loop of [join_meshes] *)

Lemma collection_alive_same (c : CollRef) (s s' : Scene) :
  collections s' = collections s -> collection_alive c s' = collection_alive c s.
Proof.
  intros E. destruct c; [reflexivity |]. unfold collection_alive, find_collection.
  rewrite E. reflexivity.
Qed.

(** The loop that duplicates and selects: every turn adds one selected
    duplicate at the end. *)
Lemma duplicate_loop (name : string) (t : list Effect) (s0 : Scene) :
  collection_alive (active_collection s0) s0 = true ->
  forall (l : list nat) (s' : Scene) (extra : list Object),
    (forall o, In o l -> duplicable s0 o) ->
    duplicates_of s0 s' extra ->
    exists s'' extra',
      for_collect l (fun obj => dup <- duplicate_object obj name ;;
                                select_set dup true ;; ret dup)%py
                  (mkWorld s' t [])
      = (Ok (map oid extra'), mkWorld s'' t [])
      /\ duplicates_of s0 s'' (extra ++ extra')
      /\ List.length extra' = List.length l.
Proof.
  intros Hc. induction l as [| o r IH]; intros s' extra Hl Hs.
  - exists s', []. rewrite app_nil_r. auto.
  - destruct (Hl o (or_introl eq_refl)) as [x [d [m [Hx [Hd Hm]]]]].
    destruct Hs as [Ho [[ms Hms] [Hex [Hnd [Hcs Hac]]]]].
    assert (Hx' : find_object o s' = Some x).
    { unfold find_object. rewrite Ho. apply find_more. exact Hx. }
    assert (Hm' : find_mesh d s' = Some m).
    { unfold find_mesh. rewrite Hms. apply find_more. exact Hm. }
    assert (Hc' : collection_alive (active_collection s') s' = true).
    { rewrite Hac, (collection_alive_same _ s0 s' Hcs). exact Hc. }
    set (o' := fresh (map oid (objects s'))).
    set (d' := fresh (map did (meshes s'))).
    assert (Hd' : ~ In d' (map did (meshes s'))) by apply fresh_not_in.
    assert (Ho' : ~ In o' (map oid (objects s'))) by apply fresh_not_in.
    set (y := with_selected true (object_duplicate s' name x)).
    set (s2 := mkScene (objects s' ++ [y]) (meshes s' ++ [mesh_duplicate s' name m])
                       (collections s') (scene_children s') (active_object s')
                       (active_collection s')).
    assert (E : (dup <- duplicate_object o name ;; select_set dup true ;; ret dup)%py
                  (mkWorld s' t []) = (Ok (oid y), mkWorld s2 t [])).
    { rewrite (bind_at _ _ _ _ _ (duplicate_object_runs o name s' t x d m Hx' Hd Hm' Hc')).
      rewrite (bind_at _ _ _ (mkWorld s2 t []) tt); [reflexivity |].
      unfold select_set, write_object. rewrite call_at.
      unfold find_object, duplicated. cbn [objects]. fold o'.
      rewrite (find_last oid o' (objects s') (object_duplicate s' name x) Ho' eq_refl).
      cbn [ok fst snd].
      unfold update_object. cbn [objects set_objects].
      rewrite (map_update_last oid _ o' (objects s') (object_duplicate s' name x) Ho' eq_refl).
      reflexivity. }
    assert (Hs2 : duplicates_of s0 s2 (extra ++ [y])).
    { unfold duplicates_of, s2. cbn [objects meshes collections active_collection].
      repeat split.
      - rewrite Ho, app_assoc. reflexivity.
      - exists (ms ++ [mesh_duplicate s' name m]). rewrite Hms, app_assoc. reflexivity.
      - apply in_app_or in H. destruct H as [H | [<- | []]]; [apply (Hex y0 H) | reflexivity].
      - apply in_app_or in H. destruct H as [H | [<- | []]]; [apply (Hex y0 H) | reflexivity].
      - apply in_app_or in H. destruct H as [H | [<- | []]].
        + destruct (Hex y0 H) as [_ [_ [d0 [m0 [E0 [F0 N0]]]]]].
          exists d0, m0. repeat split; auto. unfold find_mesh. cbn [meshes].
          apply find_more. exact F0.
        + exists d', (mesh_duplicate s' name m). repeat split.
          * unfold find_mesh. cbn [meshes].
            apply (find_last did d' (meshes s') (mesh_duplicate s' name m) Hd' eq_refl).
          * intros Hin. apply Hd'. rewrite Hms, map_app. apply in_or_app. auto.
      - rewrite map_app. cbn [map]. apply NoDup_snoc_fresh. exact Hnd.
      - exact Hcs.
      - exact Hac. }
    destruct (IH s2 (extra ++ [y]) (fun o1 H1 => Hl o1 (or_intror H1)) Hs2)
      as [s'' [extra' [Er [Hs'' Hlen]]]].
    exists s'', (y :: extra'). cbn [for_collect].
    rewrite (bind_at _ _ _ _ _ E), (bind_at _ _ _ _ _ Er).
    split; [reflexivity | split].
    + rewrite <- app_assoc in Hs''. exact Hs''.
    + simpl. rewrite Hlen. reflexivity.
Qed.

(** ** [join_meshes]: one new object, the others as they were *)

Lemma filter_all {X : Type} (p : X -> bool) (l : list X) :
  (forall x, In x l -> p x = true) -> filter p l = l.
Proof.
  induction l as [| a r IH]; simpl; intros H; [reflexivity |].
  rewrite (H a (or_introl eq_refl)), IH by auto. reflexivity.
Qed.

Lemma filter_none {X : Type} (p : X -> bool) (l : list X) :
  (forall x, In x l -> p x = false) -> filter p l = [].
Proof.
  induction l as [| a r IH]; simpl; intros H; [reflexivity |].
  rewrite (H a (or_introl eq_refl)), IH by auto. reflexivity.
Qed.

Lemma find_map_same {X : Type} (key : X -> nat) (f : X -> X) (k : nat) (l : list X) :
  (forall x, key (f x) = key x) ->
  find (fun y => Nat.eqb (key y) k) (map f l)
  = option_map f (find (fun y => Nat.eqb (key y) k) l).
Proof.
  intros Hk. induction l as [| a r IH]; simpl; [reflexivity |].
  rewrite Hk. destruct (Nat.eqb (key a) k); [reflexivity | exact IH].
Qed.

Lemma find_mesh_replaced (d d' : nat) (J : Mesh) (s : Scene) :
  did J = d ->
  find_mesh d' (update_mesh d (fun _ => J) s)
  = if Nat.eqb d' d then option_map (fun _ => J) (find_mesh d' s) else find_mesh d' s.
Proof.
  intros HJ. unfold find_mesh, update_mesh. cbn [meshes set_meshes].
  induction (meshes s) as [| a r IH]; cbn [map find].
  - destruct (Nat.eqb d' d); reflexivity.
  - destruct (Nat.eqb (did a) d) eqn:Ea.
    + rewrite HJ. apply Nat.eqb_eq in Ea. rewrite Ea, (Nat.eqb_sym d d').
      destruct (Nat.eqb d' d) eqn:Eb; [reflexivity |]. rewrite IH. reflexivity.
    + destruct (Nat.eqb (did a) d') eqn:Eb; [| exact IH].
      apply Nat.eqb_eq in Eb. subst d'. rewrite Ea. reflexivity.
Qed.

Lemma duplicable_found (s : Scene) (x : Object) :
  NoDup (map oid (objects s)) -> forallb (has_mesh s) (objects s) = true ->
  In x (objects s) -> is_mesh x = true -> duplicable s (oid x).
Proof.
  intros Hnd Hwf Hin Hm. rewrite forallb_forall in Hwf. specialize (Hwf x Hin).
  unfold has_mesh, mesh_of in Hwf. rewrite Hm in Hwf.
  destruct (odata x) as [d |] eqn:Ed; [| discriminate].
  destruct (find_mesh d s) as [m |] eqn:Em; [| discriminate].
  exists x, d, m. repeat split; auto.
  apply (find_distinct oid (objects s) x Hnd Hin).
Qed.

Lemma same_but_selection_oid (l l' : list Object) :
  same_but_selection l l' -> map oid l' = map oid l.
Proof.
  unfold same_but_selection. intros H.
  apply (f_equal (map oid)) in H. rewrite !map_map in H. exact H.
Qed.

Lemma same_but_selection_oname (l l' : list Object) :
  same_but_selection l l' -> map oname l' = map oname l.
Proof.
  unfold same_but_selection. intros H.
  apply (f_equal (map oname)) in H. rewrite !map_map in H. exact H.
Qed.

(** [join_meshes] on objects that can be duplicated returns an object the
    scene did not have, under the name asked for or that name with a number.
    One object gives a plain duplicate; several give duplicates that are
    joined into the first of them, the others being removed. *)
Lemma join_meshes_runs (found : list nat) (name : string) (s : Scene)
      (t : list Effect) :
  NoDup (map oid (objects s)) ->
  collection_alive (active_collection s) s = true ->
  found <> [] -> (forall o, In o found -> duplicable s o) ->
  exists x s',
    join_meshes found name (mkWorld s t []) = (Ok (Some (oid x)), mkWorld s' t [])
    /\ extended s s' x
    /\ oname x = unique_name (object_names s) name.
Proof.
  intros Hnd Hc Hne Hl. unfold join_meshes.
  destruct found as [| first [| second rest]]; [congruence | |].
  - (* one object: a plain duplicate *)
    destruct (Hl first (or_introl eq_refl)) as [x [d [m [Hx [Hd Hm]]]]].
    exists (object_duplicate s name x), (duplicated s name x m).
    rewrite (bind_at _ _ _ _ _ (duplicate_object_runs first name s t x d m Hx Hd Hm Hc)).
    split; [reflexivity |]. split; [| reflexivity].
    assert (Hd' : ~ In (fresh (map did (meshes s))) (map did (meshes s)))
      by apply fresh_not_in.
    unfold extended, duplicated. cbn [objects meshes collections active_collection].
    repeat split.
    + exists (objects s). split; reflexivity.
    + apply fresh_not_in.
    + exists (fresh (map did (meshes s))), (mesh_duplicate s name m).
      split; [reflexivity |]. unfold find_mesh. cbn [meshes].
      apply (find_last did _ (meshes s) (mesh_duplicate s name m) Hd' eq_refl).
    + intros d0 m0 H0. unfold find_mesh. cbn [meshes]. apply find_more. exact H0.
  - (* several: duplicates, joined *)
    set (found := first :: second :: rest) in *.
    set (s1 := set_objects (map (with_selected false) (objects s)) s).
    rewrite (bind_at _ _ _ (mkWorld s1 t []) tt)
      by (unfold select_all_DESELECT; rewrite call_at; reflexivity).
    assert (Hoid1 : map oid (objects s1) = map oid (objects s)).
    { unfold s1. cbn [objects set_objects]. rewrite map_map. reflexivity. }
    assert (Hl1 : forall o, In o found -> duplicable s1 o).
    { intros o Ho. destruct (Hl o Ho) as [x [d [m [Hx [Hd Hm]]]]].
      exists (with_selected false x), d, m. repeat split; auto.
      unfold find_object, s1. cbn [objects set_objects].
      rewrite (find_map_same oid (with_selected false) o (objects s))
        by reflexivity.
      unfold find_object in Hx. rewrite Hx. reflexivity. }
    assert (Hs1 : duplicates_of s1 s1 []).
    { unfold duplicates_of. rewrite app_nil_r.
      split; [reflexivity |]. split; [exists []; rewrite app_nil_r; reflexivity |].
      split; [intros y [] |]. split; [rewrite Hoid1; exact Hnd | auto]. }
    destruct (duplicate_loop (name ++ "_part") t s1 Hc found s1 [] Hl1 Hs1)
      as [s2 [extra [Er [Hs2 Hlen]]]].
    rewrite (bind_at _ _ _ _ _ Er).
    destruct extra as [| y1 others]; [discriminate Hlen |].
    cbn [app] in Hs2. cbn [map hd].
    destruct Hs2 as [Ho2 [[ms Hms] [Hex [Hnd2 [Hcs2 Hac2]]]]].
    assert (Hin1 : In y1 (objects s2)).
    { rewrite Ho2. apply in_or_app. right. left. reflexivity. }
    assert (Hy1 : find_object (oid y1) s2 = Some y1)
      by apply (find_distinct oid (objects s2) y1 Hnd2 Hin1).
    destruct (Hex y1 (or_introl eq_refl)) as [Hsel [Hmesh [d1 [am [Hd1 [Ham Hnew]]]]]].
    assert (Hfresh1 : ~ In (oid y1) (map oid (objects s1))).
    { rewrite Ho2, map_app in Hnd2. cbn [map] in Hnd2.
      apply NoDup_remove_2 in Hnd2. intros H. apply Hnd2. apply in_or_app. auto. }
    (* bpy.context.view_layer.objects.active = duplicates[0] *)
    set (s3 := set_active_object (Some (oid y1)) s2).
    rewrite (bind_at _ _ _ (mkWorld s3 t []) tt)
      by (unfold set_active; rewrite call_at, Hy1; reflexivity).
    (* bpy.ops.object.join() *)
    assert (Hkept : filter (fun x => negb (selected x && is_mesh x
                                           && negb (Nat.eqb (oid x) (oid y1))))
                           (objects s3) = objects s1 ++ [y1]).
    { change (objects s3) with (objects s2). rewrite Ho2, filter_app. f_equal.
      - apply filter_all. intros x Hx. unfold s1 in Hx. cbn [objects set_objects] in Hx.
        apply in_map_iff in Hx. destruct Hx as [x0 [<- _]]. reflexivity.
      - cbn [filter]. rewrite Hsel, Hmesh, Nat.eqb_refl. cbn [andb negb]. f_equal.
        apply filter_none. intros x Hx.
        destruct (Hex x (or_intror Hx)) as [Hs [Hm _]]. rewrite Hs, Hm. cbn [andb].
        destruct (Nat.eqb (oid x) (oid y1)) eqn:E; [| reflexivity].
        exfalso. apply Nat.eqb_eq in E.
        rewrite Ho2, map_app in Hnd2. cbn [map] in Hnd2.
        apply NoDup_app_remove_l in Hnd2. inversion Hnd2 as [| ? ? Hn _]; subst.
        apply Hn. rewrite <- E. apply in_map. exact Hx. }
    assert (Ej : exists J,
                 ops_object_join (mkWorld s3 t [])
                 = (Ok tt, mkWorld (update_mesh (did am) (fun _ => J)
                                      (set_objects (objects s1 ++ [y1]) s3)) t [])
                 /\ did J = did am).
    { unfold ops_object_join. eexists. split; [apply call_gives; cbv beta |].
      - change (active_object s3) with (Some (oid y1)). cbv beta iota.
        change (find_object (oid y1) s3) with (find_object (oid y1) s2). rewrite Hy1.
        cbv beta iota. unfold mesh_of at 1. rewrite Hd1.
        change (find_mesh d1 s3) with (find_mesh d1 s2). rewrite Ham, Hmesh, Hsel.
        cbn [andb]. rewrite Hkept. reflexivity.
      - reflexivity. }
    destruct Ej as [J [Ej HJ]]. rewrite (find_mesh_did _ _ _ Ham) in HJ, Ej.
    set (s4 := update_mesh d1 (fun _ => J) (set_objects (objects s1 ++ [y1]) s3)) in *.
    rewrite (bind_at _ _ _ _ _ Ej).
    rewrite (bind_at _ _ _ (mkWorld s4 t []) (Some (oid y1)))
      by (unfold context_active_object; rewrite call_at; reflexivity).
    rewrite (bind_at _ _ _ (mkWorld s4 t []) (oid y1)) by reflexivity.
    (* result.name = name *)
    set (x := with_oname (unique_name (object_names s) name) y1).
    set (s5 := set_objects (objects s1 ++ [x]) s4).
    rewrite (bind_at _ _ _ (mkWorld s5 t []) tt).
    2:{ unfold set_name. rewrite call_at. unfold find_object.
        change (objects s4) with (objects s1 ++ [y1]).
        rewrite (find_last oid (oid y1) (objects s1) y1 Hfresh1 eq_refl).
        cbn [ok fst snd]. unfold update_object, other_object_names.
        change (objects s4) with (objects s1 ++ [y1]).
        rewrite (map_update_last oid _ (oid y1) (objects s1) y1 Hfresh1 eq_refl).
        rewrite (filter_last oid (oid y1) (objects s1) y1 Hfresh1 eq_refl).
        unfold s5, x, object_names, s1. cbn [objects set_objects].
        rewrite map_map. reflexivity. }
    assert (Hx5 : find_object (oid y1) s5 = Some x).
    { unfold find_object, s5. cbn [objects set_objects].
      apply (find_last oid (oid y1) (objects s1) x Hfresh1 eq_refl). }
    rewrite (bind_at _ _ _ (mkWorld s5 t []) (Some d1))
      by (unfold get_data, read_object; rewrite call_at, Hx5; cbn; rewrite Hd1; reflexivity).
    rewrite (bind_at _ _ _ (mkWorld s5 t []) d1) by reflexivity.
    (* result.data.name = name *)
    assert (Hm5 : find_mesh d1 s5 = Some J).
    { change (find_mesh d1 s5) with (find_mesh d1 s4). unfold s4.
      rewrite find_mesh_replaced by exact HJ. rewrite Nat.eqb_refl.
      change (find_mesh d1 (set_objects (objects s1 ++ [y1]) s3)) with (find_mesh d1 s2).
      rewrite Ham. reflexivity. }
    set (s6 := update_mesh d1 (with_dname (unique_name (other_mesh_names d1 s5) name)) s5).
    rewrite (bind_at _ _ _ (mkWorld s6 t []) tt)
      by (unfold set_mesh_name; rewrite call_at, Hm5; reflexivity).
    exists x, s6. split; [reflexivity |]. split; [| reflexivity].
    unfold extended. repeat split.
    + exists (objects s1). split; [reflexivity |].
      unfold same_but_selection, s1. cbn [objects set_objects].
      rewrite map_map. reflexivity.
    + rewrite <- Hoid1. exact Hfresh1.
    + exact Hmesh.
    + exists d1, (with_dname (unique_name (other_mesh_names d1 s5) name) J).
      split; [exact Hd1 |]. unfold s6. rewrite find_mesh_update by reflexivity.
      rewrite Nat.eqb_refl, Hm5. reflexivity.
    + intros d m Hm.
      assert (Hne1 : Nat.eqb d d1 = false).
      { apply Nat.eqb_neq. intros ->. apply Hnew.
        unfold find_mesh in Hm. apply find_some in Hm. destruct Hm as [Hin E].
        apply Nat.eqb_eq in E. rewrite <- E. apply in_map. exact Hin. }
      unfold s6. rewrite find_mesh_update by reflexivity. rewrite Hne1.
      change (find_mesh d s5) with (find_mesh d s4). unfold s4.
      rewrite find_mesh_replaced by exact HJ. rewrite Hne1.
      change (find_mesh d (set_objects (objects s1 ++ [y1]) s3)) with (find_mesh d s2).
      unfold find_mesh. rewrite Hms. apply find_more. exact Hm.
    + exact Hcs2.
    + exact Hac2.
Qed.

End Duplicates.

Section Placeholders.
Context {host : Host}.

(** ** [create_placeholder_mesh]: one new object on a primitive *)

Lemma fresh_deselected (s : Scene) :
  ~ In (fresh (map oid (objects s)))
       (map oid (map (with_selected false) (objects s))).
Proof. rewrite map_map. apply (fresh_not_in (map oid (objects s))). Qed.

Lemma write_primitive (s : Scene) (p : Primitive) (x : Object) (f : Object -> Object)
      (t : list Effect) :
  oid x = fresh (map oid (objects s)) ->
  write_object (fresh (map oid (objects s))) f (mkWorld (with_primitive s p x) t [])
  = (Ok tt, mkWorld (with_primitive s p (f x)) t []).
Proof.
  intros Ex. unfold write_object. apply call_gives.
  unfold find_object, with_primitive. cbn [objects].
  rewrite (find_last oid _ _ x (fresh_deselected s) Ex).
  unfold ok, update_object. cbn [objects set_objects].
  rewrite (map_update_last oid f _ _ x (fresh_deselected s) Ex). reflexivity.
Qed.

Lemma placeholder_added (name : string) (s : Scene) (t : list Effect) :
  (if String.eqb name "Body" then
     primitive_add (primitive_uv_sphere 1 32 16) ;;
     obj <- context_active_object ;;
     obj <- the obj ;;
     set_object_scale obj (3 # 10, 1 # 4, 4 # 5)%Q ;;
     ret obj
   else if String.eqb name "Heart" then
     primitive_add (primitive_uv_sphere (1 # 10) 16 8) ;;
     obj <- context_active_object ;;
     obj <- the obj ;;
     set_object_location obj (0, 0, 1 # 2)%Q ;;
     ret obj
   else if String.eqb name "Brain" then
     primitive_add (primitive_uv_sphere (3 # 20) 24 12) ;;
     obj <- context_active_object ;;
     obj <- the obj ;;
     set_object_location obj (0, 0, 9 # 10)%Q ;;
     ret obj
   else if String.eqb name "Veins" then
     primitive_add (primitive_cylinder (1 # 100) 1) ;;
     obj <- context_active_object ;;
     the obj
   else
     primitive_add (primitive_cube (1 # 2)) ;;
     obj <- context_active_object ;;
     the obj)%py (mkWorld s t [])
  = (Ok (fresh (map oid (objects s))),
     mkWorld (with_primitive s (placeholder_primitive name)
                (placeholder_moved name
                   (primitive_object s (placeholder_primitive name)))) t []).
Proof.
  unfold placeholder_primitive, placeholder_moved.
  destruct (String.eqb name "Body");
    [| destruct (String.eqb name "Heart");
       [| destruct (String.eqb name "Brain");
          [| destruct (String.eqb name "Veins")]]].
  all: match goal with
       | |- context [with_primitive ?s0 ?p (_ (primitive_object _ _))] =>
           rewrite (bind_at _ _ _ (mkWorld (with_primitive s0 p (primitive_object s0 p)) t []) tt)
             by reflexivity;
           rewrite (bind_at _ _ _ (mkWorld (with_primitive s0 p (primitive_object s0 p)) t [])
                            (Some (fresh (map oid (objects s0)))))
             by reflexivity
       | |- context [with_primitive ?s0 ?p (primitive_object _ _)] =>
           rewrite (bind_at _ _ _ (mkWorld (with_primitive s0 p (primitive_object s0 p)) t []) tt)
             by reflexivity;
           rewrite (bind_at _ _ _ (mkWorld (with_primitive s0 p (primitive_object s0 p)) t [])
                            (Some (fresh (map oid (objects s0)))))
             by reflexivity
       end.
  all: try reflexivity.
  all: rewrite (bind_at (the (Some (fresh (map oid (objects s))))) _ _ _ _ eq_refl).
  all: unfold set_object_scale, set_object_location.
  all: rewrite (bind_at _ _ _ _ tt (write_primitive s _ (primitive_object s _) _ t eq_refl));
    reflexivity.
Qed.

Lemma placeholder_moved_same (name : string) (x : Object) :
  oid (placeholder_moved name x) = oid x
  /\ oname (placeholder_moved name x) = oname x
  /\ otype (placeholder_moved name x) = otype x
  /\ odata (placeholder_moved name x) = odata x.
Proof.
  unfold placeholder_moved.
  destruct (String.eqb name "Body"); [repeat split |].
  destruct (String.eqb name "Heart"); [repeat split |].
  destruct (String.eqb name "Brain"); repeat split.
Qed.

(** [create_placeholder_mesh] returns whatever the scene holds: it adds one
    mesh object on the primitive made for the name, gives it the name (or
    the name with a number) and logs one warning. *)
Lemma create_placeholder_mesh_runs (name : string) (s : Scene) (t : list Effect) :
  exists x s',
    create_placeholder_mesh name (mkWorld s t [])
    = (Ok (oid x),
       mkWorld s' (t ++ [Printed "WARN" [Str ("  Created placeholder for " ++ name)]]) [])
    /\ extended s s' x
    /\ oname x = unique_name (object_names s) name
    /\ placeholder_of name s' x.
Proof.
  unfold create_placeholder_mesh.
  rewrite (bind_at _ _ _ _ _ (placeholder_added name s t)).
  set (p := placeholder_primitive name).
  set (x0 := placeholder_moved name (primitive_object s p)).
  set (o := fresh (map oid (objects s))).
  set (d := fresh (map did (meshes s))).
  destruct (placeholder_moved_same name (primitive_object s p))
    as [Hoid [Hname [Htype Hdata]]]. fold x0 in Hoid, Hname, Htype, Hdata.
  cbn [primitive_object oid oname otype odata] in Hoid, Hname, Htype, Hdata.
  fold o in Hoid. fold d in Hdata.
  assert (Ho : ~ In o (map oid (map (with_selected false) (objects s))))
    by apply fresh_deselected.
  assert (Hd : ~ In d (map did (meshes s))) by apply fresh_not_in.
  (* obj.name = name *)
  set (x := with_oname (unique_name (object_names s) name) x0).
  rewrite (bind_at _ _ _ (mkWorld (with_primitive s p x) t []) tt).
  2:{ unfold set_name. apply call_gives. unfold find_object, with_primitive.
      cbn [objects]. rewrite (find_last oid o _ x0 Ho Hoid).
      unfold ok, update_object, other_object_names. cbn [objects set_objects].
      rewrite (map_update_last oid _ o _ x0 Ho Hoid).
      rewrite (filter_last oid o _ x0 Ho Hoid).
      unfold x, object_names. rewrite map_map. reflexivity. }
  assert (Hx : find_object o (with_primitive s p x) = Some x).
  { unfold find_object, with_primitive. cbn [objects].
    apply (find_last oid o _ x Ho Hoid). }
  rewrite (bind_at _ _ _ (mkWorld (with_primitive s p x) t []) (Some d))
    by (unfold get_data, read_object; rewrite call_at, Hx; cbn; rewrite Hdata; reflexivity).
  rewrite (bind_at _ _ _ (mkWorld (with_primitive s p x) t []) d) by reflexivity.
  (* obj.data.name = name *)
  assert (Hm : find_mesh d (with_primitive s p x) = Some (primitive_mesh s p)).
  { unfold find_mesh, with_primitive. cbn [meshes].
    apply (find_last did d _ (primitive_mesh s p) Hd eq_refl). }
  set (s' := update_mesh d (with_dname (unique_name
                 (other_mesh_names d (with_primitive s p x)) name))
               (with_primitive s p x)).
  rewrite (bind_at _ _ _ (mkWorld s' t []) tt)
    by (unfold set_mesh_name; rewrite call_at, Hm; reflexivity).
  exists x, s'. change (oid x) with (oid x0). rewrite Hoid.
  split; [reflexivity |].
  assert (Hm' : find_mesh d s'
                = Some (with_dname (unique_name
                          (other_mesh_names d (with_primitive s p x)) name)
                          (primitive_mesh s p))).
  { unfold s'. rewrite find_mesh_update by reflexivity.
    rewrite Nat.eqb_refl, Hm. reflexivity. }
  split; [| split; [reflexivity |]].
  - unfold extended. repeat split.
    + exists (map (with_selected false) (objects s)). split; [reflexivity |].
      unfold same_but_selection. rewrite map_map. reflexivity.
    + change (oid x) with (oid x0). rewrite Hoid. apply fresh_not_in.
    + unfold is_mesh. change (otype x) with (otype x0). rewrite Htype. reflexivity.
    + eexists d, _. split; [exact Hdata | exact Hm'].
    + intros d0 m0 H0.
      assert (Hne : Nat.eqb d0 d = false).
      { apply Nat.eqb_neq. intros ->. apply Hd.
        unfold find_mesh in H0. apply find_some in H0. destruct H0 as [Hin E].
        apply Nat.eqb_eq in E. rewrite <- E. apply in_map. exact Hin. }
      unfold s'. rewrite find_mesh_update by reflexivity. rewrite Hne.
      unfold find_mesh, with_primitive. cbn [meshes]. apply find_more. exact H0.
  - eexists d, _. split; [exact Hdata |]. split; [exact Hm' | reflexivity].
Qed.

End Placeholders.

Section NameChars.

(** ** The characters of names and patterns *)

Lemma prefix_chars (p h : string) :
  String.prefix p h = true ->
  forall c, In c (list_ascii_of_string p) -> In c (list_ascii_of_string h).
Proof.
  revert h. induction p as [| a p IH]; intros h H c Hc; [destruct Hc |].
  destruct h as [| b h]; [discriminate H |]. cbn in H.
  destruct (Ascii.ascii_dec a b) as [<- | Hne]; [| discriminate H].
  destruct Hc as [<- | Hc]; [left; reflexivity | right; apply (IH h H c Hc)].
Qed.

Lemma str_in_chars (p h : string) :
  str_in p h = true ->
  forall c, In c (list_ascii_of_string p) -> In c (list_ascii_of_string h).
Proof.
  induction h as [| b h IH]; cbn [str_in]; intros H c Hc.
  - destruct (String.prefix p "") eqn:E; [| discriminate H].
    apply (prefix_chars p "" E c Hc).
  - destruct (String.prefix p (String b h)) eqn:E.
    + apply (prefix_chars p _ E c Hc).
    + right. apply (IH H c Hc).
Qed.

Lemma lower_append (a b : string) :
  lower (a ++ b) = (lower a ++ lower b)%string.
Proof. induction a as [| c a IH]; cbn; [reflexivity | rewrite IH; reflexivity]. Qed.

Lemma chars_append (a b : string) :
  list_ascii_of_string (a ++ b)
  = list_ascii_of_string a ++ list_ascii_of_string b.
Proof. induction a as [| c a IH]; cbn; [reflexivity | rewrite IH; reflexivity]. Qed.

Lemma uint_chars (u : Decimal.uint) :
  forall c, In c (list_ascii_of_string (NilEmpty.string_of_uint u)) ->
            In c digit_chars.
Proof.
  induction u; cbn [NilEmpty.string_of_uint list_ascii_of_string In];
    intros c Hc; [destruct Hc | ..];
    (destruct Hc as [<- | Hc]; [vm_compute; tauto | auto]).
Qed.

Lemma str_of_nat_chars (n : nat) :
  forall c, In c (list_ascii_of_string (str_of_nat n)) -> In c digit_chars.
Proof.
  unfold str_of_nat, NilZero.string_of_uint.
  destruct (Nat.to_uint n) eqn:E; try (rewrite <- E; apply uint_chars).
  cbn. intros c [<- | []]. vm_compute. tauto.
Qed.

Lemma zeros_chars (k : nat) :
  forall c, In c (list_ascii_of_string (str_repeat "0" k)) -> In c digit_chars.
Proof.
  induction k as [| k IH]; intros c Hc; [destruct Hc |].
  change (str_repeat "0" (S k)) with (String "0" (str_repeat "0" k)) in Hc.
  destruct Hc as [<- | Hc]; [vm_compute; tauto | exact (IH c Hc)].
Qed.

Lemma suffix_chars (k : nat) :
  forall c, In c (list_ascii_of_string ("." ++ pad3 k)) -> In c digit_chars.
Proof.
  intros c Hc. cbn in Hc. destruct Hc as [<- | Hc]; [vm_compute; tauto |].
  unfold pad3 in Hc. rewrite chars_append in Hc. apply in_app_or in Hc.
  destruct Hc as [Hc | Hc]; [apply (zeros_chars _ c Hc) | apply (str_of_nat_chars _ c Hc)].
Qed.

Lemma lower_digits (s : string) :
  (forall c, In c (list_ascii_of_string s) -> In c digit_chars) -> lower s = s.
Proof.
  induction s as [| a s IH]; intros H; [reflexivity |].
  cbn [lower]. rewrite IH by (intros c Hc; apply H; right; exact Hc). f_equal.
  destruct (H a (or_introl eq_refl)) as [<- | H0]; [reflexivity |].
  repeat (destruct H0 as [<- | H0]; [reflexivity |]). destruct H0.
Qed.

Lemma shaped_chars (key name : string) :
  shaped key name ->
  forall c, In c (list_ascii_of_string (lower name)) -> In c (name_chars key).
Proof.
  unfold name_chars. intros [-> | [k ->]] c Hc; apply in_or_app; [auto |].
  unfold numbered in Hc. rewrite lower_append, chars_append in Hc.
  apply in_app_or in Hc. destruct Hc as [Hc | Hc]; [auto | right].
  rewrite (lower_digits _ (suffix_chars k)) in Hc. apply (suffix_chars k c Hc).
Qed.

(** Patterns that each hold a character foreign to the names made from
    [key] find none of those names. *)
Lemma foreign_unmatched (key name : string) (patterns : list string) :
  forallb (foreign (name_chars key)) patterns = true -> shaped key name ->
  any_pattern patterns (lower name) = false.
Proof.
  intros Hf Hs. destruct (any_pattern patterns (lower name)) eqn:E; [| reflexivity].
  exfalso. apply any_pattern_true in E. destruct E as [p [Hp Hin]].
  rewrite forallb_forall in Hf. specialize (Hf p Hp). unfold foreign in Hf.
  apply existsb_exists in Hf. destruct Hf as [c [Hc Hno]].
  pose proof (shaped_chars key name Hs c (str_in_chars _ _ Hin c Hc)) as Hall.
  apply negb_true_iff in Hno. rewrite <- not_true_iff_false in Hno. apply Hno.
  apply existsb_exists. exists c. split; [exact Hall | apply Ascii.eqb_refl].
Qed.

Lemma unique_name_shaped (used : list string) (key : string) :
  shaped key (unique_name used key).
Proof.
  destruct (unique_name_cases used key) as [[E _] | [_ [k E]]]; rewrite E.
  - left. reflexivity.
  - right. exists k. reflexivity.
Qed.



End NameChars.

Section Extraction.
Context {host : Host}.

(** ** Scenes with one more object *)

Lemma same_but_selection_In (l l' : list Object) (y' : Object) :
  same_but_selection l l' -> In y' l' ->
  exists y, In y l /\ with_selected false y' = with_selected false y.
Proof.
  unfold same_but_selection. intros H Hin.
  apply (in_map (with_selected false)) in Hin. rewrite H in Hin.
  apply in_map_iff in Hin. destruct Hin as [y [E Hy]]. exists y.
  split; [exact Hy | symmetry; exact E].
Qed.

Lemma same_but_selection_find (l l' : list Object) (o : nat) (y : Object) :
  same_but_selection l l' -> find (fun x => Nat.eqb (oid x) o) l = Some y ->
  exists y', find (fun x => Nat.eqb (oid x) o) l' = Some y'
             /\ with_selected false y' = with_selected false y.
Proof.
  unfold same_but_selection. intros H Hy.
  apply (f_equal (find (fun x => Nat.eqb (oid x) o))) in H.
  rewrite !(find_map_same oid (with_selected false)) in H by reflexivity.
  rewrite Hy in H. destruct (find _ l') as [y' |]; [| discriminate].
  exists y'. split; [reflexivity |].
  exact (f_equal (fun v => match v with Some a => a | None => y end) H).
Qed.

(** What does not depend on the selection. *)
Lemma deselected_same (y y' : Object) :
  with_selected false y' = with_selected false y ->
  oid y' = oid y /\ oname y' = oname y /\ otype y' = otype y /\ odata y' = odata y.
Proof.
  intros H. repeat split.
  - exact (f_equal oid H).
  - exact (f_equal oname H).
  - exact (f_equal otype H).
  - exact (f_equal odata H).
Qed.

Lemma extended_objects (s s' : Scene) (x : Object) :
  extended s s' x ->
  map oid (objects s') = map oid (objects s) ++ [oid x]
  /\ object_names s' = object_names s ++ [oname x].
Proof.
  intros [[old [Ho Hold]] _]. unfold object_names. rewrite Ho, !map_app.
  rewrite (same_but_selection_oid _ _ Hold), (same_but_selection_oname _ _ Hold).
  auto.
Qed.

Lemma extended_find_new (s s' : Scene) (x : Object) :
  extended s s' x -> find_object (oid x) s' = Some x.
Proof.
  intros [[old [Ho Hold]] [Hnew _]]. unfold find_object. rewrite Ho.
  apply (find_last oid (oid x) old x); [| reflexivity].
  rewrite (same_but_selection_oid _ _ Hold). exact Hnew.
Qed.

Lemma extended_find_old (s s' : Scene) (x y : Object) (o : nat) :
  extended s s' x -> find_object o s = Some y ->
  exists y', find_object o s' = Some y'
             /\ with_selected false y' = with_selected false y.
Proof.
  intros [[old [Ho Hold]] _] Hy. unfold find_object in *. rewrite Ho.
  destruct (same_but_selection_find _ _ o y Hold Hy) as [y' [Hy' E]].
  exists y'. split; [apply find_more; exact Hy' | exact E].
Qed.

Lemma extended_In (s s' : Scene) (x y' : Object) :
  extended s s' x -> In y' (objects s') ->
  y' = x \/ exists y, In y (objects s)
                      /\ with_selected false y' = with_selected false y.
Proof.
  intros [[old [Ho Hold]] _] Hin. rewrite Ho in Hin. apply in_app_or in Hin.
  destruct Hin as [Hin | [<- | []]]; [right | left; reflexivity].
  apply (same_but_selection_In _ _ _ Hold Hin).
Qed.

Lemma extended_well_formed (s s' : Scene) (x : Object) :
  well_formed s -> extended s s' x -> well_formed s'.
Proof.
  intros [Hnd [Hwf Hc]] Hext.
  destruct (extended_objects s s' x Hext) as [Hoids _].
  pose proof Hext as [_ [Hnew [Hmesh [[d [m [Hd Hm]]] [Hkeep [Hcs Hac]]]]]].
  split; [| split].
  - rewrite Hoids. apply NoDup_app; [exact Hnd | constructor; [intros [] | constructor] |].
    intros a Ha [<- | []]. exact (Hnew Ha).
  - apply forallb_forall. intros y' Hy'.
    destruct (extended_In s s' x y' Hext Hy') as [-> | [y [Hy E]]].
    + unfold has_mesh, mesh_of. rewrite Hd, Hm. reflexivity.
    + destruct (deselected_same y y' E) as [_ [_ [Et Ed]]].
      rewrite forallb_forall in Hwf. specialize (Hwf y Hy).
      unfold has_mesh, mesh_of, is_mesh in *. rewrite Ed, Et.
      destruct (odata y) as [d0 |]; [| exact Hwf].
      destruct (find_mesh d0 s) as [m0 |] eqn:E0.
      * rewrite (Hkeep d0 m0 E0). reflexivity.
      * destruct (find_mesh d0 s'); [reflexivity | exact Hwf].
  - rewrite Hac, (collection_alive_same _ s s' Hcs). exact Hc.
Qed.

(** ** One turn of the loop of [extract_anatomy_meshes] *)

Lemma log_names_runs (s : Scene) (l : list nat) :
  (forall o, In o l -> exists x, find_object o s = Some x) ->
  forall t, exists lines,
    for_each l (fun obj => name <- get_name obj ;;
                           log [Str ("    - " ++ name)] "INFO")%py
             (mkWorld s t [])
    = (Ok tt, mkWorld s (t ++ lines) [])
    /\ forallb is_note lines = true.
Proof.
  induction l as [| o r IH]; intros Hl t.
  - exists []. rewrite app_nil_r. auto.
  - destruct (Hl o (or_introl eq_refl)) as [x Hx].
    destruct (IH (fun o1 H1 => Hl o1 (or_intror H1))
                 (t ++ [Printed "INFO" [Str ("    - " ++ oname x)]]))
      as [lines [Er Hn]].
    exists (Printed "INFO" [Str ("    - " ++ oname x)] :: lines).
    split; [| exact Hn]. cbn [for_each].
    rewrite (bind_at _ _ _ (mkWorld s (t ++ [Printed "INFO" [Str ("    - " ++ oname x)]]) []) tt).
    + rewrite Er, <- app_assoc. reflexivity.
    + rewrite (bind_at _ _ _ (mkWorld s t []) (oname x)); [reflexivity |].
      unfold get_name, read_object. rewrite call_at, Hx. reflexivity.
Qed.

Lemma firstn_In {X : Type} (n : nat) (l : list X) (x : X) :
  In x (firstn n l) -> In x l.
Proof.
  revert l. induction n as [| n IH]; intros [| a r]; simpl; try tauto.
  intros [-> | H]; auto.
Qed.

Lemma match_nonempty {X B : Type} (l : list X) (a b : B) :
  l <> [] -> match l with [] => a | _ :: _ => b end = b.
Proof. destruct l; [congruence | reflexivity]. Qed.

(** One turn of the loop returns in a well-formed scene, with one more
    object in the scene and in the dict, and only notes in the log.  When
    no mesh object matches, the object is the placeholder and the log holds
    the two warnings. *)
Lemma extract_one_runs (extracted : meshes_dict) (key : string)
      (patterns : list string) (s : Scene) (t : list Effect) :
  well_formed s ->
  exists x s' lines,
    extract_one extracted (key, patterns) (mkWorld s t [])
    = (Ok (dict_set extracted key (Some (oid x))), mkWorld s' (t ++ lines) [])
    /\ extended s s' x
    /\ oname x = unique_name (object_names s) key
    /\ forallb is_note lines = true
    /\ (matches patterns (objects s) = [] ->
        placeholder_of key s' x /\ lines = placeholder_warnings key).
Proof.
  intros [Hnd [Hwf Hc]]. unfold extract_one.
  rewrite (bind_at _ _ _ (mkWorld s t []) (map oid (matches patterns (objects s))))
    by reflexivity.
  destruct (matches patterns (objects s)) as [| y0 ys] eqn:Em.
  - (* not found: a placeholder *)
    cbn [map].
    set (warn := Printed "WARN"
                   [Str ("  " ++ key ++ ": NOT FOUND - will create placeholder")]).
    rewrite (bind_at _ _ _ (mkWorld s (t ++ [warn]) []) tt) by reflexivity.
    destruct (create_placeholder_mesh_runs key s (t ++ [warn]))
      as [x [s' [Er [Hext [Hname Hp]]]]].
    exists x, s', (placeholder_warnings key).
    rewrite (bind_at _ _ _ _ _ Er). unfold placeholder_warnings. fold warn.
    rewrite <- app_assoc.
    split; [reflexivity |]. split; [exact Hext |]. split; [exact Hname |].
    split; [reflexivity |]. intros _. split; [exact Hp | reflexivity].
  - (* found: the matching meshes, joined *)
    rewrite <- Em.
    assert (Hfound : forall o, In o (map oid (matches patterns (objects s))) ->
                               duplicable s o).
    { intros o Ho. apply in_map_iff in Ho. destruct Ho as [y [<- Hy]].
      rewrite matches_filter in Hy. apply filter_In in Hy. destruct Hy as [Hy Hm].
      apply andb_prop in Hm. apply duplicable_found; tauto. }
    set (found := map oid (matches patterns (objects s))) in *.
    assert (Hne : found <> []).
    { unfold found. rewrite Em. discriminate. }
    set (line := Printed "INFO"
                   [Str ("  " ++ key ++ ": Found " ++ str_of_nat (List.length found)
                              ++ " matching objects")]).
    destruct (log_names_runs s (firstn 5 found)) with (t := t ++ [line])
      as [lines [El Hn]].
    { intros o Ho. apply firstn_In in Ho.
      destruct (Hfound o Ho) as [x [_ [_ [Hx _]]]]. eauto. }
    destruct (join_meshes_runs found key s (t ++ [line] ++ lines) Hnd Hc Hne Hfound)
      as [x [s' [Ej [Hext Hname]]]].
    exists x, s', (line :: lines).
    split; [| split; [exact Hext |]; split; [exact Hname |];
              split; [exact Hn | intros H; rewrite Em in H; discriminate H]].
    rewrite (match_nonempty found _ _ Hne).
    rewrite (bind_at _ _ _ (mkWorld s (t ++ [line]) []) tt) by reflexivity.
    rewrite (bind_at _ _ _ _ _ El). rewrite <- app_assoc.
    rewrite (bind_at _ _ _ _ _ Ej). reflexivity.
Qed.

(** ** The loop of [extract_anatomy_meshes] *)

Lemma keys_dict_set {A : Type} (d : list (string * A)) (key : string) (v : A) :
  ~ In key (keys d) -> keys (dict_set d key v) = keys d ++ [key].
Proof.
  induction d as [| [k x] r IH]; cbn; intros H; [reflexivity |].
  destruct (String.eqb k key) eqn:E.
  - apply String.eqb_eq in E. tauto.
  - cbn. f_equal. apply IH. tauto.
Qed.

Lemma dict_get_set {A : Type} (d : list (string * A)) (key : string) (v dflt : A) :
  dict_get (dict_set d key v) key dflt = v.
Proof.
  induction d as [| [k x] r IH]; cbn.
  - rewrite String.eqb_refl. reflexivity.
  - destruct (String.eqb k key) eqn:E; cbn; rewrite E; [reflexivity | exact IH].
Qed.

Lemma dict_get_set_other {A : Type} (d : list (string * A)) (key k0 : string)
      (v dflt : A) :
  k0 <> key -> dict_get (dict_set d key v) k0 dflt = dict_get d k0 dflt.
Proof.
  intros Hne. induction d as [| [k x] r IH]; cbn.
  - destruct (String.eqb key k0) eqn:E; [| reflexivity].
    apply String.eqb_eq in E. congruence.
  - destruct (String.eqb k key) eqn:E; cbn.
    + apply String.eqb_eq in E. subst k.
      destruct (String.eqb key k0) eqn:E0; [| reflexivity].
      apply String.eqb_eq in E0. congruence.
    + destruct (String.eqb k k0); [reflexivity | exact IH].
Qed.

Lemma replaced_kept (s : Scene) (acc : meshes_dict) (s1 s2 : Scene) (x : Object)
      (key k0 : string) (v : option nat) :
  k0 <> key -> extended s1 s2 x -> replaced s acc s1 k0 ->
  replaced s (dict_set acc key v) s2 k0.
Proof.
  intros Hne Hext [x0 [Hget [Hfind [Hnew [Hname [Hmesh [d [m [Hd [Hm Hg]]]]]]]]]].
  destruct (extended_find_old s1 s2 x x0 (oid x0) Hext Hfind) as [x0' [Hfind' E]].
  destruct (deselected_same x0 x0' E) as [Eo [En [Et Ed]]].
  exists x0'. unfold placeholder_of, is_mesh. rewrite En, Ed, Et.
  rewrite dict_get_set_other by exact Hne.
  split; [rewrite Eo; exact Hget |]. split; [rewrite Eo; exact Hfind' |].
  split; [rewrite Eo; exact Hnew |]. split; [exact Hname |]. split; [exact Hmesh |].
  exists d, m. split; [exact Hd |]. split; [| exact Hg].
  destruct Hext as [_ [_ [_ [_ [Hkeep _]]]]]. apply Hkeep. exact Hm.
Qed.

Lemma matches_none (patterns : list string) (objs : list Object) :
  (forall y, In y objs -> any_pattern patterns (lower (oname y)) = false) ->
  matches patterns objs = [].
Proof.
  intros H. rewrite matches_filter. apply filter_none. intros y Hy.
  rewrite (H y Hy). apply andb_false_r.
Qed.

(** The loop over a table of patterns, started in the scene [s1] that the
    turns for the keys [made] have left of [s].  What is said of a key of
    [made] stays true, and each key of the table whose patterns find no
    object of [s] gets its placeholder. *)
Lemma extract_fold (s : Scene) :
  forall (todo : list (string * list string)) (made : list string)
         (acc : meshes_dict) (s1 : Scene) (t : list Effect),
    apart todo = true -> matches_itself todo = true -> NoDup (keys todo) ->
    (forall m, In m made ->
       ~ In m (keys todo)
       /\ forall key patterns, In (key, patterns) todo ->
            forallb (foreign (name_chars m)) patterns = true) ->
    well_formed s1 -> keys acc = made ->
    incl (map oid (objects s)) (map oid (objects s1)) ->
    names_from s made s1 ->
    exists extracted s' lines,
      for_fold todo acc extract_one (mkWorld s1 t [])
      = (Ok extracted, mkWorld s' (t ++ lines) [])
      /\ keys extracted = made ++ keys todo
      /\ forallb is_note lines = true
      /\ (forall key, ~ In key (keys todo) -> replaced s acc s1 key ->
                      replaced s extracted s' key)
      /\ (forall key patterns, In (key, patterns) todo -> unmatched s patterns ->
            replaced s extracted s' key
            /\ incl (placeholder_warnings key) lines).
Proof.
  induction todo as [| [key patterns] todo IH];
    intros made acc s1 t Hap Hself Hnd Hmade Hwf Hkeys Hincl Hnames.
  - exists acc, s1, []. rewrite !app_nil_r.
    split; [reflexivity |]. split; [exact Hkeys |]. split; [reflexivity |].
    split; [intros k _ H; exact H | intros k p []].
  - cbn [apart] in Hap. apply andb_prop in Hap. destruct Hap as [Hfor Hap].
    cbn [matches_itself forallb] in Hself. apply andb_prop in Hself.
    destruct Hself as [Hkey Hself].
    cbn [keys map fst] in Hnd. apply NoDup_cons_iff in Hnd.
    destruct Hnd as [Hfresh Hnd'].
    destruct (extract_one_runs acc key patterns s1 t Hwf)
      as [x [s2 [lines1 [E1 [Hext [Hname [Hnote1 Hnone]]]]]]].
    destruct (extended_objects s1 s2 x Hext) as [Hoids Hnms].
    assert (Hmade' : forall m, In m (made ++ [key]) ->
              ~ In m (keys todo)
              /\ forall k p, In (k, p) todo ->
                   forallb (foreign (name_chars m)) p = true).
    { intros m Hm. apply in_app_or in Hm. destruct Hm as [Hm | [<- | []]].
      - destruct (Hmade m Hm) as [Hno Hall]. split.
        + intros Hin. apply Hno. right. exact Hin.
        + intros k p Hkp. apply (Hall k p). right. exact Hkp.
      - split; [exact Hfresh |]. intros k p Hkp.
        rewrite forallb_forall in Hfor. apply (Hfor (k, p) Hkp). }
    assert (Hnotin : ~ In key (keys acc)).
    { rewrite Hkeys. intros Hin. destruct (Hmade key Hin) as [Hno _].
      apply Hno. left. reflexivity. }
    assert (Hnames' : names_from s (made ++ [key]) s2).
    { intros y' Hy'. destruct (extended_In s1 s2 x y' Hext Hy') as [-> | [y [Hy E]]].
      - right. exists key. split; [apply in_or_app; right; left; reflexivity |].
        rewrite Hname. apply unique_name_shaped.
      - destruct (deselected_same y y' E) as [_ [En _]]. rewrite En.
        destruct (Hnames y Hy) as [H | [k [Hk Hs]]]; [left; exact H |].
        right. exists k. split; [apply in_or_app; left; exact Hk | exact Hs]. }
    assert (Hincl' : incl (map oid (objects s)) (map oid (objects s2))).
    { intros o Ho. rewrite Hoids. apply in_or_app. left. apply Hincl. exact Ho. }
    destruct (IH (made ++ [key]) (dict_set acc key (Some (oid x))) s2 (t ++ lines1)
                 Hap Hself Hnd' Hmade' (extended_well_formed s1 s2 x Hwf Hext)
                 (eq_trans (keys_dict_set acc key _ Hnotin) (f_equal (fun l => l ++ [key]) Hkeys))
                 Hincl' Hnames')
      as [extracted [s' [lines [Er [Hk [Hnote [Hframe Hrest]]]]]]].
    exists extracted, s', (lines1 ++ lines).
    cbn [for_fold]. rewrite (bind_at _ _ _ _ _ E1), Er, <- !app_assoc.
    split; [reflexivity |].
    split; [rewrite Hk, <- app_assoc; reflexivity |].
    split; [rewrite forallb_app, Hnote1, Hnote; reflexivity |]. split.
    + intros k0 Hk0 Hrep. apply Hframe.
      * intros Hin. apply Hk0. right. exact Hin.
      * apply (replaced_kept s acc s1 s2 x key k0); auto.
        intros ->. apply Hk0. left. reflexivity.
    + intros k0 p0 [Heq | Hin] Hun.
      * inversion Heq; subst k0 p0.
        assert (Hnow : forall y, In y (objects s1) ->
                  any_pattern patterns (lower (oname y)) = false).
        { intros y Hy. destruct (Hnames y Hy) as [[y0 [Hy0 <-]] | [k [Hk1 Hs]]].
          - apply (Hun y0 Hy0).
          - destruct (Hmade k Hk1) as [_ Hall].
            apply (foreign_unmatched k); [| exact Hs].
            apply (Hall key patterns). left. reflexivity. }
        destruct (Hnone (matches_none patterns _ Hnow)) as [Hp ->].
        assert (Hfree : ~ In key (object_names s1)).
        { intros Hin. apply in_map_iff in Hin. destruct Hin as [y [Ey Hy]].
          pose proof (Hnow y Hy) as Hf. rewrite Ey, Hkey in Hf. discriminate Hf. }
        rewrite (unique_name_free _ _ Hfree) in Hname.
        split; [| intros e He; apply in_or_app; left; exact He].
        apply Hframe; [exact Hfresh |].
        exists x. rewrite dict_get_set.
        split; [reflexivity |]. split; [apply (extended_find_new s1 s2 x Hext) |].
        destruct Hext as [_ [Hnew [Hmesh _]]].
        split; [intros Ho; apply Hnew, Hincl, Ho |]. auto.
      * destruct (Hrest k0 p0 Hin Hun) as [Hrep Hw].
        split; [exact Hrep |]. intros e He. apply in_or_app. right. apply Hw, He.
Qed.




End Extraction.

(* ================================================================== *)
(** * The functions one by one *)

(** ** The arguments of the script *)

Section ScriptArguments.

Lemma index_of_absent (x : string) (l : list string) :
  ~ In x l -> index_of x l = None.
Proof.
  induction l as [| a r IH]; cbn; intros H; [reflexivity |].
  destruct (String.eqb a x) eqn:E.
  - apply String.eqb_eq in E. tauto.
  - rewrite IH by tauto. reflexivity.
Qed.

Lemma index_of_first (x : string) (before rest : list string) :
  ~ In x before -> index_of x (before ++ x :: rest) = Some (List.length before).
Proof.
  induction before as [| a r IH]; cbn; intros H.
  - rewrite String.eqb_refl. reflexivity.
  - destruct (String.eqb a x) eqn:E.
    + apply String.eqb_eq in E. tauto.
    + rewrite IH by tauto. reflexivity.
Qed.

(** X1.  The arguments of the script are what follows the first [--] of
    the command line: what stands before it is Blender's, a later [--] is
    an argument like any other, and a command line without [--] gives the
    script no argument at all. *)
Theorem script_args_after_first_separator (argv before rest : list string) :
  (~ In "--" argv -> script_args argv = [])
  /\ (~ In "--" before -> script_args (before ++ "--" :: rest) = rest).
Proof.
  split; intros H; unfold script_args.
  - rewrite (index_of_absent _ _ H). reflexivity.
  - rewrite (index_of_first _ _ rest H).
    replace (List.length before + 1)%nat with (List.length (before ++ ["--"]))
      by (rewrite length_app; reflexivity).
    replace (before ++ "--" :: rest) with ((before ++ ["--"]) ++ rest)
      by (rewrite <- app_assoc; reflexivity).
    rewrite skipn_app, skipn_all, Nat.sub_diag. reflexivity.
Qed.

(** X2.  Without an [--output] that is followed by a value, the output
    directory is [public/models/human]: so it is when the script gets no
    argument, when [--output] is absent, and when [--output] is the last
    word of the command line. *)
Theorem output_dir_of_default (argv : list string) :
  (forall i, nth_error (script_args argv) i = Some "--output" ->
             nth_error (script_args argv) (S i) = None) ->
  output_dir_of argv = "public/models/human".
Proof.
  intros H. unfold output_dir_of. rewrite parse_output_fold.
  apply fold_read_output_idle. intros i a Hin.
  apply in_combine_seq in Hin. destruct Hin as [_ Hi].
  rewrite Nat.sub_0_r in Hi.
  destruct (String.eqb a "--output") eqn:E; [| reflexivity]. cbn [andb].
  apply String.eqb_eq in E. subst a. specialize (H i Hi).
  apply Nat.ltb_ge. apply nth_error_None in H. lia.
Qed.

Lemma script_args_after_first_separator_witness :
  script_args ["blender"; "a.blend"; "--"; "--output"; "out"; "--"; "x"]
  = ["--output"; "out"; "--"; "x"].
Proof.
  apply (script_args_after_first_separator [] ["blender"; "a.blend"]
           ["--output"; "out"; "--"; "x"]).
  cbn. intros [H | [H | []]]; discriminate H.
Defined.

Lemma output_dir_of_default_witness :
  output_dir_of ["blender"; "--"; "--verbose"; "--output"] = "public/models/human".
Proof.
  apply output_dir_of_default. intros i H.
  destruct i as [| [| i]]; cbn in H |- *; try discriminate H; reflexivity.
Defined.

End ScriptArguments.

(** ** The search, its patterns *)

Section SearchEdges.
Context {host : Host}.

Lemma any_pattern_lowered (patterns : list string) (n : string) :
  any_pattern patterns n = existsb (fun p => str_in p n) (map lower patterns).
Proof.
  induction patterns as [| p r IH]; cbn; [reflexivity |].
  rewrite IH. destruct (str_in (lower p) n); reflexivity.
Qed.

Lemma matches_same_lowered (p1 p2 : list string) (objs : list Object) :
  map lower p1 = map lower p2 -> matches p1 objs = matches p2 objs.
Proof.
  intros H. induction objs as [| x r IH]; cbn; [reflexivity |].
  rewrite IH, !any_pattern_lowered, H. reflexivity.
Qed.

(** X3.  The search does not look at the case of the ASCII letters of its
    patterns: two lists of patterns that are the same once in lower case
    find the same objects, in every state of the scene and of the host. *)
Theorem find_meshes_by_pattern_ignores_case (p1 p2 : list string) (w : World) :
  map lower p1 = map lower p2 ->
  find_meshes_by_pattern p1 w = find_meshes_by_pattern p2 w.
Proof.
  intros H. unfold find_meshes_by_pattern, bind.
  destruct (bpy_data_objects w) as [[objs | e |] w1]; try reflexivity.
  rewrite (matches_same_lowered p1 p2 objs H). reflexivity.
Qed.

Lemma prefix_empty (s : string) : String.prefix "" s = true.
Proof. destruct s; reflexivity. Qed.

Lemma str_in_empty (s : string) : str_in "" s = true.
Proof. destruct s; reflexivity. Qed.

Lemma matches_no_pattern (objs : list Object) : matches [] objs = [].
Proof.
  induction objs as [| x r IH]; cbn; [reflexivity |].
  rewrite IH. destruct (negb (String.eqb (otype x) "MESH")); reflexivity.
Qed.

Lemma matches_empty_pattern (patterns : list string) (objs : list Object) :
  In "" patterns -> matches patterns objs = filter is_mesh objs.
Proof.
  intros Hin. rewrite matches_filter. apply filter_ext. intros x.
  replace (any_pattern patterns (lower (oname x))) with true;
    [apply andb_true_r |].
  symmetry. apply any_pattern_true. exists "". split; [exact Hin |].
  apply str_in_empty.
Qed.

(** X4.  The two ends of the search.  With no pattern at all it finds
    nothing; with the empty string among the patterns it finds every mesh
    object of the scene, since the empty string is in every name. *)
Theorem find_meshes_by_pattern_edges (patterns : list string) (w : World) :
  next_fault w = None ->
  fst (find_meshes_by_pattern [] w) = Ok []
  /\ (In "" patterns ->
      fst (find_meshes_by_pattern patterns w)
      = Ok (map oid (filter is_mesh (objects (scene w))))).
Proof.
  intros Hq. unfold find_meshes_by_pattern, bpy_data_objects.
  rewrite !(bind_run _ _ w (tick w (scene w)) (objects (scene w)))
    by (rewrite call_run by exact Hq; reflexivity).
  split.
  - cbn. rewrite matches_no_pattern. reflexivity.
  - intros Hin. cbn. rewrite (matches_empty_pattern patterns _ Hin). reflexivity.
Qed.

End SearchEdges.

(** What a part of the script adds to the trace. *)
Ltac trace_leaf tac :=
  lazymatch goal with
  | |- stable _ (call _) => apply stable_call_emits
  | |- stable _ (call_out _) =>
      apply stable_call_out_emits; intros; simpl; repeat constructor; tac
  | |- stable _ (log _ _) => apply stable_log_emits; tac
  | |- stable _ (traceback_print_exc _) => apply stable_traceback_emits; tac
  end.

(** ** [get_mesh_triangle_count] *)

Section Counting.
Context {host : Host}.

(** X5.  Counting the triangles of an object only reads: however the host
    answers, the scene after [get_mesh_triangle_count] is the scene before
    it and nothing is printed.  For an object that is not a mesh the count
    is 0, and the evaluation is not asked for. *)
Theorem get_mesh_triangle_count_only_reads (obj : nat) (w : World) :
  scene (snd (get_mesh_triangle_count obj w)) = scene w
  /\ trace (snd (get_mesh_triangle_count obj w)) = trace w
  /\ (forall x, next_fault w = None -> find_object obj (scene w) = Some x ->
                is_mesh x = false ->
                get_mesh_triangle_count obj w = (Ok 0%Z, tick w (scene w))).
Proof.
  split; [| split].
  - pose proof (get_mesh_triangle_count_scene obj (scene w) w eq_refl) as H.
    destruct (get_mesh_triangle_count obj w) as [[n | e |] w']; symmetry; exact H.
  - assert (H : stable (emits (fun _ => False) (trace w)) (get_mesh_triangle_count obj)).
    { walk ltac:(idtac; trace_leaf ltac:(fail)). }
    assert (H0 : emits (fun _ => False) (trace w) w).
    { exists []. rewrite app_nil_r. split; [reflexivity | constructor]. }
    specialize (H w H0).
    assert (E : emits (fun _ => False) (trace w) (snd (get_mesh_triangle_count obj w))).
    { destruct (get_mesh_triangle_count obj w) as [[n | e |] w']; exact H. }
    destruct E as [t [Et Hall]]. destruct t as [| e t].
    + rewrite app_nil_r in Et. exact Et.
    + inversion Hall as [| ? ? Hfalse _]. destruct Hfalse.
  - intros x Hq Hx Hm. unfold get_mesh_triangle_count, get_type.
    rewrite (bind_run _ _ w (tick w (scene w)) (otype x))
      by (apply (read_object_run obj (fun _ => otype)); assumption).
    unfold is_mesh in Hm. rewrite Hm. reflexivity.
Qed.

End Counting.

(** ** What [cleanup_scene] leaves *)

Section CleanupSceneEdges.
Context {host : Host}.

Lemma find_collection_In (c : nat) (s : Scene) (k : Collection) :
  find_collection c s = Some k -> In k (collections s).
Proof. unfold find_collection. intros H. apply find_some in H. tauto. Qed.

(** One turn of the loop of [cleanup_scene] in a scene without a
    [HumanLayer_] collection. *)
Lemma cleanup_turn_idle (s0 : Scene) (c : nat) :
  (forall k, In k (collections s0) -> humanlayer k = false) ->
  stable (on_scene (eq s0))
    (name <- collection_name c ;;
     if startswith name "HumanLayer_" then
       objs <- list_collection_objects (DataCollection c) ;;
       for_each objs (fun obj => objects_remove obj) ;;
       collections_remove c
     else ret tt)%py.
Proof.
  intros Hno.
  apply hoare_bind with
    (R := fun name w => startswith name "HumanLayer_" = false /\ scene w = s0).
  - unfold collection_name. apply hoare_call. intros w Hw. unfold on_scene in Hw.
    split; [intros e _; exact Hw |]. intros _. rewrite <- Hw.
    destruct (find_collection c s0) as [k |] eqn:E; cbn; [| reflexivity].
    split; [| reflexivity]. apply (Hno k). apply (find_collection_In c s0 k E).
  - intros name w [Hn Hw]. rewrite Hn. cbn. symmetry. exact Hw.
Qed.

Lemma cleanup_scene_idle (w : World) :
  (forall k, In k (collections (scene w)) -> humanlayer k = false) ->
  scene (snd (cleanup_scene w)) = scene w.
Proof.
  intros Hno.
  assert (H : stable (on_scene (eq (scene w))) cleanup_scene).
  { unfold cleanup_scene. apply stable_bind.
    - apply stable_call_scene. intros s Hs. exact Hs.
    - intros colls. apply stable_for_each. intros c.
      apply cleanup_turn_idle. exact Hno. }
  specialize (H w eq_refl).
  destruct (cleanup_scene w) as [[u | e |] w']; symmetry; exact H.
Qed.

Ltac meshes_leaf :=
  let s := fresh "s" in
  let H := fresh "H" in
  lazymatch goal with
  | |- stable _ (call _) =>
      apply stable_call_scene; intros s H; split_call; exact H
  end.

(** X6.  What [cleanup_scene] leaves alone.  It never removes or changes a
    mesh data-block, not even those of the objects it removes; and in a
    scene that has no collection whose name starts with [HumanLayer_] it
    changes nothing at all, whatever the host answers.  So a second
    [cleanup_scene] after one that returned does nothing. *)
Theorem cleanup_scene_leaves (w : World) :
  meshes (scene (snd (cleanup_scene w))) = meshes (scene w)
  /\ ((forall k, In k (collections (scene w)) ->
                 startswith (cname k) "HumanLayer_" = false) ->
      scene (snd (cleanup_scene w)) = scene w)
  /\ (forall w', distinct_collections (scene w) ->
                 cleanup_scene w = (Ok tt, w') ->
                 scene (snd (cleanup_scene w')) = scene w').
Proof.
  split; [| split].
  - assert (H : stable (on_scene (fun s => meshes s = meshes (scene w))) cleanup_scene).
    { walk ltac:(idtac; meshes_leaf). }
    specialize (H w eq_refl).
    destruct (cleanup_scene w) as [[u | e |] w']; exact H.
  - apply cleanup_scene_idle.
  - intros w' Hd E. apply cleanup_scene_idle.
    apply (cleanup_scene_clears w w' tt Hd E).
Qed.

End CleanupSceneEdges.

(** ** [main] before its [try] *)

Section EntryFaults.
Context {host : Host}.

(** X7.  The directory is made before the [try] of [main].  When making it
    fails, [main] ends with that exception: only the banner has been
    printed, no error is logged, [cleanup_scene] does not run and the scene
    is as it was. *)
Theorem main_stops_when_mkdir_fails (fuel : nat) (argv : list string) (w : World)
        (cls msg : string) :
  next_fault w = Some (cls, msg) ->
  main fuel argv w
  = (Raise (Exception cls msg),
     mkWorld (scene w)
             (trace w ++ [Printed "INFO" [Str (str_repeat "=" 60)];
                          Printed "INFO" [Str "Z-Anatomy Model Extractor"];
                          Printed "INFO" [Str (str_repeat "=" 60)]])
             (tl (faults w))).
Proof.
  intros H. unfold main, main_prologue, mkdir, call_out, log, bind.
  cbn [scene trace faults next_fault]. unfold next_fault in *.
  destruct (faults w) as [| [e |] r]; try discriminate H.
  inversion H; subst e. cbn [tl]. rewrite <- !app_assoc. reflexivity.
Qed.

End EntryFaults.

(** ** [duplicate_object] *)

Section DuplicateObject.
Context {host : Host}.

(** X8.  [duplicate_object] adds one object and one mesh data-block to the
    scene and changes nothing else.  The new object has a handle the scene
    did not use; it is a mesh object with the matrix of the original, linked
    in the active collection only, not selected, and it has no modifier,
    whatever modifiers the original has.  Its mesh is a data-block of its
    own with the geometry, materials, UV layers, vertex colours and shape
    keys of the original's.  Both names are the name asked for, or that name
    with a number when it is taken. *)
Theorem duplicate_object_copies (obj : nat) (name : string) (w : World)
        (x : Object) (d : nat) (m : Mesh) :
  quiet w -> find_object obj (scene w) = Some x -> odata x = Some d ->
  find_mesh d (scene w) = Some m ->
  collection_alive (active_collection (scene w)) (scene w) = true ->
  exists w' x' m',
    duplicate_object obj name w = (Ok (oid x'), w')
    /\ trace w' = trace w
    /\ objects (scene w') = objects (scene w) ++ [x']
    /\ meshes (scene w') = meshes (scene w) ++ [m']
    /\ collections (scene w') = collections (scene w)
    /\ active_object (scene w') = active_object (scene w)
    /\ ~ In (oid x') (map oid (objects (scene w)))
    /\ ~ In (did m') (map did (meshes (scene w)))
    /\ otype x' = "MESH" /\ odata x' = Some (did m')
    /\ matrix_world x' = matrix_world x /\ modifiers x' = []
    /\ selected x' = false
    /\ users_collection x' = [active_collection (scene w)]
    /\ oname x' = unique_name (object_names (scene w)) name
    /\ dname m' = unique_name (map dname (meshes (scene w))) name
    /\ geom m' = geom m /\ materials m' = materials m
    /\ uv_layers m' = uv_layers m /\ vertex_colors m' = vertex_colors m
    /\ shape_keys m' = shape_keys m.
Proof.
  destruct w as [s t f]. unfold quiet. cbn [scene trace faults].
  intros -> Hx Hd Hm Hc.
  exists (mkWorld (duplicated s name x m) t []),
         (object_duplicate s name x), (mesh_duplicate s name m).
  split; [apply (duplicate_object_runs obj name s t x d m Hx Hd Hm Hc) |].
  cbn [scene trace duplicated objects meshes collections active_object
       object_duplicate mesh_duplicate oid did otype odata matrix_world
       modifiers selected users_collection oname dname geom materials
       uv_layers vertex_colors shape_keys].
  repeat split; apply fresh_not_in.
Qed.

(** X9.  An object without data (an empty) cannot be duplicated:
    [duplicate_object] raises [AttributeError] at [obj.data.copy()], and the
    scene is as it was. *)
Theorem duplicate_object_without_data (obj : nat) (name : string) (w : World)
        (x : Object) :
  next_fault w = None -> find_object obj (scene w) = Some x -> odata x = None ->
  exists msg,
    duplicate_object obj name w
    = (Raise (Exception "AttributeError" msg), tick w (scene w)).
Proof.
  intros Hq Hx Hd. unfold duplicate_object, get_data.
  rewrite (bind_run _ _ w (tick w (scene w)) (odata x))
    by (apply (read_object_run obj (fun _ => odata)); assumption).
  rewrite Hd. eexists. reflexivity.
Qed.

End DuplicateObject.

(** ** [join_meshes]: the joined mesh *)

Section Joining.
Context {host : Host}.

Lemma copy_of_more (s' s'' : Scene) (src : Object * Mesh) (y : Object) :
  (forall d m, find_mesh d s' = Some m -> find_mesh d s'' = Some m) ->
  copy_of s' src y -> copy_of s'' src y.
Proof.
  intros Hmore [Hmw [m' [Hm' Hrest]]]. split; [exact Hmw |]. exists m'.
  split; [| exact Hrest]. unfold mesh_of in *.
  destruct (odata y) as [d |]; [apply Hmore; exact Hm' | discriminate].
Qed.

Lemma duplicate_loop_copies (name : string) (t : list Effect) (s0 : Scene) :
  collection_alive (active_collection s0) s0 = true ->
  forall (l : list nat) (srcs : list (Object * Mesh)) (s' : Scene)
         (extra : list Object),
    Forall2 (found_as s0) l srcs ->
    duplicates_of s0 s' extra ->
    exists s'' extra',
      for_collect l (fun obj => dup <- duplicate_object obj name ;;
                                select_set dup true ;; ret dup)%py
                  (mkWorld s' t [])
      = (Ok (map oid extra'), mkWorld s'' t [])
      /\ duplicates_of s0 s'' (extra ++ extra')
      /\ (forall d m, find_mesh d s' = Some m -> find_mesh d s'' = Some m)
      /\ Forall2 (copy_of s'') srcs extra'.
Proof.
  intros Hc. induction l as [| o r IH]; intros srcs s' extra Hl Hs.
  - inversion Hl; subst. exists s', []. rewrite app_nil_r.
    split; [reflexivity |]. split; [exact Hs |]. split; [auto | constructor].
  - inversion Hl as [| ? [x m] ? rs [Hx [Hd Hm]] Hrest]; subst. cbn [fst snd] in *.
    pose proof Hs as [Ho [[ms Hms] [Hex [Hnd [Hcs Hac]]]]].
    assert (Hx' : find_object o s' = Some x).
    { unfold find_object. rewrite Ho. apply find_more. exact Hx. }
    assert (Hm' : find_mesh (did m) s' = Some m).
    { unfold find_mesh. rewrite Hms. apply find_more. exact Hm. }
    assert (Hc' : collection_alive (active_collection s') s' = true).
    { rewrite Hac, (collection_alive_same _ s0 s' Hcs). exact Hc. }
    set (o' := fresh (map oid (objects s'))).
    set (d' := fresh (map did (meshes s'))).
    assert (Hd' : ~ In d' (map did (meshes s'))) by apply fresh_not_in.
    assert (Ho' : ~ In o' (map oid (objects s'))) by apply fresh_not_in.
    set (y := with_selected true (object_duplicate s' name x)).
    set (s2 := mkScene (objects s' ++ [y]) (meshes s' ++ [mesh_duplicate s' name m])
                       (collections s') (scene_children s') (active_object s')
                       (active_collection s')).
    assert (E : (dup <- duplicate_object o name ;; select_set dup true ;; ret dup)%py
                  (mkWorld s' t []) = (Ok (oid y), mkWorld s2 t [])).
    { rewrite (bind_at _ _ _ _ _
                 (duplicate_object_runs o name s' t x (did m) m Hx' Hd Hm' Hc')).
      rewrite (bind_at _ _ _ (mkWorld s2 t []) tt); [reflexivity |].
      unfold select_set, write_object. apply call_gives.
      unfold find_object, duplicated. cbn [objects]. fold o'.
      rewrite (find_last oid o' (objects s') (object_duplicate s' name x) Ho' eq_refl).
      unfold ok, update_object. cbn [objects set_objects].
      rewrite (map_update_last oid _ o' (objects s') (object_duplicate s' name x) Ho' eq_refl).
      reflexivity. }
    assert (Hmy : find_mesh d' s2 = Some (mesh_duplicate s' name m)).
    { unfold find_mesh. cbn [meshes s2].
      apply (find_last did d' (meshes s') (mesh_duplicate s' name m) Hd' eq_refl). }
    assert (Hmore2 : forall d0 m0, find_mesh d0 s' = Some m0 -> find_mesh d0 s2 = Some m0).
    { intros d0 m0 H0. unfold find_mesh. cbn [meshes s2]. apply find_more. exact H0. }
    assert (Hs2 : duplicates_of s0 s2 (extra ++ [y])).
    { unfold duplicates_of. cbn [objects meshes collections active_collection s2].
      split; [rewrite Ho, app_assoc; reflexivity |].
      split; [exists (ms ++ [mesh_duplicate s' name m]); rewrite Hms, app_assoc; reflexivity |].
      split.
      - intros y0 H. apply in_app_or in H. destruct H as [H | [<- | []]].
        + destruct (Hex y0 H) as [S0 [M0 [d0 [m0 [E0 [F0 N0]]]]]].
          split; [exact S0 |]. split; [exact M0 |]. exists d0, m0. auto.
        + split; [reflexivity |]. split; [reflexivity |].
          exists d', (mesh_duplicate s' name m). split; [reflexivity |].
          split; [exact Hmy |]. intros Hin. apply Hd'. rewrite Hms, map_app.
          apply in_or_app. auto.
      - split; [| auto]. rewrite map_app. cbn [map]. apply NoDup_snoc_fresh. exact Hnd. }
    destruct (IH rs s2 (extra ++ [y]) Hrest Hs2)
      as [s'' [extra' [Er [Hs'' [Hmore HF]]]]].
    exists s'', (y :: extra'). cbn [for_collect].
    rewrite (bind_at _ _ _ _ _ E), (bind_at _ _ _ _ _ Er).
    split; [reflexivity |].
    split; [rewrite <- app_assoc in Hs''; exact Hs'' |].
    split; [intros d0 m0 H0; apply Hmore, Hmore2, H0 |].
    constructor; [| exact HF].
    apply (copy_of_more s2); [exact Hmore |].
    split; [reflexivity |]. exists (mesh_duplicate s' name m).
    split; [| repeat split]. unfold mesh_of. cbn [odata y with_selected object_duplicate].
    exact Hmy.
Qed.

Lemma found_as_deselected (s : Scene) (l : list nat) (srcs : list (Object * Mesh)) :
  Forall2 (found_as s) l srcs ->
  Forall2 (found_as (set_objects (map (with_selected false) (objects s)) s)) l
          (map deselected_source srcs).
Proof.
  induction 1 as [| o [x m] l srcs [Hx [Hd Hm]] _ IH]; cbn [map]; constructor; [| exact IH].
  cbn [fst snd] in *. split; [| split; [exact Hd | exact Hm]].
  unfold find_object. cbn [objects set_objects fst deselected_source].
  rewrite (find_map_same oid (with_selected false) o (objects s)) by reflexivity.
  unfold find_object in Hx. rewrite Hx. reflexivity.
Qed.

Lemma copies_geometry (s : Scene) (srcs : list (Object * Mesh)) (ys : list Object) :
  Forall2 (copy_of s) (map deselected_source srcs) ys ->
  flat_map (geom_and_matrix s) ys
  = map (fun p => (geom (snd p), matrix_world (fst p))) srcs.
Proof.
  revert ys. induction srcs as [| [x m] r IH]; intros ys H; inversion H; subst.
  - reflexivity.
  - match goal with Hc : copy_of _ _ _ |- _ => destruct Hc as [Hmw [m' [Hm' [Hg _]]]] end.
    cbn [flat_map map fst snd deselected_source] in *. unfold geom_and_matrix at 1.
    rewrite Hm', Hg, Hmw. cbn [app]. f_equal. apply IH. assumption.
Qed.

Lemma copies_materials (s : Scene) (srcs : list (Object * Mesh)) (ys : list Object) :
  Forall2 (copy_of s) (map deselected_source srcs) ys ->
  flat_map materials
           (flat_map (fun x => match mesh_of s x with Some m => [m] | None => [] end) ys)
  = flat_map (fun p => materials (snd p)) srcs.
Proof.
  revert ys. induction srcs as [| [x m] r IH]; intros ys H; inversion H; subst.
  - reflexivity.
  - match goal with Hc : copy_of _ _ _ |- _ => destruct Hc as [_ [m' [Hm' [_ [Hma _]]]]] end.
    cbn [flat_map map fst snd deselected_source] in *.
    rewrite Hm'. cbn [app flat_map]. rewrite Hma. f_equal. apply IH. assumption.
Qed.


End Joining.

(** ** [create_placeholder_mesh] *)

Section PlaceholderObject.
Context {host : Host}.


End PlaceholderObject.

(** ** What the extraction returns *)

Section Values.
Context {host : Host}.

Lemma returns_spec {A : Type} (m : M A) (Q : A -> Prop) (w w' : World) (a : A) :
  returns m Q -> m w = (Ok a, w') -> Q a.
Proof. intros H E. specialize (H w I). rewrite E in H. exact H. Qed.

Lemma returns_bind {A B : Type} (m : M A) (k : A -> M B) (Q : B -> Prop) :
  (forall a, returns (k a) Q) -> returns (bind m k) Q.
Proof.
  intros Hk w _. unfold bind. destruct (m w) as [[a | e |] w1]; try exact I.
  apply (Hk a w1 I).
Qed.

Lemma returns_weaken {A : Type} (m : M A) (Q Q' : A -> Prop) :
  returns m Q -> (forall a, Q a -> Q' a) -> returns m Q'.
Proof.
  intros H HQ w _. specialize (H w I).
  destruct (m w) as [[a | e |] w1]; auto.
Qed.

Lemma returns_ret {A : Type} (a : A) (Q : A -> Prop) : Q a -> returns (ret a) Q.
Proof. intros H w _. exact H. Qed.

Ltac to_the_end := repeat (apply returns_bind; intro).

Lemma join_meshes_returns (objs : list nat) (name : string) :
  returns (join_meshes objs name) (fun r => r = None <-> objs = []).
Proof.
  unfold join_meshes. destruct objs as [| first [| second rest]].
  - apply returns_ret. tauto.
  - to_the_end. apply returns_ret. split; discriminate.
  - to_the_end. apply returns_ret. split; discriminate.
Qed.


Lemma create_placeholder_mesh_returns (name : string) (Q : nat -> Prop) :
  (forall o, Q o) -> returns (create_placeholder_mesh name) Q.
Proof.
  intros H. unfold create_placeholder_mesh. to_the_end. apply returns_ret. apply H.
Qed.

Lemma extract_one_returns (acc : meshes_dict) (key : string) (patterns : list string) :
  returns (extract_one acc (key, patterns))
          (fun acc' => exists o, acc' = dict_set acc key (Some o)).
Proof.
  unfold extract_one. apply returns_bind. intros found.
  destruct found as [| f0 fs].
  - to_the_end. apply returns_ret. eauto.
  - apply returns_bind. intros u. apply returns_bind. intros u0.
    intros w _. unfold bind.
    pose proof (join_meshes_returns (f0 :: fs) key w I) as H.
    destruct (join_meshes (f0 :: fs) key w) as [[r | e |] w1]; try exact I.
    cbn. destruct r as [o |]; [eauto |].
    destruct H as [H _]. specialize (H eq_refl). discriminate H.
Qed.

Lemma dict_set_values {A : Type} (P : A -> Prop) (d : list (string * A))
      (key : string) (v : A) :
  Forall P (values d) -> P v -> Forall P (values (dict_set d key v)).
Proof.
  intros Hd Hv. induction d as [| [k x] r IH]; cbn.
  - constructor; [exact Hv | constructor].
  - inversion Hd as [| ? ? Hx Hr]; subst.
    destruct (String.eqb k key); cbn; constructor; auto.
Qed.

Lemma for_fold_returns {X S : Type} (body : S -> X -> M S)
      (J : list X -> S -> Prop) :
  (forall a rest s, J (a :: rest) s -> returns (body s a) (J rest)) ->
  forall l acc, J l acc -> returns (for_fold l acc body) (J []).
Proof.
  intros Hb. induction l as [| a r IH]; intros acc HJ; cbn [for_fold].
  - apply returns_ret. exact HJ.
  - intros w _. unfold bind.
    pose proof (Hb a r acc HJ w I) as H.
    destruct (body acc a w) as [[s' | e |] w1]; try exact I.
    apply (IH s' H w1 I).
Qed.

Lemma extract_anatomy_meshes_returns :
  returns extract_anatomy_meshes
          (fun d => keys d = keys MESH_PATTERNS
                    /\ Forall (fun v => v <> None) (values d)).
Proof.
  unfold extract_anatomy_meshes. apply returns_bind. intros u.
  pose (J := fun (rest : list (string * list string)) (acc : meshes_dict) =>
               exists done, done ++ rest = MESH_PATTERNS
                            /\ keys acc = keys done
                            /\ Forall (fun v => v <> None) (values acc)).
  apply returns_weaken with (Q := J []);
    [apply (for_fold_returns extract_one J) | ].
  - intros [key patterns] rest acc [done [Hd [Hk Hv]]].
    intros w0 _. pose proof (extract_one_returns acc key patterns w0 I) as H.
    destruct (extract_one acc (key, patterns) w0) as [[acc' | e |] w1]; try exact I.
    destruct H as [o ->]. exists (done ++ [(key, patterns)]).
    split; [rewrite <- app_assoc; exact Hd |].
    assert (Hfresh : ~ In key (keys acc)).
    { rewrite Hk. intros Hin.
      assert (Hnd : NoDup (keys MESH_PATTERNS))
        by (cbn; repeat constructor; cbn; intuition discriminate).
      rewrite <- Hd in Hnd. unfold keys in Hnd, Hin. rewrite map_app in Hnd.
      cbn [map fst] in Hnd. apply NoDup_remove_2 in Hnd. apply Hnd.
      apply in_or_app. left. exact Hin. }
    split.
    + rewrite (keys_dict_set acc key _ Hfresh), Hk. unfold keys.
      rewrite map_app. reflexivity.
    + apply dict_set_values; [exact Hv | discriminate].
  - exists []. repeat split; constructor.
  - intros d0 [done [Hd [Hk Hv]]]. rewrite app_nil_r in Hd. subst done. auto.
Qed.

(** X11.  Whenever [extract_anatomy_meshes] returns, whatever the scene
    holds and whatever the host has answered, the dict it returns has the
    four keys Body, Veins, Brain and Heart, in this order, and holds an
    object under each: no value is [None]. *)
Theorem extract_anatomy_meshes_values (w w' : World) (d : meshes_dict) :
  extract_anatomy_meshes w = (Ok d, w') ->
  keys d = ["Body"; "Veins"; "Brain"; "Heart"]
  /\ Forall (fun v => v <> None) (values d).
Proof. apply (returns_spec _ _ w w' d extract_anatomy_meshes_returns). Qed.

End Values.

(** ** [apply_all_transforms] *)

Section Transforms.
Context {host : Host}.

Lemma selected_one (obj : nat) (x : Object) (l : list Object) :
  (forall y, In y l -> oid y = obj -> y = x) ->
  (forall y, In y l -> oid y <> obj -> selected y = false) ->
  In x l -> oid x = obj -> NoDup (map oid l) -> is_mesh x = true ->
  filter (fun y => selected y && is_mesh y)
         (map (fun y => if Nat.eqb (oid y) obj then with_selected true y else y) l)
  = [with_selected true x].
Proof.
  intros Hsame Hoff Hin Ex Hnd Hm.
  induction l as [| a r IH]; [destruct Hin |].
  cbn [map filter]. inversion Hnd as [| ? ? Hna Hr]; subst.
  destruct (Nat.eqb (oid a) (oid x)) eqn:E.
  - apply Nat.eqb_eq in E. assert (a = x) by (apply Hsame; [left; reflexivity | exact E]).
    subst a. cbn [selected with_selected]. change (is_mesh (with_selected true x)) with (is_mesh x).
    rewrite Hm. cbn [andb]. f_equal.
    apply filter_none. intros y Hy. apply in_map_iff in Hy. destruct Hy as [y0 [<- Hy0]].
    assert (Hne : oid y0 <> oid x).
    { intros Heq. apply Hna. rewrite <- Heq. apply in_map. exact Hy0. }
    apply Nat.eqb_neq in Hne. rewrite Hne.
    rewrite (Hoff y0 (or_intror Hy0)) by (apply Nat.eqb_neq; exact Hne). reflexivity.
  - apply Nat.eqb_neq in E.
    rewrite (Hoff a (or_introl eq_refl) E). cbn [andb].
    destruct Hin as [-> | Hin]; [congruence |].
    apply IH; auto.
    + intros y Hy. apply Hsame. right. exact Hy.
    + intros y Hy. apply Hoff. right. exact Hy.
Qed.

Lemma reset_one (obj : nat) (l : list Object) (f g h : Object -> Object) (p : Object -> bool) :
  (forall y, In y l -> oid y = obj -> p (f y) = true) ->
  (forall y, In y l -> oid y <> obj -> p y = false) ->
  (forall y, oid (g (f y)) = oid y) ->
  map (fun y => if Nat.eqb (oid y) obj then h y else y)
      (map (fun y => if p y then g y else y)
           (map (fun y => if Nat.eqb (oid y) obj then f y else y) l))
  = map (fun y => if Nat.eqb (oid y) obj then h (g (f y)) else y) l.
Proof.
  intros Hon Hoff Hid. rewrite !map_map. apply map_ext_in. intros y Hy.
  destruct (Nat.eqb (oid y) obj) eqn:E.
  - apply Nat.eqb_eq in E. rewrite (Hon y Hy E), Hid.
    apply Nat.eqb_eq in E. rewrite E. reflexivity.
  - apply Nat.eqb_neq in E. rewrite (Hoff y Hy E).
    apply Nat.eqb_neq in E. rewrite E. reflexivity.
Qed.

(** X12.  [apply_all_transforms] on a mesh object, when no other object is
    selected: the matrix of the object is baked into its mesh and becomes
    the identity, the object is the active one and is not selected, and
    every other object and every other mesh is as it was. *)
Theorem apply_all_transforms_bakes (obj : nat) (w : World) (x : Object)
        (d : nat) (m : Mesh) :
  quiet w -> NoDup (map oid (objects (scene w))) ->
  find_object obj (scene w) = Some x -> is_mesh x = true ->
  odata x = Some d -> find_mesh d (scene w) = Some m ->
  only_selected obj (scene w) ->
  exists w',
    apply_all_transforms obj w = (Ok tt, w')
    /\ trace w' = trace w
    /\ find_object obj (scene w') = Some (transforms_applied x)
    /\ find_mesh d (scene w') = Some (baked_mesh x m)
    /\ active_object (scene w') = Some obj
    /\ (forall o, o <> obj -> find_object o (scene w') = find_object o (scene w))
    /\ (forall d', d' <> d -> find_mesh d' (scene w') = find_mesh d' (scene w)).
Proof.
  destruct w as [s t f]. unfold quiet. cbn [scene trace faults].
  intros -> Hnd Hx Hm Hd Hme Honly.
  pose proof (find_object_oid _ _ _ Hx) as Eo.
  pose proof (find_object_In _ _ _ Hx) as Hin.
  assert (Hsame : forall y, In y (objects s) -> oid y = obj -> y = x).
  { intros y Hy Ey. pose proof (find_distinct oid (objects s) y Hnd Hy) as Hf.
    rewrite Ey in Hf. unfold find_object in Hx. rewrite Hx in Hf.
    inversion Hf. reflexivity. }
  unfold apply_all_transforms.
  set (s1 := set_active_object (Some obj) s).
  rewrite (bind_at _ _ _ (mkWorld s1 t []) tt)
    by (unfold set_active; apply call_gives; rewrite Hx; reflexivity).
  set (s2 := update_object obj (with_selected true) s1).
  rewrite (bind_at _ _ _ (mkWorld s2 t []) tt)
    by (unfold select_set, write_object; apply call_gives;
        change (find_object obj s1) with (find_object obj s); rewrite Hx; reflexivity).
  assert (Hsel : filter (fun y => selected y && is_mesh y) (objects s2)
                 = [with_selected true x]).
  { unfold s2, update_object. cbn [objects set_objects s1 set_active_object].
    apply (selected_one obj x (objects s)); auto. }
  set (s3 := set_objects
               (map (fun y => if selected y && is_mesh y
                              then with_matrix_world identity_matrix y else y)
                    (objects s2))
               (update_mesh d (fun k => with_geom (transform_apply_geom (matrix_world x) (geom k)) k) s2)).
  rewrite (bind_at _ _ _ (mkWorld s3 t []) tt).
  2:{ unfold ops_object_transform_apply. apply call_gives. rewrite Hsel.
      cbn [fold_left]. unfold bake at 1 2. cbn [odata with_selected]. rewrite Hd.
      reflexivity. }
  set (s4 := update_object obj (with_selected false) s3).
  assert (Hobjs : objects s4
                  = map (fun y => if Nat.eqb (oid y) obj then transforms_applied y else y)
                        (objects s)).
  { unfold s4, update_object, s3, s2, update_object. cbn [objects set_objects update_mesh set_meshes s1 set_active_object].
    rewrite (reset_one obj (objects s) (with_selected true) (with_matrix_world identity_matrix)
               (with_selected false) (fun y => selected y && is_mesh y)).
    - reflexivity.
    - intros y Hy Ey. rewrite (Hsame y Hy Ey). cbn [selected with_selected].
      change (is_mesh (with_selected true x)) with (is_mesh x). rewrite Hm. reflexivity.
    - intros y Hy Ey. rewrite (Honly y Hy Ey). reflexivity.
    - reflexivity. }
  assert (Hx3 : exists x3, find_object obj s3 = Some x3).
  { unfold find_object, s3. cbn [objects set_objects].
    destruct (find _ _) as [x3 |] eqn:E; [eauto |]. exfalso.
    assert (Hthere : In (with_matrix_world identity_matrix (with_selected true x))
                        (map (fun y => if selected y && is_mesh y
                                       then with_matrix_world identity_matrix y else y)
                             (objects s2))).
    { apply in_map_iff. exists (with_selected true x). cbn [selected with_selected].
      change (is_mesh (with_selected true x)) with (is_mesh x). rewrite Hm. cbn [andb].
      split; [reflexivity |]. unfold s2, update_object.
      cbn [objects set_objects s1 set_active_object].
      apply in_map_iff. exists x. rewrite Eo, Nat.eqb_refl. auto. }
    pose proof (find_none _ _ E _ Hthere) as Hno.
    cbn [oid with_matrix_world with_selected] in Hno.
    rewrite Eo, Nat.eqb_refl in Hno. discriminate Hno. }
  destruct Hx3 as [x3 Hx3].
  exists (mkWorld s4 t []).
  split.
  { unfold select_set, write_object. apply call_gives. rewrite Hx3. reflexivity. }
  split; [reflexivity |]. cbn [scene].
  assert (Hfo : forall o, find_object o s4
                = if Nat.eqb o obj then option_map transforms_applied (find_object o s)
                  else find_object o s).
  { intros o. unfold find_object. rewrite Hobjs.
    apply (find_map_update oid transforms_applied obj o (objects s)). reflexivity. }
  assert (Hfm : forall d', find_mesh d' s4
                = if Nat.eqb d' d then option_map (baked_mesh x) (find_mesh d' s)
                  else find_mesh d' s).
  { intros d'. change (find_mesh d' s4)
      with (find_mesh d' (update_mesh d (baked_mesh x) s)).
    apply find_mesh_update. reflexivity. }
  split; [rewrite Hfo, Nat.eqb_refl, Hx; reflexivity |].
  split; [rewrite Hfm, Nat.eqb_refl, Hme; reflexivity |].
  split; [reflexivity |]. split.
  - intros o Ho. rewrite Hfo. apply Nat.eqb_neq in Ho. rewrite Ho. reflexivity.
  - intros d' Hd'. rewrite Hfm. apply Nat.eqb_neq in Hd'. rewrite Hd'. reflexivity.
Qed.

End Transforms.

(** ** [export_collection_to_glb] *)

Section Exporting.
Context {host : Host}.

(** What [call_out] does in a world without faults. *)
Lemma call_out_gives {A : Type} (f : Scene -> res A * Scene * list Effect)
      (s s' : Scene) (t out : list Effect) (r : res A) :
  f s = (r, s', out) -> call_out f (mkWorld s t []) = (r, mkWorld s' (t ++ out) []).
Proof. intros E. unfold call_out. cbn. rewrite E. reflexivity. Qed.

Lemma select_loop (t : list Effect) :
  forall (l : list nat) (s : Scene),
    (forall o, In o l -> In o (map oid (objects s))) ->
    for_each l (fun obj => select_set obj true) (mkWorld s t [])
    = (Ok tt, mkWorld (select_listed l s) t []).
Proof.
  induction l as [| o r IH]; intros s Hl.
  - cbn. unfold select_listed. cbn. rewrite map_id. destruct s; reflexivity.
  - cbn [for_each].
    assert (Hx : exists x, find_object o s = Some x).
    { specialize (Hl o (or_introl eq_refl)). apply in_map_iff in Hl.
      destruct Hl as [x [Ex Hin]]. unfold find_object.
      destruct (find _ _) as [y |] eqn:E; [eauto |].
      pose proof (find_none _ _ E x Hin) as Hno. cbn in Hno.
      rewrite Ex, Nat.eqb_refl in Hno. discriminate Hno. }
    destruct Hx as [x Hx].
    rewrite (bind_at _ _ _ (mkWorld (update_object o (with_selected true) s) t []) tt)
      by (unfold select_set, write_object; apply call_gives; rewrite Hx; reflexivity).
    rewrite IH.
    + f_equal. f_equal. unfold select_listed, update_object, set_objects.
      cbn [objects meshes collections scene_children active_object
           active_collection]. f_equal.
      rewrite map_map. apply map_ext. intros y. cbn [existsb].
      rewrite (Nat.eqb_sym (oid y) o).
      destruct (Nat.eqb o (oid y)) eqn:E; cbn [orb oid with_selected];
        [destruct (existsb (Nat.eqb (oid y)) r) |]; reflexivity.
    + intros o' Ho'. unfold update_object. cbn [objects set_objects].
      rewrite map_map. specialize (Hl o' (or_intror Ho')).
      erewrite map_ext; [exact Hl |]. intros y. cbn.
      destruct (Nat.eqb (oid y) o); reflexivity.
Qed.

Lemma listed_linked (c : CollRef) (l : list Object) (x : Object) :
  NoDup (map oid l) -> In x l ->
  existsb (Nat.eqb (oid x)) (map oid (filter (linked_in c) l)) = linked_in c x.
Proof.
  intros Hnd Hin. destruct (linked_in c x) eqn:E.
  - apply existsb_exists. exists (oid x). split; [| apply Nat.eqb_refl].
    apply in_map. apply filter_In. auto.
  - destruct (existsb _ _) eqn:Ex; [| reflexivity]. exfalso.
    apply existsb_exists in Ex. destruct Ex as [o [Ho Eo]].
    apply Nat.eqb_eq in Eo. subst o. apply in_map_iff in Ho.
    destruct Ho as [y [Ey Hy]]. apply filter_In in Hy. destruct Hy as [Hy Hl].
    assert (y = x).
    { pose proof (find_distinct oid l y Hnd Hy) as F1.
      pose proof (find_distinct oid l x Hnd Hin) as F2.
      rewrite Ey in F1. rewrite F1 in F2. inversion F2. reflexivity. }
    subst y. congruence.
Qed.

Lemma linked_deselected (c : CollRef) (l : list Object) :
  map oid (filter (linked_in c) (map (with_selected false) l))
  = map oid (filter (linked_in c) l).
Proof.
  induction l as [| a r IH]; cbn [map filter]; [reflexivity |].
  change (linked_in c (with_selected false a)) with (linked_in c a).
  destruct (linked_in c a); cbn [map]; rewrite IH; reflexivity.
Qed.

Lemma nodes_of_selected (c : CollRef) (s s' : Scene) (l : list Object) :
  meshes s' = meshes s ->
  map (node_of s') (filter selected (map (fun x => with_selected (linked_in c x) x) l))
  = map (node_of s) (filter (linked_in c) l).
Proof.
  intros Em. induction l as [| a r IH]; cbn [map filter]; [reflexivity |].
  cbn [selected with_selected].
  destruct (linked_in c a); cbn [map]; rewrite IH; [| reflexivity].
  f_equal. unfold node_of, mesh_of, find_mesh. rewrite Em. reflexivity.
Qed.

(** X13.  [export_collection_to_glb] exports the objects that are linked
    in the collection, in the order of the scene, whatever was selected
    before: it prints a line, writes one file with exactly these objects
    (none for an empty collection) and prints a second line.  Afterwards
    exactly these objects are selected, and nothing else of the scene has
    changed. *)
Theorem export_collection_to_glb_exports (c : nat) (p : Path) (w : World) :
  quiet w -> NoDup (map oid (objects (scene w))) ->
  collection_alive (DataCollection c) (scene w) = true ->
  export_collection_to_glb c p w
  = (Ok tt,
     mkWorld (selecting (DataCollection c) (scene w))
       (trace w
        ++ [Printed "INFO" [Str "Exporting to "; PathStr p; Str "..."];
            ExportGLB p (map (node_of (scene w))
                             (collection_objects (DataCollection c) (scene w)));
            Printed "INFO" [Str "  Exported: "; PathStr p]])
       []).
Proof.
  destruct w as [s t f]. unfold quiet. cbn [scene trace faults].
  intros -> Hnd Hc. unfold export_collection_to_glb.
  set (line := Printed "INFO" [Str "Exporting to "; PathStr p; Str "..."]).
  rewrite (bind_at _ _ _ (mkWorld s (t ++ [line]) []) tt) by reflexivity.
  set (s0 := set_objects (map (with_selected false) (objects s)) s).
  rewrite (bind_at _ _ _ (mkWorld s0 (t ++ [line]) []) tt)
    by (unfold select_all_DESELECT; apply call_gives; reflexivity).
  set (l := map oid (collection_objects (DataCollection c) s0)).
  rewrite (bind_at _ _ _ (mkWorld s0 (t ++ [line]) []) l).
  2:{ unfold list_collection_objects. apply call_gives.
      change (collection_alive (DataCollection c) s0)
        with (collection_alive (DataCollection c) s).
      rewrite Hc. reflexivity. }
  assert (Hl : forall o, In o l -> In o (map oid (objects s0))).
  { intros o Ho. unfold l, collection_objects in Ho. apply in_map_iff in Ho.
    destruct Ho as [y [<- Hy]]. apply filter_In in Hy. apply in_map. tauto. }
  rewrite (bind_at _ _ _ _ _ (select_loop (t ++ [line]) l s0 Hl)).
  assert (El : l = map oid (collection_objects (DataCollection c) s)).
  { apply linked_deselected. }
  assert (Es : select_listed l s0 = selecting (DataCollection c) s).
  { unfold select_listed, selecting, s0, set_objects.
    cbn [objects meshes collections scene_children active_object active_collection].
    f_equal. rewrite map_map. apply map_ext_in. intros x Hx.
    cbn [oid with_selected]. rewrite El. unfold collection_objects.
    rewrite (listed_linked (DataCollection c) (objects s) x Hnd Hx).
    destruct (linked_in (DataCollection c) x); reflexivity. }
  rewrite Es.
  assert (En : map (node_of (selecting (DataCollection c) s))
                   (filter selected (objects (selecting (DataCollection c) s)))
               = map (node_of s) (collection_objects (DataCollection c) s)).
  { apply nodes_of_selected. reflexivity. }
  rewrite (bind_at _ _ _ (mkWorld (selecting (DataCollection c) s)
             ((t ++ [line]) ++ [ExportGLB p (map (node_of s)
                (collection_objects (DataCollection c) s))]) []) tt).
  - unfold log. cbn [scene trace faults]. rewrite <- !app_assoc. reflexivity.
  - unfold export_scene_gltf. apply call_out_gives. rewrite En. reflexivity.
Qed.

End Exporting.

(** ** [create_pose_collection] *)

Section PoseCollection.
Context {host : Host}.

Lemma CollRef_eqb_refl (r : CollRef) : CollRef_eqb r r = true.
Proof. destruct r; cbn; [reflexivity | apply Nat.eqb_refl]. Qed.

Lemma pose_turn_runs (c : nat) (name : string) (src : nat) (s : Scene)
      (t : list Effect) (x : Object) (d : nat) (m : Mesh) :
  find_object src s = Some x -> odata x = Some d -> find_mesh d s = Some m ->
  collection_alive (active_collection s) s = true ->
  collection_alive (DataCollection c) s = true ->
  (source_obj <- the (Some src) ;;
   new_obj <- duplicate_object source_obj name ;;
   colls <- get_users_collection new_obj ;;
   for_each colls (fun coll => collection_objects_unlink coll new_obj) ;;
   collection_objects_link (DataCollection c) new_obj)%py (mkWorld s t [])
  = (Ok tt, mkWorld (pose_copy c s name x m) t []).
Proof.
  intros Hx Hd Hm Hac Hc.
  rewrite (bind_at _ _ _ (mkWorld s t []) src) by reflexivity.
  rewrite (bind_at _ _ _ _ _ (duplicate_object_runs src name s t x d m Hx Hd Hm Hac)).
  set (o := fresh (map oid (objects s))).
  set (x1 := object_duplicate s name x).
  set (s1 := duplicated s name x m).
  assert (Ho : ~ In o (map oid (objects s))) by apply fresh_not_in.
  assert (H1 : find_object o s1 = Some x1).
  { unfold find_object, s1, duplicated. cbn [objects].
    apply (find_last oid o (objects s) x1 Ho eq_refl). }
  rewrite (bind_at _ _ _ (mkWorld s1 t []) [active_collection s])
    by (unfold get_users_collection, read_object; apply call_gives; rewrite H1; reflexivity).
  cbn [for_each].
  set (x2 := with_users_collection [] x1).
  set (s2 := mkScene (objects s ++ [x2]) (meshes s1) (collections s)
                     (scene_children s) (active_object s) (active_collection s)).
  assert (E2 : collection_objects_unlink (active_collection s) o (mkWorld s1 t [])
               = (Ok tt, mkWorld s2 t [])).
  { unfold collection_objects_unlink. apply call_gives.
    change (collection_alive (active_collection s) s1)
      with (collection_alive (active_collection s) s).
    rewrite Hac, H1. cbn [linked_in x1 object_duplicate users_collection existsb].
    rewrite CollRef_eqb_refl. cbn [orb]. unfold ok, update_object.
    unfold s1, duplicated. cbn [objects set_objects].
    rewrite (map_update_last oid _ o (objects s) x1 Ho eq_refl).
    cbn [users_collection x1 object_duplicate filter]. rewrite CollRef_eqb_refl.
    reflexivity. }
  rewrite (bind_at _ _ _ (mkWorld s2 t []) tt)
    by (rewrite (bind_at _ _ _ _ _ E2); reflexivity).
  unfold collection_objects_link. apply call_gives.
  change (collection_alive (DataCollection c) s2)
    with (collection_alive (DataCollection c) s).
  rewrite Hc. unfold find_object, s2. cbn [objects].
  rewrite (find_last oid o (objects s) x2 Ho eq_refl).
  cbn [linked_in x2 with_users_collection users_collection existsb].
  unfold ok, update_object. cbn [objects set_objects].
  rewrite (map_update_last oid _ o (objects s) x2 Ho eq_refl). reflexivity.
Qed.

Lemma grown_pose_copy (c : nat) (s0 s : Scene) (name : string) (x : Object) (m : Mesh) :
  grown s0 s -> grown s0 (pose_copy c s name x m).
Proof.
  intros [[news Ho] [[ms Hm] Ha]]. unfold grown, pose_copy.
  cbn [objects meshes active_collection]. repeat split.
  - eexists. rewrite Ho, <- app_assoc. reflexivity.
  - eexists. rewrite Hm, <- app_assoc. reflexivity.
  - exact Ha.
Qed.

Lemma pose_loop_runs (c : nat) (s0 : Scene) (t : list Effect) :
  forall (items : meshes_dict) (s : Scene),
    sources s0 items -> grown s0 s ->
    collection_alive (active_collection s) s = true ->
    collection_alive (DataCollection c) s = true ->
    for_each items (fun '(name, source_obj) =>
      source_obj <- the source_obj ;;
      new_obj <- duplicate_object source_obj name ;;
      colls <- get_users_collection new_obj ;;
      for_each colls (fun coll => collection_objects_unlink coll new_obj) ;;
      collection_objects_link (DataCollection c) new_obj)%py (mkWorld s t [])
    = (Ok tt, mkWorld (pose_copies c s0 items s) t []).
Proof.
  induction items as [| [name v] rest IH]; intros s Hsrc Hg Hac Hc; [reflexivity |].
  destruct (Hsrc name v (or_introl eq_refl)) as [src [x [m [-> [Hx Hm]]]]].
  cbn [for_each pose_copies]. rewrite Hx, Hm.
  destruct (mesh_of_data _ _ _ Hm) as [d [Hd Hmd]].
  pose proof Hg as [[news Ho] [[ms Hms] Ha]].
  assert (Hx' : find_object src s = Some x).
  { unfold find_object. rewrite Ho. apply find_more. exact Hx. }
  assert (Hm' : find_mesh d s = Some m).
  { unfold find_mesh. rewrite Hms. apply find_more. exact Hmd. }
  rewrite (bind_at _ _ _ _ _ (pose_turn_runs c name src s t x d m Hx' Hd Hm' Hac Hc)).
  apply IH.
  - intros n v Hin. apply (Hsrc n v). right. exact Hin.
  - apply grown_pose_copy. exact Hg.
  - exact Hac.
  - exact Hc.
Qed.

Lemma pose_copies_same (c : nat) (s0 : Scene) :
  forall (items : meshes_dict) (s1 s2 : Scene),
    same_content s1 s2 ->
    same_content (pose_copies c s0 items s1) (pose_copies c s0 items s2).
Proof.
  induction items as [| [name v] rest IH]; intros s1 s2 H; [exact H |].
  cbn [pose_copies]. destruct v as [src |]; [| exact H].
  destruct (find_object src s0) as [x |]; [| exact H].
  destruct (mesh_of s0 x) as [m |]; [| exact H].
  apply IH. destruct H as [Ho [Hm Ha]].
  unfold same_content, pose_copy, object_duplicate, mesh_duplicate, object_names.
  cbn [objects meshes active_collection]. rewrite Ho, Hm, Ha. auto.
Qed.

Lemma pose_copies_frame (c : nat) (s0 : Scene) :
  forall (items : meshes_dict) (s : Scene),
    collections (pose_copies c s0 items s) = collections s
    /\ scene_children (pose_copies c s0 items s) = scene_children s
    /\ active_object (pose_copies c s0 items s) = active_object s
    /\ active_collection (pose_copies c s0 items s) = active_collection s.
Proof.
  induction items as [| [name v] rest IH]; intros s; [auto |].
  cbn [pose_copies]. destruct v as [src |]; [| auto].
  destruct (find_object src s0) as [x |]; [| auto].
  destruct (mesh_of s0 x) as [m |]; [| auto].
  apply (IH (pose_copy c s name x m)).
Qed.

Lemma pose_copies_content (c : nat) (s0 : Scene) :
  forall (items : meshes_dict) (s : Scene),
    sources s0 items -> grown s0 s ->
    exists news ms,
      objects (pose_copies c s0 items s) = objects s ++ news
      /\ meshes (pose_copies c s0 items s) = meshes s ++ ms
      /\ Forall2 (copied c s0 (pose_copies c s0 items s)) items news.
Proof.
  induction items as [| [name v] rest IH]; intros s Hsrc Hg.
  - exists [], []. rewrite !app_nil_r. repeat split. constructor.
  - destruct (Hsrc name v (or_introl eq_refl)) as [src [x [m [-> [Hx Hm]]]]].
    cbn [pose_copies]. rewrite Hx, Hm.
    set (s1 := pose_copy c s name x m).
    destruct (IH s1 (fun n v H => Hsrc n v (or_intror H)) (grown_pose_copy c s0 s name x m Hg))
      as [news [ms [Ho [Hms HF]]]].
    set (y := with_users_collection [DataCollection c] (object_duplicate s name x)).
    exists (y :: news), (mesh_duplicate s name m :: ms).
    split; [rewrite Ho; unfold s1, pose_copy; cbn [objects];
            rewrite <- app_assoc; reflexivity |].
    split; [rewrite Hms; unfold s1, pose_copy; cbn [meshes];
            rewrite <- app_assoc; reflexivity |].
    constructor; [| exact HF].
    destruct Hg as [[news0 Ho0] [[ms0 Hm0] Ha0]].
    exists src, x, m, (mesh_duplicate s name m). cbn [fst snd].
    split; [reflexivity |]. split; [exact Hx |]. split; [exact Hm |].
    split.
    { cbn [y oid with_users_collection object_duplicate]. intros Hin.
      apply (fresh_not_in (map oid (objects s))).
      assert (Hsub : incl (map oid (objects s0)) (map oid (objects s)))
        by (rewrite Ho0, map_app; apply incl_appl, incl_refl).
      apply Hsub, Hin. }
    split; [reflexivity |]. split; [reflexivity |]. split; [reflexivity |].
    split; [reflexivity |]. split; [reflexivity |].
    split; [apply unique_name_shaped |].
    split.
    { unfold mesh_of. cbn [y odata with_users_collection object_duplicate].
      unfold find_mesh. rewrite Hms. apply find_more.
      unfold s1, pose_copy. cbn [meshes].
      apply (find_last did _ (meshes s) (mesh_duplicate s name m));
        [apply fresh_not_in | reflexivity]. }
    split; [reflexivity |].
    cbn [did mesh_duplicate]. intros Hin.
    apply (fresh_not_in (map did (meshes s))).
    assert (Hsub : incl (map did (meshes s0)) (map did (meshes s)))
      by (rewrite Hm0, map_app; apply incl_appl, incl_refl).
    apply Hsub, Hin.
Qed.

Lemma find_collection_In_ids (c : nat) (s : Scene) :
  collection_alive (DataCollection c) s = true -> In c (map cid_of (collections s)).
Proof.
  cbn. unfold find_collection. destruct (find _ _) as [k |] eqn:E; [| discriminate].
  intros _. apply find_some in E. destruct E as [Hin Ek]. apply Nat.eqb_eq in Ek.
  rewrite <- Ek. apply in_map. exact Hin.
Qed.

Lemma create_pose_collection_runs (items : meshes_dict) (pose_name : string)
      (s : Scene) (t : list Effect) :
  sources s items -> collection_alive (active_collection s) s = true ->
  incl (scene_children s) (map cid_of (collections s)) ->
  let c := fresh (map cid_of (collections s)) in
  create_pose_collection items pose_name (mkWorld s t [])
  = (Ok c,
     mkWorld (pose_copies c s items (pose_collection_added s pose_name))
             (t ++ [Printed "INFO" [Str ("Creating " ++ pose_name
                                              ++ " pose collection...")]]) []).
Proof.
  intros Hsrc Hac Hch c. unfold create_pose_collection.
  set (line := Printed "INFO" [Str ("Creating " ++ pose_name ++ " pose collection...")]).
  rewrite (bind_at _ _ _ (mkWorld s (t ++ [line]) []) tt) by reflexivity.
  set (k := mkCollection c (unique_name (map cname (collections s))
                                        ("HumanLayer_" ++ pose_name))).
  set (s1 := mkScene (objects s) (meshes s) (collections s ++ [k])
                     (scene_children s) (active_object s) (active_collection s)).
  rewrite (bind_at _ _ _ (mkWorld s1 (t ++ [line]) []) c)
    by (unfold collections_new; apply call_gives; reflexivity).
  assert (Hc : ~ In c (map cid_of (collections s))) by apply fresh_not_in.
  assert (Hk : find_collection c s1 = Some k).
  { unfold find_collection, s1. cbn [collections].
    apply (find_last cid_of c (collections s) k Hc eq_refl). }
  assert (Hnew : existsb (Nat.eqb c) (scene_children s) = false).
  { destruct (existsb _ _) eqn:E; [| reflexivity]. exfalso.
    apply existsb_exists in E. destruct E as [j [Hj Ej]]. apply Nat.eqb_eq in Ej.
    subst j. apply Hc, Hch, Hj. }
  rewrite (bind_at _ _ _ (mkWorld (pose_collection_added s pose_name) (t ++ [line]) []) tt).
  2:{ unfold scene_collection_children_link. apply call_gives. rewrite Hk.
      change (scene_children s1) with (scene_children s). rewrite Hnew. reflexivity. }
  assert (Hg : grown s (pose_collection_added s pose_name)).
  { unfold grown, pose_collection_added. cbn [objects meshes active_collection].
    repeat split; exists []; rewrite app_nil_r; reflexivity. }
  assert (Hac' : collection_alive (active_collection (pose_collection_added s pose_name))
                                  (pose_collection_added s pose_name) = true).
  { change (active_collection (pose_collection_added s pose_name))
      with (active_collection s).
    destruct (active_collection s) as [| i]; [reflexivity |].
    cbn in Hac |- *. unfold find_collection in *. cbn [collections].
    destruct (find _ (collections s)) as [k0 |] eqn:E; [| discriminate Hac].
    rewrite (find_more _ _ _ _ E). reflexivity. }
  assert (Hc' : collection_alive (DataCollection c) (pose_collection_added s pose_name)
                = true).
  { unfold collection_alive.
    change (find_collection c (pose_collection_added s pose_name))
      with (find_collection c s1). rewrite Hk. reflexivity. }
  rewrite (bind_at _ _ _ _ _
             (pose_loop_runs c s (t ++ [line]) items (pose_collection_added s pose_name)
                             Hsrc Hg Hac' Hc')).
  reflexivity.
Qed.

(** X14.  The name of the pose decides the name of the new collection and
    one line of the log, and nothing else: from the same scene,
    [create_pose_collection] for any two pose names returns the same
    collection handle and leaves the same objects, with the same matrices,
    and the same meshes.  [POSE_TRANSFORMS] has no part in it. *)
Theorem create_pose_collection_ignores_pose (items : meshes_dict)
        (pose1 pose2 : string) (w : World) :
  quiet w -> sources (scene w) items ->
  collection_alive (active_collection (scene w)) (scene w) = true ->
  incl (scene_children (scene w)) (map cid_of (collections (scene w))) ->
  exists c w1 w2,
    create_pose_collection items pose1 w = (Ok c, w1)
    /\ create_pose_collection items pose2 w = (Ok c, w2)
    /\ objects (scene w1) = objects (scene w2)
    /\ meshes (scene w1) = meshes (scene w2)
    /\ map cid_of (collections (scene w1)) = map cid_of (collections (scene w2))
    /\ scene_children (scene w1) = scene_children (scene w2).
Proof.
  destruct w as [s t f]. unfold quiet. cbn [scene trace faults].
  intros -> Hsrc Hac Hch.
  eexists. eexists. eexists.
  split; [apply (create_pose_collection_runs items pose1 s t Hsrc Hac Hch) |].
  split; [apply (create_pose_collection_runs items pose2 s t Hsrc Hac Hch) |].
  cbn [scene].
  set (c := fresh (map cid_of (collections s))).
  destruct (pose_copies_same c s items (pose_collection_added s pose1)
              (pose_collection_added s pose2)) as [Ho [Hm _]];
    [repeat split |].
  destruct (pose_copies_frame c s items (pose_collection_added s pose1))
    as [Hc1 [Hk1 _]].
  destruct (pose_copies_frame c s items (pose_collection_added s pose2))
    as [Hc2 [Hk2 _]].
  split; [exact Ho |]. split; [exact Hm |].
  rewrite Hc1, Hc2, Hk1, Hk2. unfold pose_collection_added.
  cbn [collections scene_children]. rewrite !map_app. split; reflexivity.
Qed.

Lemma Forall2_right {X Y : Type} (R : X -> Y -> Prop) (l : list X) (l' : list Y)
      (y : Y) :
  Forall2 R l l' -> In y l' -> exists x, In x l /\ R x y.
Proof.
  induction 1 as [| a b r r' Hab _ IH]; intros Hin; [destruct Hin |].
  destruct Hin as [<- | Hin].
  - exists a. split; [left; reflexivity | exact Hab].
  - destruct (IH Hin) as [x [Hx HR]]. exists x. split; [right; exact Hx | exact HR].
Qed.

(** X15.  [create_pose_collection] adds one collection, with a handle and
    a name that are not in use, and one copy per entry of the dict, in the
    order of the dict.  The objects the scene had are as they were.  Each
    copy has the matrix of the object of its entry and the geometry of its
    mesh, has no modifier, and is linked in the new collection alone: the
    objects of the new collection are exactly the copies. *)
Theorem create_pose_collection_fills (items : meshes_dict) (pose_name : string)
        (w : World) :
  quiet w -> sources (scene w) items ->
  collection_alive (active_collection (scene w)) (scene w) = true ->
  links_alive (scene w) ->
  exists c w' news,
    create_pose_collection items pose_name w = (Ok c, w')
    /\ ~ In c (map cid_of (collections (scene w)))
    /\ collections (scene w')
       = collections (scene w)
         ++ [mkCollection c (unique_name (map cname (collections (scene w)))
                                         ("HumanLayer_" ++ pose_name))]
    /\ objects (scene w') = objects (scene w) ++ news
    /\ Forall2 (copied c (scene w) (scene w')) items news
    /\ collection_objects (DataCollection c) (scene w') = news.
Proof.
  destruct w as [s t f]. unfold quiet. cbn [scene trace faults].
  intros -> Hsrc Hac [Hch Hlinks].
  set (c := fresh (map cid_of (collections s))).
  assert (Hc : ~ In c (map cid_of (collections s))) by apply fresh_not_in.
  destruct (pose_copies_content c s items (pose_collection_added s pose_name) Hsrc)
    as [news [ms [Ho [Hm HF]]]].
  { unfold grown, pose_collection_added. cbn [objects meshes active_collection].
    repeat split; exists []; rewrite app_nil_r; reflexivity. }
  destruct (pose_copies_frame c s items (pose_collection_added s pose_name))
    as [Hc1 _].
  eexists c, _, news.
  split; [apply (create_pose_collection_runs items pose_name s t Hsrc Hac Hch) |].
  cbn [scene]. fold c. split; [exact Hc |]. split; [exact Hc1 |]. split; [exact Ho |].
  split; [exact HF |].
  unfold collection_objects. rewrite Ho, filter_app.
  change (objects (pose_collection_added s pose_name)) with (objects s).
  rewrite (filter_none _ (objects s)), (filter_all _ news); [reflexivity | |].
  - intros y Hy. destruct (Forall2_right _ _ _ y HF Hy) as [item [_ Hcp]].
    destruct Hcp as (src & x & m & m' & _ & _ & _ & _ & _ & _ & Hu & _).
    unfold linked_in. rewrite Hu. cbn. rewrite Nat.eqb_refl. reflexivity.
  - intros y Hy. unfold linked_in. destruct (existsb _ _) eqn:E; [| reflexivity].
    exfalso. apply existsb_exists in E. destruct E as [r [Hr Er]].
    destruct r as [| j]; [discriminate Er |].
    change (Nat.eqb c j = true) in Er. apply Nat.eqb_eq in Er.
    subst j. apply Hc. apply find_collection_In_ids. apply (Hlinks y _ Hy Hr).
Qed.

End PoseCollection.

(** ** The four objects of [extract_anatomy_meshes] *)

Section ExtractionFrame.
Context {host : Host}.

Lemma same_but_selection_trans (l1 l2 l3 : list Object) :
  same_but_selection l1 l2 -> same_but_selection l2 l3 -> same_but_selection l1 l3.
Proof. unfold same_but_selection. intros H1 H2. rewrite H2. exact H1. Qed.

Lemma same_but_selection_split (l1 : list Object) (x : Object) (l' : list Object) :
  same_but_selection (l1 ++ [x]) l' ->
  exists l1' x', l' = l1' ++ [x'] /\ same_but_selection l1 l1'
                 /\ with_selected false x' = with_selected false x.
Proof.
  unfold same_but_selection. rewrite map_app. intros H.
  apply map_eq_app in H. destruct H as [a [b [-> [Ha Hb]]]].
  destruct b as [| x' [| ? ?]]; try discriminate Hb.
  exists a, x'. split; [reflexivity |]. split; [exact Ha |].
  cbn in Hb. exact (f_equal (fun l => hd (with_selected false x) l) Hb).
Qed.

(** The loop of [extract_anatomy_meshes] over a table with distinct keys:
    what it adds to the scene, and what it leaves. *)
Lemma extract_fold_frame :
  forall (todo : list (string * list string)) (acc : meshes_dict) (s : Scene)
         (t : list Effect),
    NoDup (keys todo) -> well_formed s ->
    exists extracted s' lines old news,
      for_fold todo acc extract_one (mkWorld s t [])
      = (Ok extracted, mkWorld s' (t ++ lines) [])
      /\ objects s' = old ++ news
      /\ same_but_selection (objects s) old
      /\ Forall2 (fun key y => dict_get extracted key None = Some (oid y)
                               /\ is_mesh y = true)
                 (keys todo) news
      /\ NoDup (map oid (objects s'))
      /\ (forall d m, find_mesh d s = Some m -> find_mesh d s' = Some m)
      /\ collections s' = collections s
      /\ (forall k, ~ In k (keys todo) ->
                    dict_get extracted k None = dict_get acc k None).
Proof.
  induction todo as [| [key patterns] todo IH]; intros acc s t Hnd Hwf.
  - exists acc, s, [], (objects s), []. rewrite !app_nil_r.
    destruct Hwf as [Hd _].
    split; [reflexivity |]. split; [reflexivity |]. split; [reflexivity |].
    split; [constructor |]. split; [exact Hd |]. auto.
  - cbn [keys map fst] in Hnd. apply NoDup_cons_iff in Hnd.
    destruct Hnd as [Hfresh Hnd].
    destruct (extract_one_runs acc key patterns s t Hwf)
      as [x [s1 [lines1 [E1 [Hext [_ [_ _]]]]]]].
    destruct (IH (dict_set acc key (Some (oid x))) s1 (t ++ lines1) Hnd
                 (extended_well_formed s s1 x Hwf Hext))
      as (extracted & s' & lines & old' & news & Er & Ho & Hsame & HF & Hnd' & Hm & Hc & Hk).
    pose proof Hext as [[old1 [Ho1 Hsame1]] [_ [Hmesh [_ [Hkeep [Hcs _]]]]]].
    rewrite Ho1 in Hsame.
    destruct (same_but_selection_split old1 x old' Hsame) as [oldA [x' [-> [HA Ex]]]].
    destruct (deselected_same x x' Ex) as [Eo [_ [Et _]]].
    exists extracted, s', (lines1 ++ lines), oldA, (x' :: news).
    cbn [for_fold]. rewrite (bind_at _ _ _ _ _ E1), Er, <- !app_assoc.
    split; [reflexivity |]. split; [rewrite Ho, <- app_assoc; reflexivity |].
    split; [apply (same_but_selection_trans _ old1); assumption |].
    split.
    { cbn [keys map fst]. constructor; [| exact HF]. split.
      - rewrite (Hk key Hfresh), dict_get_set, Eo. reflexivity.
      - unfold is_mesh. rewrite Et. exact Hmesh. }
    split; [exact Hnd' |]. split; [intros d m H; apply Hm, Hkeep, H |].
    split; [rewrite Hc; exact Hcs |].
    intros k Hnk. rewrite Hk by (intros H; apply Hnk; right; exact H).
    apply dict_get_set_other. intros ->. apply Hnk. left. reflexivity.
Qed.


End ExtractionFrame.

(** ** [decimate_mesh] and [cleanup_mesh], their edges *)

Section MeshEdges.
Context {host : Host}.

(** X17.  [decimate_mesh] divides the target by the triangle count without
    a guard of its own: for an object with no triangle (an object that is
    not a mesh counts 0) and a negative target, it raises
    [ZeroDivisionError] and leaves the scene as it was. *)
Theorem decimate_mesh_division_by_zero (obj : nat) (target : Z) (w : World)
        (x : Object) :
  quiet w -> find_object obj (scene w) = Some x ->
  triangle_count (scene w) x = Some 0%Z -> (target < 0)%Z ->
  exists w',
    decimate_mesh obj target w
    = (Raise (Exception "ZeroDivisionError" "division by zero"), w')
    /\ scene w' = scene w.
Proof.
  intros Hq Hx Hn Ht.
  destruct (get_mesh_triangle_count_runs obj w x 0%Z Hq Hx Hn) as [w1 [E [_ Hs]]].
  exists w1. unfold decimate_mesh. rewrite (bind_run _ _ _ _ _ E).
  replace (0 <=? target)%Z with false by (symmetry; apply Z.leb_gt; exact Ht).
  cbn. split; [reflexivity | exact Hs].
Qed.

Lemma update_mesh_body (d : nat) (f : Mesh -> Mesh) (s : Scene) :
  (forall m, mesh_body (f m) = mesh_body m) ->
  map mesh_body (meshes (update_mesh d f s)) = map mesh_body (meshes s).
Proof.
  intros Hf. unfold update_mesh. cbn [meshes set_meshes]. rewrite map_map.
  apply map_ext. intros m. destruct (Nat.eqb (did m) d); [apply Hf | reflexivity].
Qed.

Ltac bodies_leaf :=
  let s := fresh "s" in
  let H := fresh "H" in
  lazymatch goal with
  | |- stable _ (call _) =>
      apply stable_call_scene; intros s H; split_call; try exact H;
      destruct H as [? [? ?]]; (split; [assumption | split; [| assumption]]);
      rewrite update_mesh_body by reflexivity; assumption
  end.

Lemma cleanup_mesh_bodies (fuel obj : nat) (s0 : Scene) :
  stable (on_scene (bodies_kept s0)) (cleanup_mesh fuel obj).
Proof. walk ltac:(idtac; bodies_leaf). Qed.

(** X18.  [cleanup_mesh] strips and does nothing else.  However it ends,
    the objects and the collections of the scene are as they were, and
    every mesh data-block has the handle, the name and the geometry it had.
    For an object without data it raises [AttributeError] before it has
    changed anything. *)
Theorem cleanup_mesh_only_strips (fuel obj : nat) (w : World) :
  let w' := snd (cleanup_mesh fuel obj w) in
  objects (scene w') = objects (scene w)
  /\ map mesh_body (meshes (scene w')) = map mesh_body (meshes (scene w))
  /\ collections (scene w') = collections (scene w)
  /\ (forall x, next_fault w = None -> find_object obj (scene w) = Some x ->
                odata x = None ->
                exists msg, cleanup_mesh fuel obj w
                            = (Raise (Exception "AttributeError" msg), tick w (scene w))).
Proof.
  intros w'. 
  assert (H : bodies_kept (scene w) (scene w')).
  { pose proof (cleanup_mesh_bodies fuel obj (scene w) w) as H.
    unfold on_scene, bodies_kept in H. specialize (H (conj eq_refl (conj eq_refl eq_refl))).
    unfold w'. destruct (cleanup_mesh fuel obj w) as [[u | e |] w1]; exact H. }
  destruct H as [Ho [Hm Hc]]. repeat split; try assumption.
  intros x Hq Hx Hd. unfold cleanup_mesh, get_data.
  rewrite (bind_run _ _ w (tick w (scene w)) (odata x))
    by (apply (read_object_run obj (fun _ => odata)); assumption).
  rewrite Hd. eexists. reflexivity.
Qed.

End MeshEdges.

(** ** What processing keeps *)

Section Processing.
Context {host : Host}.

Lemma identities_update_object (o : nat) (f : Object -> Object) (s : Scene) :
  (forall x, object_identity (f x) = object_identity x) ->
  identities (update_object o f s) = identities s.
Proof.
  intros Hf. unfold identities, update_object. cbn [objects set_objects].
  rewrite map_map. apply map_ext. intros x.
  destruct (Nat.eqb (oid x) o); [apply Hf | reflexivity].
Qed.

Lemma names_update_mesh (d : nat) (f : Mesh -> Mesh) (s : Scene) :
  (forall m, (did (f m), dname (f m)) = (did m, dname m)) ->
  map (fun m => (did m, dname m)) (meshes (update_mesh d f s))
  = map (fun m => (did m, dname m)) (meshes s).
Proof.
  intros Hf. unfold update_mesh. cbn [meshes set_meshes]. rewrite map_map.
  apply map_ext. intros m. destruct (Nat.eqb (did m) d); [apply Hf | reflexivity].
Qed.

Lemma bake_kept (l : list Object) (s : Scene) :
  identities_kept s (fold_left bake l s).
Proof.
  revert s. induction l as [| x r IH]; intros s; cbn [fold_left].
  - repeat split.
  - destruct (IH (bake s x)) as [H1 [H2 H3]]. unfold identities_kept.
    rewrite H1, H2, H3. unfold bake. destruct (odata x); [| repeat split].
    repeat split. apply names_update_mesh. reflexivity.
Qed.

Lemma recentre_kept (l : list Object) (s : Scene) :
  identities_kept s (fold_left recentre l s).
Proof.
  revert s. induction l as [| x r IH]; intros s; cbn [fold_left].
  - repeat split.
  - destruct (IH (recentre s x)) as [H1 [H2 H3]]. unfold identities_kept.
    rewrite H1, H2, H3. unfold recentre. destruct (mesh_of s x); [| repeat split].
    destruct (origin_set_bounds _ _) as [g mw]. repeat split.
    + rewrite identities_update_object by reflexivity. reflexivity.
    + apply (names_update_mesh _ _ s). reflexivity.
Qed.

Lemma identities_kept_trans (s0 s1 s2 : Scene) :
  identities_kept s0 s1 -> identities_kept s1 s2 -> identities_kept s0 s2.
Proof.
  intros [A1 [A2 A3]] [B1 [B2 B3]]. unfold identities_kept.
  rewrite B1, B2, B3. auto.
Qed.

Lemma transform_apply_kept (s : Scene) :
  identities_kept s
    (set_objects
       (map (fun x => if selected x && is_mesh x
                      then with_matrix_world identity_matrix x else x)
            (objects (fold_left bake (filter (fun x => selected x && is_mesh x)
                                             (objects s)) s)))
       (fold_left bake (filter (fun x => selected x && is_mesh x) (objects s)) s)).
Proof.
  apply (identities_kept_trans _ (fold_left bake (filter (fun x => selected x && is_mesh x)
                                                         (objects s)) s));
    [apply bake_kept |].
  split; [| split; reflexivity].
  unfold identities. cbn [objects set_objects]. rewrite map_map.
  apply map_ext. intros y. destruct (selected y && is_mesh y); reflexivity.
Qed.

Ltac identities_part :=
  first
    [ reflexivity
    | rewrite identities_update_object by reflexivity; reflexivity
    | apply names_update_mesh; reflexivity
    | rewrite identities_update_object by reflexivity;
      rewrite ?names_update_mesh by reflexivity; reflexivity ].

Ltac identities_leaf :=
  let s := fresh "s" in
  let H := fresh "H" in
  lazymatch goal with
  | |- stable _ (log _ _) => apply stable_log_scene
  | |- stable _ (call _) =>
      apply stable_call_scene; intros s H;
      first
        [ split_call; exact H
        | apply (identities_kept_trans _ s _ H);
          first
            [ apply transform_apply_kept
            | apply recentre_kept
            | split_call; (split; [| split]); identities_part ] ]
  end.

Lemma process_meshes_identities (fuel : nat) (meshes : meshes_dict) (s0 : Scene) :
  stable (on_scene (identities_kept s0)) (process_meshes fuel meshes).
Proof. walk ltac:(idtac; identities_leaf). Qed.

Lemma center_origin_to_floor_identities (obj : nat) (s0 : Scene) :
  stable (on_scene (identities_kept s0)) (center_origin_to_floor obj).
Proof. walk ltac:(idtac; identities_leaf). Qed.

(** X19.  Processing and centring work on the objects in place.  However
    [process_meshes] and [center_origin_to_floor] end, the scene has the
    objects it had, in their order, each with the name, the type, the data
    and the collections it had; the collections are the same, and so are
    the handles and names of the mesh data-blocks.  What they change is
    geometry, matrices, modifiers, layers, the selection and the active
    object. *)
Theorem processing_keeps_identities (fuel obj : nat) (meshes : meshes_dict)
        (w : World) :
  identities_kept (scene w) (scene (snd (process_meshes fuel meshes w)))
  /\ identities_kept (scene w) (scene (snd (center_origin_to_floor obj w))).
Proof.
  split.
  - pose proof (process_meshes_identities fuel meshes (scene w) w) as H.
    specialize (H (conj eq_refl (conj eq_refl eq_refl))).
    destruct (process_meshes fuel meshes w) as [[u | e |] w1]; exact H.
  - pose proof (center_origin_to_floor_identities obj (scene w) w) as H.
    specialize (H (conj eq_refl (conj eq_refl eq_refl))).
    destruct (center_origin_to_floor obj w) as [[u | e |] w1]; exact H.
Qed.

End Processing.

(** ** [center_origin_to_floor] *)

Section Centring.
Context {host : Host}.

Lemma least_spec (r : list Q) :
  forall a, In (least a r) (a :: r)
            /\ forall x, In x (a :: r) -> (least a r <= x)%Q.
Proof.
  induction r as [| b r IH]; intros a; cbn [least fold_left].
  - split; [left; reflexivity |]. intros x [<- | []]. apply Qle_refl.
  - destruct (Qle_bool a b) eqn:E.
    + destruct (IH a) as [Hin Hle]. fold (least a r). split.
      * destruct Hin as [H | H]; [left; exact H | right; right; exact H].
      * intros x [<- | [<- | Hx]].
        -- apply Hle. left. reflexivity.
        -- apply Qle_trans with a; [apply Hle; left; reflexivity |].
           apply Qle_bool_iff. exact E.
        -- apply Hle. right. exact Hx.
    + destruct (IH b) as [Hin Hle]. fold (least b r). split.
      * right. exact Hin.
      * intros x [<- | [<- | Hx]].
        -- apply Qle_trans with b; [apply Hle; left; reflexivity |].
           apply Qlt_le_weak. apply Qnot_le_lt. intros H.
           apply Qle_bool_iff in H. congruence.
        -- apply Hle. left. reflexivity.
        -- apply Hle. right. exact Hx.
Qed.

Lemma corners_loop (obj : nat) (s : Scene) (t : list Effect) (x : Object) :
  find_object obj s = Some x ->
  forall corners,
    for_collect corners (fun corner => m <- get_matrix_world obj ;;
                                       ret (matmul m corner))%py (mkWorld s t [])
    = (Ok (map (matmul (matrix_world x)) corners), mkWorld s t []).
Proof.
  intros Hx. induction corners as [| c r IH]; [reflexivity |].
  cbn [for_collect].
  rewrite (bind_at _ _ _ (mkWorld s t []) (matmul (matrix_world x) c)).
  - rewrite (bind_at _ _ _ _ _ IH). reflexivity.
  - rewrite (bind_at _ _ _ (mkWorld s t []) (matrix_world x)); [reflexivity |].
    unfold get_matrix_world, read_object. apply call_gives. rewrite Hx. reflexivity.
Qed.


End Centring.


(** * Runs on the scenes *)
(* ================================================================== *)

Section OnScenes.
#[local] Existing Instance tally.



(** C8 fails on the scene that already holds [HumanLayer_old]: the statue
    in that collection, which the script has not made, is removed. *)
Lemma main_removes_the_statue :
  let w' := snd (main 10 argv_doc (start scene_statue)) in
  In (mkCollection 7 "HumanLayer_old") (collections scene_statue)
  /\ In 1%nat (map oid (objects scene_statue))
  /\ ~ In 1%nat (map oid (objects (scene w'))).
Proof.
  vm_compute. split; [left; reflexivity |]. split; [left; reflexivity |].
  intros H. repeat (destruct H as [H | H]; [discriminate |]). exact H.
Qed.

(** ** The theorems at work *)



Lemma main_exit_code_witness :
  exists r w' t,
    main 10 argv_doc (failing scene_anatomy) = (r, w')
    /\ trace w'
       = trace (snd (main_try 10 (PurePath "public/models/human")
                              (snd (main_prologue argv_doc (failing scene_anatomy)))))
         ++ Printed "ERROR" [Str "Error: Error: context is incorrect"]
         :: Traceback (Exception "RuntimeError" "Error: context is incorrect") :: t
    /\ (r = Raise (SystemExit 1) \/ exists c m, r = Raise (Exception c m))
    /\ exit_code r = Some 1%Z.
Proof.
  destruct (main_exit_code 10 argv_doc (failing scene_anatomy)
              (snd (main_prologue argv_doc (failing scene_anatomy)))
              (PurePath "public/models/human")) as [H _].
  - vm_compute. reflexivity.
  - apply (H "RuntimeError" "Error: context is incorrect"
             (snd (main_try 10 (PurePath "public/models/human")
                            (snd (main_prologue argv_doc (failing scene_anatomy)))))).
    vm_compute. reflexivity.
Defined.

Lemma cleanup_mesh_strips_witness :
  exists w',
    cleanup_mesh 10 1 (start scene_anatomy) = (Ok tt, w')
    /\ exists x m,
        find_object 1 (scene w') = Some x /\ mesh_of (scene w') x = Some m
        /\ materials m = [] /\ uv_layers m = [] /\ vertex_colors m = []
        /\ shape_keys m = [].
Proof.
  destruct (cleanup_mesh_strips 10 1 (start scene_anatomy)) as [Hclean Hruns].
  destruct (Hruns _ _ eq_refl eq_refl eq_refl) as [w' Hw']; try (simpl; lia).
  exists w'. split; [exact Hw' |]. apply (Hclean tt w' Hw').
Defined.


Lemma main_cleans_up_witness :
  exists w1,
    cleanup_scene w1 = (Ok tt, snd (main 10 argv_doc (start scene_statue)))
    /\ (forall k, In k (collections (scene (snd (main 10 argv_doc (start scene_statue))))) ->
                  startswith (cname k) "HumanLayer_" = false)
    /\ (forall x, In x (objects (scene w1)) ->
                  linked_in_humanlayer (scene w1) x = true ->
                  ~ In (oid x)
                       (map oid (objects (scene (snd (main 10 argv_doc
                                                            (start scene_statue))))))).
Proof.
  apply (main_cleans_up 10 argv_doc (start scene_statue)
                        (snd (main 10 argv_doc (start scene_statue))) (Ok tt)).
  - unfold distinct_collections. simpl. repeat constructor. simpl. tauto.
  - vm_compute. reflexivity.
  - left. reflexivity.
Defined.

Lemma main_keeps_objects_apart_witness :
  In 1%nat (map oid (objects (scene (snd (main 10 argv_doc (start scene_anatomy))))))
  /\ kept_apart (scene (snd (main 10 argv_doc (start scene_anatomy)))) 1 = true.
Proof.
  exact (main_keeps_objects_apart 10 argv_doc (start scene_anatomy) _
           (or_introl eq_refl) eq_refl).
Defined.


(** ** The functions one by one, on the scenes *)

Lemma find_meshes_by_pattern_ignores_case_witness :
  find_meshes_by_pattern ["Skin"; "VEIN"] (start scene_anatomy)
  = find_meshes_by_pattern ["skin"; "vein"] (start scene_anatomy).
Proof.
  apply (find_meshes_by_pattern_ignores_case ["Skin"; "VEIN"] ["skin"; "vein"]).
  reflexivity.
Defined.

Lemma find_meshes_by_pattern_edges_witness :
  fst (find_meshes_by_pattern [] (start scene_anatomy)) = Ok []
  /\ fst (find_meshes_by_pattern ["heart"; ""] (start scene_anatomy))
     = Ok [1; 2; 3; 4]%nat.
Proof.
  destruct (find_meshes_by_pattern_edges ["heart"; ""] (start scene_anatomy) eq_refl)
    as [H1 H2].
  split; [exact H1 |]. apply H2. right. left. reflexivity.
Defined.

Lemma get_mesh_triangle_count_only_reads_witness :
  get_mesh_triangle_count 5 (start scene_anatomy)
  = (Ok 0%Z, tick (start scene_anatomy) scene_anatomy).
Proof.
  destruct (get_mesh_triangle_count_only_reads 5 (start scene_anatomy))
    as [_ [_ H]].
  apply (H _ eq_refl eq_refl eq_refl).
Defined.

Lemma cleanup_scene_leaves_witness :
  scene (snd (cleanup_scene (start scene_anatomy))) = scene_anatomy
  /\ scene (snd (cleanup_scene (snd (cleanup_scene (start scene_statue)))))
     = scene (snd (cleanup_scene (start scene_statue))).
Proof.
  split.
  - destruct (cleanup_scene_leaves (start scene_anatomy)) as [_ [H _]].
    apply H. intros k Hk. cbn in Hk.
    repeat (destruct Hk as [<- | Hk]; [reflexivity |]). destruct Hk.
  - destruct (cleanup_scene_leaves (start scene_statue)) as [_ [_ H]].
    apply H.
    + unfold distinct_collections. cbn. repeat constructor; cbn; tauto.
    + vm_compute. reflexivity.
Defined.

Lemma main_stops_when_mkdir_fails_witness :
  main 10 argv_doc (mkWorld scene_anatomy [] [Some ("PermissionError", "denied")])
  = (Raise (Exception "PermissionError" "denied"),
     mkWorld scene_anatomy
             [Printed "INFO" [Str (str_repeat "=" 60)];
              Printed "INFO" [Str "Z-Anatomy Model Extractor"];
              Printed "INFO" [Str (str_repeat "=" 60)]] []).
Proof.
  apply (main_stops_when_mkdir_fails 10 argv_doc
           (mkWorld scene_anatomy [] [Some ("PermissionError", "denied")])).
  reflexivity.
Defined.

Lemma duplicate_object_copies_witness :
  exists w' x' m',
    duplicate_object 1 "Body" (start scene_anatomy) = (Ok (oid x'), w')
    /\ objects (scene w') = objects scene_anatomy ++ [x']
    /\ meshes (scene w') = meshes scene_anatomy ++ [m']
    /\ oname x' = "Body" /\ modifiers x' = [] /\ geom m' = 50000%Z.
Proof.
  destruct (duplicate_object_copies 1 "Body" (start scene_anatomy) _ 1 _
              eq_refl eq_refl eq_refl eq_refl eq_refl)
    as (w' & x' & m' & E & Ht & Ho & Hm & Hc & Ha & Hf1 & Hf2 & Hty & Hda & Hmw
        & Hmod & Hsel & Hu & Hn & Hdn & Hg & Hrest).
  exists w', x', m'. repeat split; assumption.
Defined.

Lemma duplicate_object_without_data_witness :
  exists msg,
    duplicate_object 1 "Body" (start scene_rig)
    = (Raise (Exception "AttributeError" msg), tick (start scene_rig) scene_rig).
Proof.
  apply (duplicate_object_without_data 1 "Body" (start scene_rig) _
           eq_refl eq_refl eq_refl).
Defined.




Lemma extract_anatomy_meshes_values_witness :
  keys (match fst (extract_anatomy_meshes (start scene_empty)) with
        | Ok d => d | _ => [] end)
  = ["Body"; "Veins"; "Brain"; "Heart"]
  /\ Forall (fun v => v <> None)
       (values (match fst (extract_anatomy_meshes (start scene_empty)) with
                | Ok d => d | _ => [] end)).
Proof.
  apply (extract_anatomy_meshes_values (start scene_empty)
           (snd (extract_anatomy_meshes (start scene_empty)))).
  vm_compute. reflexivity.
Defined.

Lemma apply_all_transforms_bakes_witness :
  exists w',
    apply_all_transforms 1 (start scene_anatomy) = (Ok tt, w')
    /\ find_object 1 (scene w')
       = Some (mkObject 1 "Skin" "MESH" (Some 1%nat) [] [] false [DataCollection 1])
    /\ active_object (scene w') = Some 1%nat.
Proof.
  assert (Hnd : NoDup (map oid (objects (scene (start scene_anatomy))))).
  { cbn. repeat constructor; cbn; intuition discriminate. }
  assert (Hon : only_selected 1 (scene (start scene_anatomy))).
  { intros y Hy Hne. cbn in Hy.
    repeat (destruct Hy as [<- | Hy];
            [try reflexivity; exfalso; apply Hne; reflexivity |]).
    destruct Hy. }
  destruct (apply_all_transforms_bakes 1 (start scene_anatomy) _ 1 _
              eq_refl Hnd eq_refl eq_refl eq_refl eq_refl Hon)
    as (w' & E & _ & Hx & _ & Ha & _).
  exists w'. repeat split; assumption.
Defined.

Lemma export_collection_to_glb_exports_witness :
  flat_map exported
    (trace (snd (export_collection_to_glb 1 (PurePath "out.glb") (start scene_anatomy))))
  = [(PurePath "out.glb", ["Skin"; "Veine cave"; "Artère pulmonaire"; "Cerveau"],
      ["MESH"; "MESH"; "MESH"; "MESH"])].
Proof.
  rewrite (export_collection_to_glb_exports 1 (PurePath "out.glb") (start scene_anatomy)).
  - reflexivity.
  - reflexivity.
  - cbn. repeat constructor; cbn; intuition discriminate.
  - reflexivity.
Defined.

Lemma sources_anatomy : sources scene_anatomy [("Body", Some 1%nat); ("Brain", Some 4%nat)].
Proof.
  intros name v [H | [H | []]]; inversion H; subst;
    eexists; eexists; eexists; repeat split; reflexivity.
Qed.

Lemma create_pose_collection_ignores_pose_witness :
  exists c w1 w2,
    create_pose_collection [("Body", Some 1%nat); ("Brain", Some 4%nat)] "open"
                           (start scene_anatomy) = (Ok c, w1)
    /\ create_pose_collection [("Body", Some 1%nat); ("Brain", Some 4%nat)] "closed"
                              (start scene_anatomy) = (Ok c, w2)
    /\ objects (scene w1) = objects (scene w2)
    /\ meshes (scene w1) = meshes (scene w2)
    /\ map cid_of (collections (scene w1)) = map cid_of (collections (scene w2))
    /\ scene_children (scene w1) = scene_children (scene w2).
Proof.
  apply (create_pose_collection_ignores_pose
           [("Body", Some 1%nat); ("Brain", Some 4%nat)] "open" "closed"
           (start scene_anatomy)).
  - reflexivity.
  - exact sources_anatomy.
  - reflexivity.
  - intros k [<- | []]. left. reflexivity.
Defined.

Lemma create_pose_collection_fills_witness :
  exists c w' news,
    create_pose_collection [("Body", Some 1%nat); ("Brain", Some 4%nat)] "open"
                           (start scene_anatomy) = (Ok c, w')
    /\ objects (scene w') = objects scene_anatomy ++ news
    /\ collection_objects (DataCollection c) (scene w') = news
    /\ List.length news = 2%nat.
Proof.
  destruct (create_pose_collection_fills
              [("Body", Some 1%nat); ("Brain", Some 4%nat)] "open"
              (start scene_anatomy))
    as (c & w' & news & E & _ & _ & Ho & HF & Hc).
  - reflexivity.
  - exact sources_anatomy.
  - reflexivity.
  - split.
    + intros k [<- | []]. left. reflexivity.
    + intros y r Hy Hr. cbn in Hy.
      repeat (destruct Hy as [<- | Hy];
              [destruct Hr as [<- | []]; reflexivity |]).
      destruct Hy.
  - exists c, w', news. repeat split; try assumption.
    apply Forall2_length in HF. rewrite <- HF. reflexivity.
Defined.


Lemma decimate_mesh_division_by_zero_witness :
  exists w',
    decimate_mesh 5 (-1) (start scene_anatomy)
    = (Raise (Exception "ZeroDivisionError" "division by zero"), w')
    /\ scene w' = scene_anatomy.
Proof.
  apply (decimate_mesh_division_by_zero 5 (-1) (start scene_anatomy) _
           eq_refl eq_refl eq_refl eq_refl).
Defined.

Lemma cleanup_mesh_only_strips_witness :
  exists msg,
    cleanup_mesh 10 1 (start scene_rig)
    = (Raise (Exception "AttributeError" msg), tick (start scene_rig) scene_rig).
Proof.
  destruct (cleanup_mesh_only_strips 10 1 (start scene_rig)) as [_ [_ [_ H]]].
  apply (H _ eq_refl eq_refl eq_refl).
Defined.


End OnScenes.
